(** * notebookllm: the retrieval-augmented-generation core, embedded in Rocq

    The development follows the TypeScript and SQL sources:
    - [lib/document-processor.ts]  extraction dispatcher and [chunkText];
    - [lib/embeddings.ts]          retry policy, fallback embedding, retrieval;
    - [lib/gemini.ts]              retry policy, chat answer, query decomposition,
                                   summary and tags of a document;
    - [app/api/chat/route.ts]      merge of the per-sub-query results, the handler;
    - the [search_documents] SQL function (hybrid search).

    Part I holds the embedding of the code, Part II the theorems on the
    specification's claims, Part III further properties of the code. *)

From Stdlib Require Import String Ascii DecimalString.
From Stdlib Require Import ZArith NArith QArith Bool Arith Lia List Sorted.
From Stdlib Require Import Reals Lra.
Import ListNotations.

Local Open Scope Z_scope.
Local Open Scope list_scope.

(* ===================================================================== *)
(** * Part I: the embedding                                               *)
(* ===================================================================== *)

(** ** JavaScript values shared by the modules *)

(** A JavaScript string is a sequence of UTF-16 code units; [length],
    [slice] and [charCodeAt] all count code units. *)
Definition jsstring := list N.

(** A string literal of the source. *)
Definition lit (s : string) : jsstring :=
  map N_of_ascii (list_ascii_of_string s).

Fixpoint jsstring_eqb (a b : jsstring) : bool :=
  match a, b with
  | [], [] => true
  | x :: a', y :: b' => N.eqb x y && jsstring_eqb a' b'
  | _, _ => false
  end.

(** [`${n}`] for a non-negative integer [n]. *)
Definition string_of_nat (n : nat) : jsstring :=
  lit (NilEmpty.string_of_uint (Nat.to_uint n)).

(** [String.prototype.slice(start, end)]: negative arguments count from the
    end, both are clamped to the string, an empty span gives [""]. *)
Definition js_slice {A : Type} (s : list A) (start stop : Z) : list A :=
  let len := Z.of_nat (length s) in
  let from := if start <? 0 then Z.max (len + start) 0 else Z.min start len in
  let to := if stop <? 0 then Z.max (len + stop) 0 else Z.min stop len in
  firstn (Z.to_nat (to - from)) (skipn (Z.to_nat from) s).

(** [Array.prototype.map] with the index argument, from index [i]. *)
Fixpoint mapi_from {A B : Type} (f : A -> nat -> B) (i : nat) (l : list A)
  : list B :=
  match l with
  | [] => []
  | x :: l' => f x i :: mapi_from f (S i) l'
  end.

Definition mapi {A B : Type} (f : A -> nat -> B) (l : list A) : list B :=
  mapi_from f 0%nat l.

(** [Array.prototype.join] on strings. *)
Fixpoint join (sep : jsstring) (parts : list jsstring) : jsstring :=
  match parts with
  | [] => []
  | [p] => p
  | p :: rest => p ++ sep ++ join sep rest
  end.

Definition newline : jsstring := [10%N].
Definition dquote : jsstring := [34%N].
Definition backtick : jsstring := [96%N].

(** White space and line terminators: what [String.prototype.trim] strips
    and what [\s] matches. *)
Definition is_space (c : N) : bool :=
  ((9 <=? c) && (c <=? 13) || (c =? 32) || (c =? 160) || (c =? 5760)
   || (8192 <=? c) && (c <=? 8202) || (c =? 8232) || (c =? 8233)
   || (c =? 8239) || (c =? 8287) || (c =? 12288) || (c =? 65279))%N.

Fixpoint trim_start (s : jsstring) : jsstring :=
  match s with
  | c :: s' => if is_space c then trim_start s' else s
  | [] => []
  end.

Definition trim (s : jsstring) : jsstring :=
  rev (trim_start (rev (trim_start s))).

(** A string is falsy when it is empty. *)
Definition truthy (s : jsstring) : bool :=
  match s with
  | [] => false
  | _ :: _ => true
  end.

Fixpoint strip_prefix (prefix s : jsstring) : option jsstring :=
  match prefix, s with
  | [], _ => Some s
  | p :: prefix', c :: s' =>
      if N.eqb p c then strip_prefix prefix' s' else None
  | _ :: _, [] => None
  end.

(** [s.split(sep)] for the separator of two line feeds. *)
Fixpoint split_double_newline (s cur : jsstring) : list jsstring :=
  match s with
  | [] => [rev cur]
  | c :: rest =>
      match rest with
      | d :: rest' =>
          if N.eqb c 10 && N.eqb d 10
          then rev cur :: split_double_newline rest' []
          else split_double_newline rest (c :: cur)
      | [] => split_double_newline rest (c :: cur)
      end
  end.

(** After a line feed: the number of code units that the rest of
    [\n\s*\n] takes, the white space run being as long as it can. *)
Fixpoint blank_gap (rest : jsstring) : option nat :=
  match rest with
  | [] => None
  | c :: rest' =>
      if is_space c then
        match blank_gap rest' with
        | Some n => Some (S n)
        | None => if N.eqb c 10 then Some 1%nat else None
        end
      else None
  end.

(** [s.split(/\n\s*\n/)]; [skip] code units of a separator are still to
    be passed over. *)
Fixpoint split_blank_lines (s cur : jsstring) (skip : nat) : list jsstring :=
  match s with
  | [] => [rev cur]
  | c :: rest =>
      match skip with
      | S skip' => split_blank_lines rest cur skip'
      | O =>
          if N.eqb c 10 then
            match blank_gap rest with
            | Some n => rev cur :: split_blank_lines rest [] n
            | None => split_blank_lines rest (c :: cur) 0%nat
            end
          else split_blank_lines rest (c :: cur) 0%nat
      end
  end.

(** [fileUrl.split('/').pop()]: what follows the last slash. *)
Fixpoint last_segment (s cur : jsstring) : jsstring :=
  match s with
  | [] => rev cur
  | c :: rest =>
      if N.eqb c 47 then last_segment rest [] else last_segment rest (c :: cur)
  end.

(** A thrown exception carries its message and, for provider errors, the
    fields [status] and [httpResponse.status] ([None] where the field is
    absent, as on a plain [Error]). *)
Record js_error : Type := mk_error {
  err_message : jsstring;
  err_status : option Z;
  err_httpResponse_status : option Z
}.

(** The outcome of a call that may throw. *)
Inductive result (A : Type) : Type :=
| Ok (a : A)
| Throw (e : js_error).
Arguments Ok {A} a.
Arguments Throw {A} e.

Definition bind {A B : Type} (r : result A) (k : A -> result B) : result B :=
  match r with
  | Ok a => k a
  | Throw e => Throw e
  end.

(** [try { body } catch (error) { handler }] *)
Definition try_catch {A : Type} (body : result A)
  (handler : js_error -> result A) : result A :=
  match body with
  | Ok a => Ok a
  | Throw e => handler e
  end.

Declare Scope js_scope.
Notation "x <- c ;; k" := (bind c (fun x => k))
  (at level 61, c at next level, right associativity) : js_scope.
Local Open Scope js_scope.

(** [new Error(message)] *)
Definition Error (msg : jsstring) : js_error := mk_error msg None None.

(** ** lib/document-processor.ts *)

Module DocumentProcessor.

(** A value stored under a metadata key. *)
Inductive meta_value : Type :=
| MStr (s : jsstring)
| MNum (n : Z).

(** [DocumentChunk]: the content and the open-ended metadata object, kept
    as the list of its properties in the order the source writes them. *)
Record DocumentChunk : Type := mk_chunk {
  content : jsstring;
  metadata : list (string * meta_value)
}.

Fixpoint meta_get (key : string) (m : list (string * meta_value))
  : option meta_value :=
  match m with
  | [] => None
  | (k, v) :: m' => if String.eqb k key then Some v else meta_get key m'
  end.

(** The [while] loop of [chunkText]; [fuel] bounds the number of
    iterations, and [None] means the bound was reached before the loop
    left.  [chunks] is the array built so far. *)
Fixpoint chunkText_loop (fuel : nat) (text : jsstring)
  (maxLength overlap : Z) (start : Z) (chunks : list jsstring)
  : option (list jsstring) :=
  match fuel with
  | O => None
  | S fuel' =>
      let len := Z.of_nat (length text) in
      if start <? len then
        let end_ := Z.min (start + maxLength) len in
        let chunk := js_slice text start end_ in
        let chunks' := chunks ++ [chunk] in
        if end_ =? len then Some chunks'
        else chunkText_loop fuel' text maxLength overlap (end_ - overlap) chunks'
      else Some chunks
  end.

Definition text_chunk (content : jsstring) (index : nat) : DocumentChunk :=
  mk_chunk content
    [ ("type"%string, MStr (lit "text"));
      ("section"%string, MStr (lit "Chunk " ++ string_of_nat (index + 1))) ].

(** [chunkText(text, maxLength, overlap)] run for at most [fuel] turns of
    its loop. *)
Definition chunkText_fuel (fuel : nat) (text : jsstring)
  (maxLength overlap : Z) : option (list DocumentChunk) :=
  option_map (mapi text_chunk)
    (chunkText_loop fuel text maxLength overlap 0 []).

(** The default arguments [maxLength = 1000, overlap = 200]. *)
Definition default_maxLength : Z := 1000.
Definition default_overlap : Z := 200.

(** *** The extractors *)

(** What [fetch] resolves to, with the body read both ways. *)
Record Response : Type := mk_Response {
  ok : bool;
  statusText : jsstring;
  body_text : jsstring;
  body_arrayBuffer : list N
}.

(** The [source] of a notebook cell: an array of lines, a string, or
    nothing. *)
Inductive cell_source : Type :=
| SourceLines (lines : list jsstring)
| SourceText (text : jsstring)
| SourceMissing.

Record notebook_cell : Type := mk_notebook_cell {
  source : cell_source;
  cell_type : jsstring
}.

(** [/\s+/g] replaced by one space. *)
Fixpoint collapse_spaces (s : jsstring) (in_run : bool) : jsstring :=
  match s with
  | [] => []
  | c :: rest =>
      if is_space c then
        if in_run then collapse_spaces rest true
        else 32%N :: collapse_spaces rest true
      else c :: collapse_spaces rest false
  end.

Definition nonblank (s : jsstring) : bool := truthy (trim s).

Section Extractors.

(** The collaborators: the network, the parsers of [mammoth],
    [csv-parse] and [xlsx], [JSON.parse] read as a notebook, and the
    three regular-expression replacements that take the markup out of
    an HTML text.  [csv_parse] gives each record as its entries,
    [XLSX_sheets] each sheet with its rows of cells as text. *)
Variable fetch : jsstring -> result Response.
Variable mammoth_extractRawText : list N -> result jsstring.
Variable csv_parse : jsstring -> result (list (list (jsstring * jsstring))).
Variable XLSX_sheets :
  list N -> result (list (jsstring * list (list jsstring))).
Variable notebook_cells : jsstring -> result (list notebook_cell).
Variable remove_markup : jsstring -> jsstring.

Definition fetchFileContent (fileUrl : jsstring) : result Response :=
  response <- fetch fileUrl ;;
  if negb (ok response)
  then Throw (Error (lit "Failed to fetch file: " ++ statusText response))
  else Ok response.

Definition pdf_failed_chunk (fileName message : jsstring)
  : DocumentChunk :=
  mk_chunk
    (lit "PDF file: " ++ fileName
     ++ lit " - Content extraction failed. This might be a scanned PDF that requires OCR (Optical Character Recognition) to extract text. Error: "
     ++ message)
    [ ("type"%string, MStr (lit "pdf"));
      ("section"%string, MStr (lit "Document"));
      ("error"%string, MStr message);
      ("filename"%string, MStr fileName);
      ("processingStatus"%string, MStr (lit "failed")) ].

Definition extractTextFromPDF (fileUrl fileName : jsstring)
  : result (list DocumentChunk) :=
  try_catch
    (response <- fetchFileContent fileUrl ;;
     let arrayBuffer := body_arrayBuffer response in
     text <- mammoth_extractRawText arrayBuffer ;;
     if negb (truthy (trim text)) then
       Ok [ mk_chunk
              (lit "PDF file: " ++ fileName
               ++ lit " (No text content found - might be image-based PDF or scanned document)")
              [ ("type"%string, MStr (lit "pdf"));
                ("section"%string, MStr (lit "Document"));
                ("filename"%string, MStr fileName) ] ]
     else
       let chunks := filter nonblank (split_blank_lines text [] 0%nat) in
       match chunks with
       | [] =>
           Ok [ mk_chunk text
                  [ ("type"%string, MStr (lit "pdf"));
                    ("section"%string, MStr (lit "Document"));
                    ("filename"%string, MStr fileName) ] ]
       | _ :: _ =>
           Ok (mapi
                 (fun chunk index =>
                    mk_chunk (trim chunk)
                      [ ("type"%string, MStr (lit "pdf"));
                        ("section"%string,
                         MStr (lit "Section " ++ string_of_nat (index + 1)));
                        ("filename"%string, MStr fileName);
                        ("chunkIndex"%string, MNum (Z.of_nat index)) ])
                 chunks)
       end)
    (fun error => Ok [pdf_failed_chunk fileName (err_message error)]).

Definition extractTextFromDOCX (fileUrl fileName : jsstring)
  : result (list DocumentChunk) :=
  response <- fetchFileContent fileUrl ;;
  let arrayBuffer := body_arrayBuffer response in
  value <- mammoth_extractRawText arrayBuffer ;;
  let paragraphs := filter nonblank (split_double_newline value []) in
  Ok (mapi
        (fun paragraph index =>
           mk_chunk paragraph
             [ ("type"%string, MStr (lit "docx"));
               ("section"%string,
                MStr (lit "Paragraph " ++ string_of_nat (index + 1)));
               ("filename"%string, MStr fileName) ])
        paragraphs).

Definition extractTextFromHTML (fileUrl fileName : jsstring)
  : result (list DocumentChunk) :=
  response <- fetchFileContent fileUrl ;;
  let text := body_text response in
  let textContent := trim (collapse_spaces (remove_markup text) false) in
  let paragraphs :=
    filter nonblank (split_blank_lines textContent [] 0%nat) in
  Ok (mapi
        (fun paragraph index =>
           mk_chunk paragraph
             [ ("type"%string, MStr (lit "html"));
               ("section"%string,
                MStr (lit "Section " ++ string_of_nat (index + 1)));
               ("filename"%string, MStr fileName) ])
        paragraphs).

Definition extractTextFromCSV (fileUrl fileName : jsstring)
  : result (list DocumentChunk) :=
  response <- fetchFileContent fileUrl ;;
  let text := body_text response in
  records <- csv_parse text ;;
  Ok (mapi
        (fun record index =>
           let content :=
             join (lit ", ")
               (map (fun entry => fst entry ++ lit ": " ++ snd entry)
                  record) in
           mk_chunk content
             [ ("type"%string, MStr (lit "csv"));
               ("section"%string,
                MStr (lit "Row " ++ string_of_nat (index + 1)));
               ("row"%string, MNum (Z.of_nat index + 1));
               ("filename"%string, MStr fileName) ])
        records).

(** The rows of one sheet; empty rows are passed over and keep their
    index. *)
Fixpoint sheet_chunks (fileName sheetName : jsstring)
  (rows : list (list jsstring)) (index : nat) : list DocumentChunk :=
  match rows with
  | [] => []
  | row :: rest =>
      match row with
      | [] => sheet_chunks fileName sheetName rest (S index)
      | _ :: _ =>
          mk_chunk (join (lit ", ") row)
            [ ("type"%string, MStr (lit "xlsx"));
              ("section"%string,
               MStr (sheetName ++ lit " Row " ++ string_of_nat (index + 1)));
              ("sheet"%string, MStr sheetName);
              ("row"%string, MNum (Z.of_nat index + 1));
              ("filename"%string, MStr fileName) ]
          :: sheet_chunks fileName sheetName rest (S index)
      end
  end.

Definition extractTextFromXLSX (fileUrl fileName : jsstring)
  : result (list DocumentChunk) :=
  response <- fetchFileContent fileUrl ;;
  let arrayBuffer := body_arrayBuffer response in
  workbook <- XLSX_sheets arrayBuffer ;;
  Ok (flat_map
        (fun sheet => sheet_chunks fileName (fst sheet) (snd sheet) 0%nat)
        workbook).

Definition extractTextFromPPTX (fileUrl fileName : jsstring)
  : result (list DocumentChunk) :=
  Ok [ mk_chunk (lit "PowerPoint presentation: " ++ fileName)
         [ ("type"%string, MStr (lit "pptx"));
           ("section"%string, MStr (lit "Presentation"));
           ("filename"%string, MStr fileName) ] ].

Fixpoint notebook_chunks (fileName : jsstring)
  (cells : list notebook_cell) (index : nat) : list DocumentChunk :=
  match cells with
  | [] => []
  | cell :: rest =>
      let content :=
        match source cell with
        | SourceLines ((_ :: _) as lines) => Some (join [] lines)
        | SourceText ((_ :: _) as text) => Some text
        | _ => None
        end in
      match content with
      | Some content =>
          mk_chunk content
            [ ("type"%string, MStr (lit "notebook"));
              ("section"%string,
               MStr (lit "Cell " ++ string_of_nat (index + 1)));
              ("cellType"%string, MStr (cell_type cell));
              ("cell"%string, MNum (Z.of_nat index + 1));
              ("filename"%string, MStr fileName) ]
          :: notebook_chunks fileName rest (S index)
      | None => notebook_chunks fileName rest (S index)
      end
  end.

Definition extractTextFromNotebook (fileUrl fileName : jsstring)
  : result (list DocumentChunk) :=
  response <- fetchFileContent fileUrl ;;
  let text := body_text response in
  cells <- notebook_cells text ;;
  Ok (notebook_chunks fileName cells 0%nat).

Definition extractTextFromImage (fileUrl fileName : jsstring)
  : result (list DocumentChunk) :=
  Ok [ mk_chunk (lit "Image file: " ++ fileName)
         [ ("type"%string, MStr (lit "image"));
           ("section"%string, MStr (lit "Image Content"));
           ("filename"%string, MStr fileName) ] ].

Definition extractTextFromPlainText (fileUrl fileName : jsstring)
  : result (list DocumentChunk) :=
  response <- fetchFileContent fileUrl ;;
  let text := body_text response in
  let paragraphs := filter nonblank (split_double_newline text []) in
  Ok (mapi
        (fun paragraph index =>
           mk_chunk paragraph
             [ ("type"%string, MStr (lit "text"));
               ("section"%string,
                MStr (lit "Paragraph " ++ string_of_nat (index + 1)));
               ("filename"%string, MStr fileName) ])
        paragraphs).

(** The media types of the [switch]. *)
Definition type_pdf : jsstring := lit "application/pdf".
Definition type_docx : jsstring :=
  lit "application/vnd.openxmlformats-officedocument.wordprocessingml.document".
Definition type_html : jsstring := lit "text/html".
Definition type_csv : jsstring := lit "text/csv".
Definition type_xlsx : jsstring :=
  lit "application/vnd.openxmlformats-officedocument.spreadsheetml.sheet".
Definition type_pptx : jsstring :=
  lit "application/vnd.openxmlformats-officedocument.presentationml.presentation".
Definition type_ipynb : jsstring := lit "application/x-ipynb+json".
Definition type_jpeg : jsstring := lit "image/jpeg".
Definition type_png : jsstring := lit "image/png".

(** [fileUrl.split('/').pop() || 'document'] *)
Definition file_name (fileUrl : jsstring) : jsstring :=
  let name := last_segment fileUrl [] in
  if truthy name then name else lit "document".

Definition extraction_error (fileName : jsstring) (error : js_error)
  : js_error :=
  Error (lit "Failed to extract text from " ++ fileName ++ lit ": "
         ++ err_message error).

Definition extractTextFromFile (fileUrl fileType : jsstring)
  : result (list DocumentChunk) :=
  let fileName := file_name fileUrl in
  try_catch
    (if jsstring_eqb fileType type_pdf then
       extractTextFromPDF fileUrl fileName
     else if jsstring_eqb fileType type_docx then
       extractTextFromDOCX fileUrl fileName
     else if jsstring_eqb fileType type_html then
       extractTextFromHTML fileUrl fileName
     else if jsstring_eqb fileType type_csv then
       extractTextFromCSV fileUrl fileName
     else if jsstring_eqb fileType type_xlsx then
       extractTextFromXLSX fileUrl fileName
     else if jsstring_eqb fileType type_pptx then
       extractTextFromPPTX fileUrl fileName
     else if jsstring_eqb fileType type_ipynb then
       extractTextFromNotebook fileUrl fileName
     else if jsstring_eqb fileType type_jpeg
             || jsstring_eqb fileType type_png then
       extractTextFromImage fileUrl fileName
     else extractTextFromPlainText fileUrl fileName)
    (fun error => Throw (extraction_error fileName error)).

End Extractors.


(** The lengths of the chunks of a finished run. *)
Definition chunk_lengths (r : option (list DocumentChunk))
  : option (list nat) :=
  option_map (map (fun c => length (content c))) r.

(** What the list [ws] of windows emitted from offset [start] looks like
    in the sliding-window reading: window [k] is the slice of [maxLength]
    code units at [start + k * (maxLength - overlap)], every window but
    the last is followed by more text, the last one reaches the end. *)
Definition windows_from (text : jsstring) (maxLength overlap : Z)
  (start : Z) (ws : list jsstring) : Prop :=
  let len := Z.of_nat (length text) in
  (start < len -> ws <> []) /\
  forall k w, nth_error ws k = Some w ->
    let s := start + Z.of_nat k * (maxLength - overlap) in
    w = js_slice text s (s + maxLength) /\
    s < len /\
    ((S k < length ws)%nat -> s + maxLength < len) /\
    ((S k = length ws)%nat -> len <= s + maxLength).

End DocumentProcessor.

(** ** Rows shared by the datastore, the retrieval engine and the chat route *)

(** A row as [search_documents] and [searchSimilarDocuments] return it; the
    [jsonb] metadata is kept as its text. *)
Record search_row : Type := mk_search_row {
  sr_id : jsstring;
  sr_document_id : jsstring;
  sr_content : jsstring;
  sr_metadata : jsstring;
  sr_similarity : Q
}.

(** Equality of two result rows on all five columns. *)
Definition search_row_eqb (a b : search_row) : bool :=
  jsstring_eqb (sr_id a) (sr_id b)
  && jsstring_eqb (sr_document_id a) (sr_document_id b)
  && jsstring_eqb (sr_content a) (sr_content b)
  && jsstring_eqb (sr_metadata a) (sr_metadata b)
  && Qeq_bool (sr_similarity a) (sr_similarity b).

(** Insertion sort; [after x y] says that [x] has to come strictly after
    [y].  Rows that tie keep the order they had. *)
Fixpoint insert_sorted {A : Type} (after : A -> A -> bool) (x : A)
  (l : list A) : list A :=
  match l with
  | [] => [x]
  | y :: l' => if after x y then y :: insert_sorted after x l'
               else x :: y :: l'
  end.

Definition sort_by {A : Type} (after : A -> A -> bool) (l : list A) : list A :=
  fold_right (insert_sorted after) [] l.

(** The rows of [rows] that are [same] neither as a row of [seen] nor as an
    earlier row of [rows]: duplicates dropped, first occurrences kept.
    [seen] collects the rows gone through. *)
Fixpoint distinct_by {A : Type} (same : A -> A -> bool) (seen rows : list A)
  : list A :=
  match rows with
  | [] => []
  | r :: rows' =>
      if existsb (same r) seen then distinct_by same (seen ++ [r]) rows'
      else r :: distinct_by same (seen ++ [r]) rows'
  end.

(** ** The [search_documents] SQL function (hybrid search) *)

Module Sql.

(** Where SQL leaves the order of rows open (rows with the same sort key,
    a [limit] without [order by], the rows of a [union]) the functions
    below take the rows in the order of the tables.  The theorems on them
    are stated so as not to depend on that choice: they say which rows a
    result holds and how it is sorted, not which of several rows with the
    same key comes first or is kept. *)

(** ['%' || keyword_query || '%'] *)
Definition contains_pattern (keyword_query : jsstring) : jsstring :=
  [37%N] ++ keyword_query ++ [37%N].

Section SearchDocuments.

(** The [vector] column type and the pgvector cosine-distance
    operator [<=>] belong to the database.  A distance is a number here:
    an embedding whose distance to the query is [NaN] (a vector of
    zeros) is outside the model. *)
Variable vector : Type.
Variable cosine_distance : vector -> vector -> Q.

(** [content ilike pattern] is the database's operator too; how it folds
    the case of letters depends on the locale of the database. *)
Variable ilike : jsstring -> jsstring -> bool.

Record document : Type := mk_document {
  d_id : jsstring;
  d_user_id : jsstring;
  d_created_at : Z
}.

Record document_embedding : Type := mk_document_embedding {
  de_id : jsstring;
  de_document_id : jsstring;
  de_content : jsstring;
  de_metadata : jsstring;
  de_embedding : vector
}.

Record tables : Type := mk_tables {
  documents : list document;
  document_embeddings : list document_embedding
}.

(** [document_embeddings de join documents d on d.id = de.document_id],
    rows in table order. *)
Definition joined (db : tables) : list (document_embedding * document) :=
  flat_map
    (fun de =>
       map (fun d => (de, d))
         (filter (fun d => jsstring_eqb (d_id d) (de_document_id de))
            (documents db)))
    (document_embeddings db).

Definition owned_by (user_id : jsstring)
  (row : document_embedding * document) : bool :=
  jsstring_eqb (d_user_id (snd row)) user_id.

Definition vector_similarity (query_embedding : vector)
  (row : document_embedding * document) : Q :=
  1 - cosine_distance (de_embedding (fst row)) query_embedding.

Definition select_row (similarity : Q)
  (row : document_embedding * document) : search_row :=
  let de := fst row in
  mk_search_row (de_id de) (de_document_id de) (de_content de)
    (de_metadata de) similarity.

(** The [vector_search] common table expression. *)
Definition vector_search (db : tables) (query_embedding : vector)
  (user_id : jsstring) (match_threshold : Q) (match_count : nat)
  : list search_row :=
  let matching :=
    filter
      (fun row =>
         owned_by user_id row
         && negb (Qle_bool (vector_similarity query_embedding row)
                    match_threshold))
      (joined db) in
  let ordered :=
    sort_by
      (fun x y =>
         negb (Qle_bool
                 (cosine_distance (de_embedding (fst x)) query_embedding)
                 (cosine_distance (de_embedding (fst y)) query_embedding)))
      matching in
  map (fun row => select_row (vector_similarity query_embedding row) row)
    (firstn match_count ordered).

(** The [keyword_search] common table expression; [None] is a [null]
    keyword. *)
Definition keyword_search (db : tables) (user_id : jsstring)
  (match_count : nat) (keyword_query : option jsstring)
  : list search_row :=
  let matching :=
    filter
      (fun row =>
         owned_by user_id row
         && match keyword_query with
            | None => false
            | Some kw =>
                negb (jsstring_eqb kw [])
                && ilike (de_content (fst row)) (contains_pattern kw)
            end)
      (joined db) in
  map (select_row (7 # 10)) (firstn match_count matching).

(** [a union b]: the rows of both, a row that equals an earlier one on
    every column dropped. *)
Definition sql_union (a b : list search_row) : list search_row :=
  distinct_by search_row_eqb [] (a ++ b).

(** [order by similarity desc] *)
Definition by_similarity_desc (x y : search_row) : bool :=
  negb (Qle_bool (sr_similarity y) (sr_similarity x)).

Definition search_documents (db : tables) (query_embedding : vector)
  (user_id : jsstring) (match_threshold : Q) (match_count : nat)
  (keyword_query : option jsstring) : list search_row :=
  let combined_results :=
    sql_union
      (vector_search db query_embedding user_id match_threshold match_count)
      (keyword_search db user_id match_count keyword_query) in
  firstn match_count (sort_by by_similarity_desc combined_results).

End SearchDocuments.

Arguments mk_tables {vector}.
Arguments documents {vector}.
Arguments document_embeddings {vector}.
Arguments mk_document_embedding {vector}.
Arguments de_id {vector}.
Arguments de_document_id {vector}.
Arguments de_content {vector}.
Arguments de_metadata {vector}.
Arguments de_embedding {vector}.
Arguments joined {vector}.
Arguments owned_by {vector}.

End Sql.

(** ** The retry policy of lib/embeddings.ts and lib/gemini.ts

    Both files carry the same [retryWithBackoff]; they differ in where the
    status is read: [error.httpResponse?.status] in lib/embeddings.ts,
    [error.status] in lib/gemini.ts.  The wrapped call [fn] is given by the
    outcome of its [i]-th invocation, [random i] is the value that
    [Math.random()] returns in turn [i]. *)

Inductive retry_event : Type :=
| Called (attempt : nat)
| Slept (delay : Q).

Section RetryPolicy.

Variable status_of : js_error -> option Z.

Definition retryable (error : js_error) : bool :=
  match status_of error with
  | Some status => (status =? 503) || (status =? 429) || (status =? 500)
  | None => false
  end.

Context {T : Type}.
Variable fn : nat -> result T.
Variable random : nat -> Q.
Variable maxRetries : nat.
Variable baseDelay : Q.

Definition backoff_delay (i : nat) : Q :=
  (baseDelay * inject_Z (2 ^ Z.of_nat i) + random i * 1000)%Q.

(** The [for] loop at counter [i], with [remaining] turns left; the trace
    records every invocation of [fn] and every wait. *)
Fixpoint retry_loop (remaining i : nat) (trace : list retry_event)
  : result T * list retry_event :=
  match remaining with
  | O => (Throw (Error (lit "Max retries exceeded")), trace)
  | S remaining' =>
      match fn i with
      | Ok value => (Ok value, trace ++ [Called i])
      | Throw error =>
          if Z.of_nat i =? Z.of_nat maxRetries - 1 then
            (Throw error, trace ++ [Called i])
          else if retryable error then
            retry_loop remaining' (S i)
              (trace ++ [Called i; Slept (backoff_delay i)])
          else (Throw error, trace ++ [Called i])
      end
  end.

Definition retry_with_backoff : result T * list retry_event :=
  retry_loop maxRetries 0%nat [].

End RetryPolicy.

(** The invocations of the wrapped call in a trace. *)
Definition calls (trace : list retry_event) : list nat :=
  flat_map (fun ev => match ev with Called i => [i] | Slept _ => [] end) trace.

(** The bounded retry policy, read off a run of [retry_with_backoff] with
    three attempts and a base delay of 1000 ms. *)
Definition bounded_retry_policy {T : Type} (status_of : js_error -> option Z)
  (fn : nat -> result T) (random : nat -> Q)
  (run : result T * list retry_event) : Prop :=
  let outcome := fst run in
  let trace := snd run in
  let attempts := length (calls trace) in
  (* the call is invoked, at most three times, numbered in order *)
  (1 <= attempts <= 3)%nat /\
  calls trace = seq 0 attempts /\
  (* every invocation but the last is followed by its backoff wait, and
     nothing else happens: no wait comes after the last invocation *)
  trace
  = flat_map
      (fun i =>
         [Called i;
          Slept (1000 * inject_Z (2 ^ Z.of_nat i) + random i * 1000)%Q])
      (seq 0 (attempts - 1))
    ++ [Called (attempts - 1)%nat] /\
  (* the caller gets the outcome of the last invocation *)
  outcome = fn (attempts - 1)%nat /\
  (* a retryable error of the first or the second attempt is retried *)
  (forall i error, (i < 2)%nat -> In (Called i) trace ->
     fn i = Throw error -> retryable status_of error = true ->
     In (Called (S i)) trace) /\
  (* a value is returned as soon as an invocation gives one *)
  (forall i value, In (Called i) trace -> fn i = Ok value ->
     outcome = Ok value /\ exists before, trace = before ++ [Called i]) /\
  (* a retry follows a retryable status only, after the backoff wait *)
  (forall i, In (Called (S i)) trace ->
     exists error,
       fn i = Throw error /\ retryable status_of error = true /\
       exists before after,
         trace = before
                 ++ [Called i;
                     Slept (1000 * inject_Z (2 ^ Z.of_nat i) + random i * 1000)%Q;
                     Called (S i)]
                 ++ after) /\
  (* any other error is propagated at once *)
  (forall i error, In (Called i) trace -> fn i = Throw error ->
     retryable status_of error = false ->
     outcome = Throw error /\ exists before, trace = before ++ [Called i]) /\
  (* an error of the third attempt is propagated, retryable or not *)
  (forall error, In (Called 2%nat) trace -> fn 2%nat = Throw error ->
     outcome = Throw error /\ exists before, trace = before ++ [Called 2%nat]).

(** ** lib/embeddings.ts *)

Module Embeddings.

Definition retryWithBackoff {T : Type} (fn : nat -> result T)
  (random : nat -> Q) (maxRetries : nat) (baseDelay : Q)
  : result T * list retry_event :=
  retry_with_backoff err_httpResponse_status fn random maxRetries baseDelay.

Definition default_maxRetries : nat := 3.
Definition default_baseDelay : Q := 1000.

(** [embedding[index] += x]; the indices the source computes are below
    the length of the array. *)
Fixpoint add_at {A : Type} (add : A -> A -> A) (index : nat) (x : A)
  (embedding : list A) : list A :=
  match embedding, index with
  | [], _ => []
  | y :: rest, O => add y x :: rest
  | y :: rest, S index' => y :: add_at add index' x rest
  end.

(** The outcome of a datastore request: it returns [{ data, error }] with
    one of the two set, or the client throws. *)
Inductive reply (A : Type) : Type :=
| Data (data : A)
| DbError (error : js_error).
Arguments Data {A} data.
Arguments DbError {A} error.

(** How a request to the datastore ends. *)
Inductive health : Type :=
| Healthy
| ReturnsError (error : js_error)
| Throws (error : js_error).

Definition throws (h : health) : bool :=
  match h with
  | Throws _ => true
  | _ => false
  end.

Definition request {A : Type} (h : health) (rows : A) : result (reply A) :=
  match h with
  | Healthy => Ok (Data rows)
  | ReturnsError e => Ok (DbError e)
  | Throws e => Throw e
  end.

Section Numbers.

(** The arithmetic of JavaScript numbers is a parameter: the
    definitions below use the operations exactly where the source
    does, whatever they round to. *)
Variable number : Type.
Variable zero : number.
Variables add mul div : number -> number -> number.
Variables Math_sqrt Math_sin : number -> number.
Variable of_N : N -> number.
(** The literals [0.1] and [0.5]. *)
Variables tenth half : number.
(** [x > y] *)
Variable gt : number -> number -> bool.

(** The contribution [Math.sin(char * 0.1) * 0.5] of a code unit. *)
Definition contribution (char : N) : number :=
  mul (Math_sin (mul (of_N char) tenth)) half.

(** The first [for] loop, at position [i] of the text. *)
Fixpoint accumulate (text : jsstring) (i : nat) (embedding : list number)
  : list number :=
  match text with
  | [] => embedding
  | char :: rest =>
      let index := ((char + N.of_nat i) mod 384)%N in
      accumulate rest (S i)
        (add_at add (N.to_nat index) (contribution char) embedding)
  end.

(** [Math.sqrt(embedding.reduce((sum, val) => sum + val * val, 0))] *)
Definition magnitude_of (embedding : list number) : number :=
  Math_sqrt
    (fold_left (fun sum val => add sum (mul val val)) embedding zero).

Definition generateDeterministicEmbedding (text : jsstring)
  : list number :=
  let embedding := accumulate text 0%nat (repeat zero 384) in
  let magnitude := magnitude_of embedding in
  if gt magnitude zero then map (fun x => div x magnitude) embedding
  else embedding.

(** *** The reference definition of the fallback embedding

    Component [j] of the accumulated vector is the sum, in text order
    and from zero, of [sin(c * 0.1) * 0.5] over the positions [i] whose
    code unit [c] has [(c + i) mod 384 = j]; the vector is divided by
    its Euclidean norm, and is the zero vector when the norm is 0. *)
Variable number_eq_dec : forall x y : number, {x = y} + {x <> y}.

Fixpoint reference_component (j : nat) (text : jsstring) (i : nat)
  (acc : number) : number :=
  match text with
  | [] => acc
  | c :: rest =>
      reference_component j rest (S i)
        (if Nat.eqb (N.to_nat ((c + N.of_nat i) mod 384)) j
         then add acc (contribution c) else acc)
  end.

Definition reference_accumulated (text : jsstring) : list number :=
  map (fun j => reference_component j text 0%nat zero) (seq 0 384).

Definition euclidean_norm (v : list number) : number :=
  Math_sqrt (fold_left (fun s x => add s (mul x x)) v zero).

Definition embedding_reference (text : jsstring) : list number :=
  let v := reference_accumulated text in
  let norm := euclidean_norm v in
  if number_eq_dec norm zero then repeat zero 384
  else map (fun x => div x norm) v.

(** *** [generateEmbedding] *)

(** What [hf.featureExtraction] resolves to: an array of numbers, or
    an array of such arrays. *)
Inductive hf_response : Type :=
| HfFlat (v : list number)
| HfNested (vs : list (list number)).

Variable featureExtraction : jsstring -> nat -> result hf_response.
Variable random : nat -> Q.

Definition generateEmbedding (text : jsstring)
  : result (list number * jsstring) :=
  try_catch
    (response <- fst (retryWithBackoff (featureExtraction text) random
                        default_maxRetries default_baseDelay) ;;
     let embedding :=
       match response with
       | HfNested (first :: _) => first
       | HfNested [] => []
       | HfFlat v => v
       end in
     match embedding with
     | [] => Throw (Error (lit "Invalid embedding response from Hugging Face"))
     | _ :: _ => Ok (embedding, lit "huggingface")
     end)
    (fun _ => Ok (generateDeterministicEmbedding text, lit "fallback")).

(** *** [searchSimilarDocuments] *)

Variable cosine_distance : list number -> list number -> Q.
Variable ilike : jsstring -> jsstring -> bool.

(** The datastore: its two tables and how each of the three requests
    of [searchSimilarDocuments] ends. *)
Record supabase : Type := mk_supabase {
  db : Sql.tables (list number);
  check_health : health;
  rpc_health : health;
  recent_health : health
}.

Definition stored_row : Type :=
  (Sql.document_embedding (list number) * Sql.document)%type.

(** [.eq("documents.user_id", userId)] on the inner join. *)
Definition rows_of_user (s : supabase) (userId : jsstring)
  : list stored_row :=
  filter (Sql.owned_by userId) (Sql.joined (db s)).

(** [.order("documents.created_at", { ascending: false })] *)
Definition most_recent_first (rows : list stored_row) : list stored_row :=
  sort_by
    (fun x y => Sql.d_created_at (snd x) <? Sql.d_created_at (snd y))
    rows.

(** The row a fallback returns, with the mock similarity [0.5]. *)
Definition mock_row (embedding : stored_row) : search_row :=
  mk_search_row (Sql.de_id (fst embedding))
    (Sql.de_document_id (fst embedding))
    (Sql.de_content (fst embedding))
    (Sql.de_metadata (fst embedding)) (1 # 2).

Definition searchSimilarDocuments (s : supabase) (query userId : jsstring)
  (limit : nat) (keyword : option jsstring) : result (list search_row) :=
  try_catch
    (queryEmbedding <- generateEmbedding query ;;
     check <- request (check_health s)
                (firstn 5 (rows_of_user s userId)) ;;
     let userEmbeddings :=
       match check with
       | Data rows => Some rows
       | DbError _ => None
       end in
     rpc <- request (rpc_health s)
              (Sql.search_documents (list number) cosine_distance ilike
                 (db s) (fst queryEmbedding) userId 0 limit keyword) ;;
     match rpc with
     | DbError _ =>
         Ok (match userEmbeddings with
             | Some rows => map mock_row rows
             | None => []
             end)
     | Data data =>
         match data, userEmbeddings with
         | [], Some ((_ :: _) as rows) => Ok (map mock_row rows)
         | _, _ => Ok data
         end
     end)
    (fun _ =>
       recent <- request (recent_health s)
                   (firstn limit
                      (most_recent_first (rows_of_user s userId))) ;;
       match recent with
       | DbError _ => Ok []
       | Data recentEmbeddings => Ok (map mock_row recentEmbeddings)
       end).

End Numbers.

End Embeddings.

(** Real numbers as numbers: the exact arithmetic that JavaScript's
    numbers round. *)
Module RealNumbers.

Definition real_of_N (n : N) : R := IZR (Z.of_N n).

Definition real_gt (x y : R) : bool :=
  if Rlt_dec y x then true else false.

End RealNumbers.

(** ** lib/gemini.ts *)

Module Gemini.

Definition retryWithBackoff {T : Type} (fn : nat -> result T)
  (random : nat -> Q) (maxRetries : nat) (baseDelay : Q)
  : result T * list retry_event :=
  retry_with_backoff err_status fn random maxRetries baseDelay.

Definition default_maxRetries : nat := 3.
Definition default_baseDelay : Q := 1000.

Inductive role : Type := user | assistant.

Definition role_name (r : role) : jsstring :=
  match r with user => lit "user" | assistant => lit "assistant" end.

Record context_chunk : Type := mk_context_chunk {
  cc_content : jsstring;
  cc_metadata : jsstring;
  cc_similarity : Q
}.

Record history_message : Type := mk_history_message {
  hm_role : role;
  hm_content : jsstring
}.

Record ChatContext : Type := mk_ChatContext {
  documentChunks : list context_chunk;
  conversationHistory : list history_message
}.

Definition chat_prompt (message : jsstring) (context : ChatContext)
  : jsstring :=
  let documentContext :=
    join (newline ++ newline)
      (map (fun chunk => lit "Document: " ++ cc_content chunk)
         (documentChunks context)) in
  let conversationHistory :=
    join newline
      (map (fun msg => role_name (hm_role msg) ++ lit ": " ++ hm_content msg)
         (conversationHistory context)) in
  lit "
You are a knowledgeable teacher. You will analyze and answer questions about the uploaded documents, and also draw upon your internal knowledge to relate to the topic. Your goal is to help the user gain a comprehensive understanding of their queries. 

- Provide well-explained, formal bullet points in your answers.
- Add examples wherever you feel necessary to clarify concepts.
- Always approach the question from multiple perspectives to ensure a thorough explanation.
- Use clear, structured, and educational language to guide the user.
- Reference both the provided documents and relevant general knowledge to enrich your response.

RELEVANT DOCUMENT CONTEXT:
" ++ documentContext ++ lit "

CONVERSATION HISTORY:
" ++ conversationHistory ++ lit "

USER QUESTION: " ++ message ++ lit "

Please provide a comprehensive answer based on the document context. If the question cannot be answered from the provided documents, clearly state that and explain what information is missing.

Guidelines:
- Always cite which documents or sections you're referencing
- Be specific and accurate 
- If you're unsure about something, say so
- Provide relevant quotes when helpful
- Keep your response clear and well-structured

Answer:
".

(** The canned replies of the [catch] block of [generateChatResponse]. *)
Definition reply_overloaded : jsstring :=
  lit "I'm sorry, but the AI service is currently experiencing high traffic. Please try again in a few moments. In the meantime, I can see you're asking about your documents - could you try rephrasing your question or asking about a specific aspect?".
Definition reply_rate_limited : jsstring :=
  lit "I'm receiving too many requests right now. Please wait a moment and try again.".
Definition reply_bad_request : jsstring :=
  lit "I encountered an issue processing your request. Could you please rephrase your question or make it more specific?".
Definition reply_generic : jsstring :=
  lit "I'm experiencing technical difficulties right now. Please try again in a few minutes. If the problem persists, the AI service might be temporarily unavailable.".

Definition status_is (error : js_error) (code : Z) : bool :=
  match err_status error with
  | Some status => status =? code
  | None => false
  end.

Definition chat_fallback (error : js_error) : jsstring :=
  if status_is error 503 then reply_overloaded
  else if status_is error 429 then reply_rate_limited
  else if status_is error 400 then reply_bad_request
  else reply_generic.

(** A value that [JSON.parse] returns. *)
#[warnings="-register-all"]
Inductive json : Type :=
| JNull
| JBool (b : bool)
| JNumber (n : Q)
| JString (s : jsstring)
| JArray (items : list json)
| JObject (fields : list (jsstring * json)).

Section Model.

(** The generative model: [generateContent prompt i] is the outcome of
    the [i]-th call of [model.generateContent(prompt)]; a call that
    returns gives the outcome of [response.text()], which may throw
    too. *)
Variable generateContent : jsstring -> nat -> result (result jsstring).
Variable random : nat -> Q.

Definition generateChatResponse (message : jsstring)
  (context : ChatContext) : result jsstring :=
  try_catch
    (let prompt := chat_prompt message context in
     result <- fst (retryWithBackoff (generateContent prompt) random
                      default_maxRetries default_baseDelay) ;;
     text <- result ;;
     Ok text)
    (fun error => Ok (chat_fallback error)).

(** *** [decomposeQuery] *)

(** [JSON.parse] is the runtime's; it throws on text that is not
    JSON. *)
Variable JSON_parse : jsstring -> result json.

(** [s.replace(/^```json\n|\n```$/g, '')]: the fence that opens the
    string and the fence that closes what is left are removed. *)
Definition strip_code_fence (s : jsstring) : jsstring :=
  let opening := backtick ++ backtick ++ backtick ++ lit "json" ++ newline in
  let closing := newline ++ backtick ++ backtick ++ backtick in
  let s1 := match strip_prefix opening s with
            | Some rest => rest
            | None => s
            end in
  match strip_prefix (rev closing) (rev s1) with
  | Some rest => rev rest
  | None => s1
  end.

Definition decompose_prompt (query : jsstring) : jsstring :=
  lit "
Given the following user query, decompose it into a list of simpler, atomic sub-queries or rephrase it from different relevant perspectives. The goal is to ensure comprehensive retrieval of information.

Return the decomposed queries as a JSON array of strings. Do NOT include any other text or formatting.

Example:
User Query: " ++ dquote ++ lit "What are the key findings and methodologies of the latest research on climate change?" ++ dquote ++ lit "
Decomposed Queries: [
  " ++ dquote ++ lit "key findings of the latest research on climate change" ++ dquote ++ lit ",
  " ++ dquote ++ lit "methodologies used in the latest research on climate change" ++ dquote ++ lit ",
  " ++ dquote ++ lit "recent advancements in climate change research" ++ dquote ++ lit "
]

User Query: " ++ dquote ++ query ++ dquote ++ lit "
Decomposed Queries:
".

(** The inner [try]/[catch] around [JSON.parse]: the parsed array, or
    [[query]] when parsing throws or the value is not an array. *)
Definition parse_queries (query cleanedResponseText : jsstring)
  : list json :=
  match JSON_parse cleanedResponseText with
  | Ok (JArray items) => items
  | Ok _ => [JString query]
  | Throw _ => [JString query]
  end.

Definition decomposeQuery (query : jsstring) : result (list json) :=
  try_catch
    (let prompt := decompose_prompt query in
     result <- fst (retryWithBackoff (generateContent prompt) random
                      default_maxRetries default_baseDelay) ;;
     text <- result ;;
     let responseText := trim text in
     let cleanedResponseText := trim (strip_code_fence responseText) in
     let decomposedQueries := parse_queries query cleanedResponseText in
     let decomposedQueries :=
       match decomposedQueries with
       | [] => decomposedQueries ++ [JString query]
       | _ :: _ => decomposedQueries
       end in
     Ok decomposedQueries)
    (fun _ => Ok [JString query]).

End Model.

End Gemini.

(** ** app/api/chat/route.ts: retrieval for the decomposed queries *)

Module ChatRoute.

(** [Array.prototype.findIndex]: the first index whose element passes,
    [-1] when there is none. *)
Fixpoint findIndex_from {A : Type} (p : A -> bool) (i : nat) (l : list A)
  : Z :=
  match l with
  | [] => -1
  | x :: l' => if p x then Z.of_nat i else findIndex_from p (S i) l'
  end.

Definition findIndex {A : Type} (p : A -> bool) (l : list A) : Z :=
  findIndex_from p 0%nat l.

(** [self.filter((x, index, self) => keep x index self)] from index [i]. *)
Fixpoint filter_from {A : Type} (keep : A -> nat -> list A -> bool)
  (self : list A) (i : nat) (l : list A) : list A :=
  match l with
  | [] => []
  | x :: l' =>
      if keep x i self then x :: filter_from keep self (S i) l'
      else filter_from keep self (S i) l'
  end.

Definition js_filter {A : Type} (keep : A -> nat -> list A -> bool)
  (self : list A) : list A :=
  filter_from keep self 0%nat self.

(** [d.document_id === doc.document_id && d.content === doc.content] *)
Definition same_chunk (doc d : search_row) : bool :=
  jsstring_eqb (sr_document_id d) (sr_document_id doc)
  && jsstring_eqb (sr_content d) (sr_content doc).

(** Remove duplicates based on [document_id] and [content]. *)
Definition remove_duplicates (relevantDocuments : list search_row)
  : list search_row :=
  js_filter
    (fun doc index self =>
       Z.of_nat index =? findIndex (same_chunk doc) self)
    relevantDocuments.

(** The pair the duplicates are found by. *)
Definition chunk_key (d : search_row) : jsstring * jsstring :=
  (sr_document_id d, sr_content d).

Section Retrieval.

Variable decomposeQuery : jsstring -> result (list Gemini.json).
(** [searchSimilarDocuments(query, user.id, 5)] *)
Variable searchSimilarDocuments :
  Gemini.json -> nat -> result (list search_row).

(** The [for ... of] loop: the documents pushed so far, and the
    exception that ended the loop early, if any. *)
Fixpoint search_each (queries : list Gemini.json)
  (relevantDocuments : list search_row)
  : list search_row * option js_error :=
  match queries with
  | [] => (relevantDocuments, None)
  | query :: rest =>
      match searchSimilarDocuments query 5%nat with
      | Ok docs => search_each rest (relevantDocuments ++ docs)
      | Throw e => (relevantDocuments, Some e)
      end
  end.

(** The [try] block of [POST] that fills [relevantDocuments] and
    [decomposedQueries]; an exception leaves both as they stand. *)
Definition retrieve (message : jsstring)
  : list search_row * list Gemini.json :=
  match decomposeQuery message with
  | Throw _ => ([], [])
  | Ok decomposedQueries =>
      match search_each decomposedQueries [] with
      | (relevantDocuments, None) =>
          (remove_duplicates relevantDocuments, decomposedQueries)
      | (relevantDocuments, Some _) =>
          (relevantDocuments, decomposedQueries)
      end
  end.

End Retrieval.

End ChatRoute.

(** ** Notions used to state the properties of Part III *)

(** A result row shows the columns of a stored chunk. *)
Definition shows {vector : Type} (r : search_row)
  (row : Sql.document_embedding vector * Sql.document) : Prop :=
  sr_id r = Sql.de_id (fst row) /\
  sr_document_id r = Sql.de_document_id (fst row) /\
  sr_content r = Sql.de_content (fst row) /\
  sr_metadata r = Sql.de_metadata (fst row).

(** ** Sample data for the concrete runs of Part II *)

Module Samples.

(** One user, one document, one stored chunk; every cosine distance is
    0.1, so the chunk's vector similarity is 0.9. *)
Definition one_chunk : Sql.tables unit :=
  Sql.mk_tables
    [Sql.mk_document (lit "d1") (lit "u1") 100]
    [Sql.mk_document_embedding (lit "e1") (lit "d1") (lit "Alpha beta")
       (lit "{}") tt].

Definition distance_tenth (a b : unit) : Q := 1 # 10.

(** What the database answers on the sample:
    ['Alpha beta' ilike '%alpha%'] holds; nothing else is asked. *)
Definition ilike_alpha (content pattern : jsstring) : bool :=
  jsstring_eqb content (lit "Alpha beta")
  && jsstring_eqb pattern (lit "%alpha%").

Definition chunk_e1 (similarity : Q) : search_row :=
  mk_search_row (lit "e1") (lit "d1") (lit "Alpha beta") (lit "{}")
    similarity.

(** Two sub-queries whose results share the chunk ["alpha"] of document
    [d1], found with different scores. *)
Definition row_alpha (similarity : Q) : search_row :=
  mk_search_row (lit "e1") (lit "d1") (lit "alpha") (lit "{}") similarity.

Definition row_beta : search_row :=
  mk_search_row (lit "e2") (lit "d1") (lit "beta") (lit "{}") (1 # 2).

Definition two_queries : list Gemini.json :=
  [Gemini.JString (lit "q1"); Gemini.JString (lit "q2")].

Definition decompose_two (message : jsstring)
  : result (list Gemini.json) :=
  Ok two_queries.

Definition search_two (query : Gemini.json) (limit : nat)
  : result (list search_row) :=
  match query with
  | Gemini.JString q =>
      if jsstring_eqb q (lit "q1") then Ok [row_alpha (9 # 10); row_beta]
      else Ok [row_alpha (1 # 2)]
  | _ => Ok []
  end.

(** A download that succeeds, a parser that rejects the bytes, and one
    that finds no text. *)
Definition fetch_ok (fileUrl : jsstring)
  : result DocumentProcessor.Response :=
  Ok (DocumentProcessor.mk_Response true (lit "OK") [] [80%N; 75%N]).

Definition mammoth_corrupt (arrayBuffer : list N) : result jsstring :=
  Throw (Error (lit "Can't find end of central directory : is this a zip file ?")).

Definition mammoth_empty (arrayBuffer : list N) : result jsstring := Ok [].

Definition no_records (text : jsstring)
  : result (list (list (jsstring * jsstring))) := Ok [].

Definition no_sheets (arrayBuffer : list N)
  : result (list (jsstring * list (list jsstring))) := Ok [].

Definition no_cells (text : jsstring)
  : result (list DocumentProcessor.notebook_cell) := Ok [].

(** Six chunks of user [u1], one per document, stored oldest first.
    Numbers are integers here; the embedding provider is down. *)
Definition six_chunks : Sql.tables (list Z) :=
  Sql.mk_tables
    (map (fun k => Sql.mk_document (lit "d" ++ string_of_nat k) (lit "u1")
                     (Z.of_nat k))
       (seq 1 6))
    (map (fun k => Sql.mk_document_embedding (lit "e" ++ string_of_nat k)
                     (lit "d" ++ string_of_nat k) (lit "text") (lit "{}") [])
       (seq 1 6)).

Definition provider_down (text : jsstring) (attempt : nat)
  : result (Embeddings.hf_response Z) :=
  Throw (mk_error (lit "Service Unavailable") None (Some 503)).

(** [searchSimilarDocuments(query, "u1", 2)] with the given endings of
    the existence check and of the RPC. *)
Definition search_with (check rpc : Embeddings.health)
  : result (list search_row) :=
  Embeddings.searchSimilarDocuments Z 0 Z.add Z.mul Z.div Z.sqrt
    (fun x => x) Z.of_N 0 0 Z.gtb provider_down (fun _ => 0%Q)
    (fun _ _ => 0%Q) ilike_alpha
    (Embeddings.mk_supabase Z six_chunks check rpc Embeddings.Healthy)
    (lit "what is new") (lit "u1") 2 None.

End Samples.

(** ** JavaScript string functions used by the code below *)

(** [s.split(sep)] for a separator of one code unit. *)
Fixpoint split_on (sep : N) (s cur : jsstring) : list jsstring :=
  match s with
  | [] => [rev cur]
  | c :: rest =>
      if N.eqb c sep then rev cur :: split_on sep rest []
      else split_on sep rest (c :: cur)
  end.

(** [s.includes(word)] *)
Fixpoint includes (s word : jsstring) : bool :=
  match strip_prefix word s with
  | Some _ => true
  | None =>
      match s with
      | [] => false
      | _ :: s' => includes s' word
      end
  end.

(** [s.replace(pattern, '')] for a string pattern that is not empty: its
    first occurrence is taken out. *)
Fixpoint remove_first (pattern s : jsstring) : jsstring :=
  match strip_prefix pattern s with
  | Some rest => rest
  | None =>
      match s with
      | [] => []
      | c :: s' => c :: remove_first pattern s'
      end
  end.

(** ** lib/gemini.ts: the summary and the tags of a document *)

Module GeminiDocuments.

Import DocumentProcessor.

Definition summary_prompt (documentContent : jsstring) : jsstring :=
  lit "
Please analyze the following document and provide a comprehensive summary.

DOCUMENT CONTENT:
" ++ documentContent ++ lit "

Please provide:
1. A brief executive summary (2-3 sentences)
2. Key topics covered
3. Main insights or findings
4. Important data points or statistics mentioned
5. Any notable conclusions or recommendations

Summary:
".

(** [documentChunks.reduce((total, chunk) =>
      total + chunk.content.split(' ').length, 0)] *)
Definition wordCount (documentChunks : list DocumentChunk) : nat :=
  fold_left
    (fun total chunk =>
       (total + length (split_on 32 (content chunk) []))%nat)
    documentChunks 0%nat.

Definition fallback_summary (documentChunks : list DocumentChunk)
  : jsstring :=
  lit "Document Summary (Auto-generated due to service unavailability):"
  ++ newline ++ lit "    " ++ newline
  ++ lit "This document contains approximately "
  ++ string_of_nat (wordCount documentChunks)
  ++ lit " words across " ++ string_of_nat (length documentChunks)
  ++ lit " sections. " ++ newline ++ newline
  ++ lit "Key topics appear to include the main themes and concepts discussed in the uploaded content. For a detailed analysis, please try again when the AI service is available, or ask specific questions about particular sections of your document."
  ++ newline ++ newline
  ++ lit "Note: This is a fallback summary due to temporary service unavailability.".

Definition tags_prompt (documentContent : jsstring) : jsstring :=
  lit "
Analyze the following document content and generate relevant tags.

DOCUMENT CONTENT:
" ++ documentContent ++ lit "

Generate 5-10 relevant tags that describe the main topics, themes, or categories of this document.
Return only the tags as a comma-separated list, nothing else.

Tags:
".

Definition fallbackTags : list jsstring :=
  [lit "document"; lit "analysis"; lit "content"].

Definition commonWords : list jsstring :=
  [ lit "research"; lit "report"; lit "analysis"; lit "data"; lit "study";
    lit "business"; lit "technical"; lit "guide"; lit "manual";
    lit "presentation" ].

Section Model.

(** The generative model, as in [generateChatResponse], and
    [String.prototype.toLowerCase], which is the runtime's. *)
Variable generateContent : jsstring -> nat -> result (result jsstring).
Variable random : nat -> Q.
Variable toLowerCase : jsstring -> jsstring.

Definition generateDocumentSummary (documentChunks : list DocumentChunk)
  : result jsstring :=
  try_catch
    (let documentContent :=
       join (newline ++ newline) (map content documentChunks) in
     let prompt := summary_prompt documentContent in
     result <- fst (Gemini.retryWithBackoff (generateContent prompt) random
                      Gemini.default_maxRetries Gemini.default_baseDelay) ;;
     text <- result ;;
     Ok text)
    (fun _ => Ok (fallback_summary documentChunks)).

(** The parsing of the model's answer into tags. *)
Definition parse_tags (tagsText : jsstring) : list jsstring :=
  js_slice
    (filter (fun tag => (0 <? length tag)%nat)
       (map trim (split_on 44 tagsText [])))
    0 10.

(** The tags of the [catch] block. *)
Definition fallback_tags (documentChunks : list DocumentChunk)
  : list jsstring :=
  let allText :=
    toLowerCase (join (lit " ") (map content documentChunks)) in
  let foundTags := filter (fun word => includes allText word) commonWords in
  js_slice (fallbackTags ++ foundTags) 0 5.

Definition generateTags (documentChunks : list DocumentChunk)
  : result (list jsstring) :=
  try_catch
    (let documentContent :=
       join (newline ++ newline)
         (map content (js_slice documentChunks 0 5)) in
     let prompt := tags_prompt documentContent in
     result <- fst (Gemini.retryWithBackoff (generateContent prompt) random
                      Gemini.default_maxRetries Gemini.default_baseDelay) ;;
     text <- result ;;
     let tagsText := trim text in
     Ok (parse_tags tagsText))
    (fun _ => Ok (fallback_tags documentChunks)).

End Model.

End GeminiDocuments.

(** ** lib/embeddings.ts: storing the embeddings of a document *)

Module EmbeddingStore.

Import DocumentProcessor.

(** [{ ...metadata, [key]: value }]: the property is overwritten where
    it stands, or added last. *)
Fixpoint set_meta (key : string) (value : meta_value)
  (metadata : list (string * meta_value)) : list (string * meta_value) :=
  match metadata with
  | [] => [(key, value)]
  | (k, v) :: rest =>
      if String.eqb k key then (k, value) :: rest
      else (k, v) :: set_meta key value rest
  end.

Section Store.

Variable number : Type.
Variable zero : number.
Variables add mul div : number -> number -> number.
Variables Math_sqrt Math_sin : number -> number.
Variable of_N : N -> number.
Variables tenth half : number.
Variable gt : number -> number -> bool.
Variable featureExtraction :
  jsstring -> nat -> result (Embeddings.hf_response number).
Variable random : nat -> Q.

(** A row handed to [insert]. *)
Record embedding_row : Type := mk_embedding_row {
  row_document_id : jsstring;
  row_content : jsstring;
  row_metadata : list (string * meta_value);
  row_embedding : list number
}.

(** [supabase.from("document_embeddings").insert(embeddings).select()]:
    the rows as stored, or an error; [stored] is the type of a stored
    row. *)
Variable stored : Type.
Variable insert_select :
  list embedding_row -> result (Embeddings.reply (list stored)).

(** The [for] loop over the chunks; [embeddings] is the array built so
    far. *)
Fixpoint embed_chunks (documentId : jsstring) (chunks : list DocumentChunk)
  (embeddings : list embedding_row) : list embedding_row :=
  match chunks with
  | [] => embeddings
  | chunk :: rest =>
      match
        Embeddings.generateEmbedding number zero add mul div Math_sqrt
          Math_sin of_N tenth half gt featureExtraction random
          (content chunk)
      with
      | Ok (embedding, model) =>
          embed_chunks documentId rest
            (embeddings
             ++ [ mk_embedding_row documentId (content chunk)
                    (set_meta "embedding_model" (MStr model)
                       (metadata chunk))
                    embedding ])
      | Throw _ => embed_chunks documentId rest embeddings
      end
  end.

Definition storeDocumentEmbeddings (documentId : jsstring)
  (chunks : list DocumentChunk) : result (list stored) :=
  let embeddings := embed_chunks documentId chunks [] in
  answer <- insert_select embeddings ;;
  match answer with
  | Embeddings.DbError error => Throw error
  | Embeddings.Data data => Ok data
  end.

End Store.

Arguments row_document_id {number}.
Arguments row_content {number}.
Arguments row_metadata {number}.
Arguments row_embedding {number}.

End EmbeddingStore.

(** ** app/api/chat/route.ts: the handler *)

Module ChatPost.

(** The [history] of the body, which the route reads unchecked: it may
    be missing, and then defaults to the empty array; it may be an array,
    whose entries are messages or [null] ([None]); it may be [null] or
    another value that has no [map].  An entry that is not [null] is
    taken as the interface [ChatContext] declares it. *)
Inductive history_value : Type :=
| HistoryMissing
| HistoryArray (entries : list (option Gemini.history_message))
| HistoryNoArray.

(** The JSON body of the request: [message] may be missing. *)
Record chat_request : Type := mk_chat_request {
  message : option jsstring;
  history : history_value
}.

(** An entry of [sources]; the copy stored with the conversation has no
    metadata. *)
Record source : Type := mk_source {
  src_document_id : jsstring;
  src_content : jsstring;
  src_similarity : Q;
  src_metadata : option jsstring
}.

Record chat_message : Type := mk_chat_message {
  cm_user_id : jsstring;
  cm_message : jsstring;
  cm_response : jsstring;
  cm_sources : list source
}.

(** The JSON that the handler answers with. *)
Inductive response_body : Type :=
| ErrorBody (error : jsstring) (details : option jsstring)
| ReplyBody (response : jsstring) (sources : list source)
    (decomposedQueries : list Gemini.json) (warning : option jsstring).

Record NextResponse : Type := mk_NextResponse {
  body : response_body;
  status : Z
}.

(** [NextResponse.json(body)] answers with status 200. *)
Definition json_response (b : response_body) : NextResponse :=
  mk_NextResponse b 200.

(** [doc.content.substring(0, 200) + "..."] *)
Definition excerpt (content : jsstring) : jsstring :=
  js_slice content 0 200 ++ lit "...".

Definition no_documents_warning : jsstring :=
  lit "No relevant documents found. Response based on general knowledge.".

(** The outer [catch]. *)
Definition error_response (error : js_error) : NextResponse :=
  if includes (err_message error)
       (lit "Failed to generate response from Gemini API") then
    mk_NextResponse
      (ErrorBody
         (lit "The AI service is temporarily unavailable. Please try again in a few moments.")
         (Some (lit "This usually happens when the service is experiencing high traffic.")))
      503
  else if includes (err_message error) (lit "permissions") then
    mk_NextResponse
      (ErrorBody
         (lit "Configuration issue detected. Please check your API credentials.")
         (Some (lit "There may be an issue with the API token permissions.")))
      500
  else
    mk_NextResponse
      (ErrorBody (lit "Failed to process chat message")
         (Some (lit "An unexpected error occurred. Please try again.")))
      500.

Section Handler.

(** The request: its body, which [request.json()] may fail to read, and
    its [Authorization] header. *)
Variable request_json : result chat_request.
Variable authorization : option jsstring.

(** The [TypeError]s that the engine throws on [history.map] when
    [history] has no [map], and on [msg.role] when [msg] is [null]; their
    messages are the engine's. *)
Variable no_map_error : js_error.
Variable null_entry_error : js_error.

(** [history.map((msg) => ({ role: msg.role, content: msg.content }))] *)
Fixpoint map_entries (entries : list (option Gemini.history_message))
  : result (list Gemini.history_message) :=
  match entries with
  | [] => Ok []
  | None :: _ => Throw null_entry_error
  | Some msg :: rest =>
      match map_entries rest with
      | Ok mapped =>
          Ok (Gemini.mk_history_message (Gemini.hm_role msg)
                (Gemini.hm_content msg) :: mapped)
      | Throw error => Throw error
      end
  end.

Definition map_history (history : history_value)
  : result (list Gemini.history_message) :=
  match history with
  | HistoryMissing => Ok []
  | HistoryArray entries => map_entries entries
  | HistoryNoArray => Throw no_map_error
  end.

(** [supabase.auth.getUser(token)]: the identifier of the user and the
    error, either of which may be missing. *)
Variable getUser : jsstring -> result (option jsstring * option js_error).

(** The generative model and [JSON.parse], as in lib/gemini.ts. *)
Variable generateContent : jsstring -> nat -> result (result jsstring).
Variable random : nat -> Q.
Variable JSON_parse : jsstring -> result Gemini.json.

(** [searchSimilarDocuments(query, user.id, limit)] *)
Variable searchSimilarDocuments :
  jsstring -> Gemini.json -> nat -> result (list search_row).

(** [supabase.from("chat_messages").insert(row)] *)
Variable insert_chat_message : chat_message -> result unit.

Definition POST : NextResponse :=
  let answer :=
    request <- request_json ;;
    match message request with
    | None | Some [] =>
        Ok (mk_NextResponse (ErrorBody (lit "Message is required") None) 400)
    | Some ((_ :: _) as message) =>
        match authorization with
        | None | Some [] =>
            Ok (mk_NextResponse
                  (ErrorBody (lit "Unauthorized - No token provided") None)
                  401)
        | Some ((_ :: _) as authorization) =>
            let token := remove_first (lit "Bearer ") authorization in
            auth <- getUser token ;;
            match auth with
            | (Some user, None) =>
                let found :=
                  ChatRoute.retrieve
                    (Gemini.decomposeQuery generateContent random JSON_parse)
                    (searchSimilarDocuments user) message in
                let relevantDocuments := fst found in
                let decomposedQueries := snd found in
                conversationHistory <- map_history (history request) ;;
                let context :=
                  Gemini.mk_ChatContext
                    (map (fun doc =>
                            Gemini.mk_context_chunk (sr_content doc)
                              (sr_metadata doc) (sr_similarity doc))
                       relevantDocuments)
                    conversationHistory in
                response <- Gemini.generateChatResponse generateContent
                              random message context ;;
                _ <- try_catch
                       (insert_chat_message
                          (mk_chat_message user message response
                             (map (fun doc =>
                                     mk_source (sr_document_id doc)
                                       (excerpt (sr_content doc))
                                       (sr_similarity doc) None)
                                relevantDocuments)))
                       (fun _ => Ok tt) ;;
                Ok (json_response
                      (ReplyBody response
                         (map (fun doc =>
                                 mk_source (sr_document_id doc)
                                   (excerpt (sr_content doc))
                                   (sr_similarity doc)
                                   (Some (sr_metadata doc)))
                            relevantDocuments)
                         decomposedQueries
                         (match relevantDocuments with
                          | [] => Some no_documents_warning
                          | _ :: _ => None
                          end)))
            | _ =>
                Ok (mk_NextResponse
                      (ErrorBody (lit "Unauthorized - Invalid token") None)
                      401)
            end
        end
    end in
  match answer with
  | Ok response => response
  | Throw error => error_response error
  end.

End Handler.

End ChatPost.

(** ** Notions used to state the properties of the extractors *)

(** The code units of a text that are not white space. *)
Definition visible (s : jsstring) : jsstring :=
  filter (fun c => negb (is_space c)) s.

(** What an extractor that cuts [text] into paragraphs returns as
    [chunks]: all of the text but white space, in chunks that are not
    blank, chunk [k] carrying the metadata [label k]. *)
Definition keeps_text (text : jsstring)
  (label : nat -> list (string * DocumentProcessor.meta_value))
  (chunks : list DocumentProcessor.DocumentChunk) : Prop :=
  visible (concat (map DocumentProcessor.content chunks)) = visible text /\
  forall k chunk, nth_error chunks k = Some chunk ->
    DocumentProcessor.nonblank (DocumentProcessor.content chunk) = true /\
    DocumentProcessor.metadata chunk = label k.

(** ** Sample data for the concrete runs of Part III *)

Module Examples.

Import DocumentProcessor.

(** A download of three paragraphs, the second one blank. *)
Definition notes : Response :=
  mk_Response true (lit "OK")
    (lit "Intro" ++ newline ++ newline ++ lit "  " ++ newline ++ newline
     ++ lit "Body")
    [80%N; 75%N].

Definition fetch_notes (fileUrl : jsstring) : result Response := Ok notes.

Definition mammoth_notes (arrayBuffer : list N) : result jsstring :=
  Ok (lit "Title" ++ newline ++ lit " " ++ newline ++ lit "Text ").

(** A workbook of one sheet whose second row is empty, and a notebook
    whose second cell has no source. *)
Definition one_sheet (arrayBuffer : list N)
  : result (list (jsstring * list (list jsstring))) :=
  Ok [ (lit "S1", [ [lit "a"; lit "b"]; []; [lit "c"] ]) ].

Definition three_cells (text : jsstring) : result (list notebook_cell) :=
  Ok [ mk_notebook_cell (SourceLines [lit "x = 1"; newline]) (lit "code");
       mk_notebook_cell SourceMissing (lit "code");
       mk_notebook_cell (SourceText (lit "Notes")) (lit "markdown") ].

(** [toLowerCase] on a text of ASCII letters. *)
Definition ascii_lower (c : N) : N :=
  if (65 <=? c)%N && (c <=? 90)%N then (c + 32)%N else c.

(** A model that is out of reach, and a document of one chunk. *)
Definition model_down (prompt : jsstring) (attempt : nat)
  : result (result jsstring) :=
  Throw (Error (lit "fetch failed")).

Definition market_report : list DocumentChunk :=
  [ text_chunk (lit "Market Analysis of the sales data") 0 ].

(** A chat request with a token that [getUser] accepts for user [u1],
    sent while the searches fail and the conversation cannot be stored. *)
Definition hello : ChatPost.chat_request :=
  ChatPost.mk_chat_request (Some (lit "hello")) ChatPost.HistoryMissing.

(** What V8 says of [history.map] on [null] and of [msg.role] on a
    [null] entry. *)
Definition no_map : js_error :=
  Error (lit "Cannot read properties of null (reading 'map')").

Definition null_entry : js_error :=
  Error (lit "Cannot read properties of null (reading 'role')").

Definition getUser_t1 (token : jsstring)
  : result (option jsstring * option js_error) :=
  if jsstring_eqb token (lit "t1") then Ok (Some (lit "u1"), None)
  else Ok (None, Some (Error (lit "invalid JWT"))).

Definition parse_fails (text : jsstring) : result Gemini.json :=
  Throw (Error (lit "Unexpected token")).

Definition search_down (userId : jsstring) (query : Gemini.json)
  (limit : nat) : result (list search_row) :=
  Throw (Error (lit "fetch failed")).

Definition insert_down (row : ChatPost.chat_message) : result unit :=
  Throw (Error (lit "fetch failed")).

(** Three sub-queries: the first two find the chunk ["alpha"], the third
    search throws. *)
Definition three_queries : list Gemini.json :=
  [ Gemini.JString (lit "q1"); Gemini.JString (lit "q2");
    Gemini.JString (lit "q3") ].

Definition decompose_three (message : jsstring)
  : result (list Gemini.json) :=
  Ok three_queries.

Definition search_third_fails (query : Gemini.json) (limit : nat)
  : result (list search_row) :=
  match query with
  | Gemini.JString q =>
      if jsstring_eqb q (lit "q1") then
        Ok [Samples.row_alpha (9 # 10); Samples.row_beta]
      else if jsstring_eqb q (lit "q2") then Ok [Samples.row_alpha (1 # 2)]
      else Throw (Error (lit "fetch failed"))
  | _ => Ok []
  end.

(** A model that answers with a fenced JSON array, and a parser that
    reads the array of the one string ["a"] from any text. *)
Definition fenced_answer : jsstring :=
  backtick ++ backtick ++ backtick ++ lit "json" ++ newline
  ++ lit "[" ++ dquote ++ lit "a" ++ dquote ++ lit "]"
  ++ newline ++ backtick ++ backtick ++ backtick.

Definition model_fenced (prompt : jsstring) (attempt : nat)
  : result (result jsstring) :=
  Ok (Ok fenced_answer).

Definition parse_one (text : jsstring) : result Gemini.json :=
  Ok (Gemini.JArray [Gemini.JString (lit "a")]).

End Examples.

(* ===================================================================== *)
(** * Part II: the theorems                                               *)
(* ===================================================================== *)

Import DocumentProcessor.

(** ** Facts on the shared JavaScript helpers *)

Lemma js_slice_length {A : Type} (s : list A) (a b : Z) :
  0 <= a -> 0 <= b ->
  length (js_slice s a b)
  = Z.to_nat (Z.min b (Z.of_nat (length s)) - Z.min a (Z.of_nat (length s))).
Proof.
  intros Ha Hb. unfold js_slice.
  destruct (Z.ltb_spec a 0); [lia|]. destruct (Z.ltb_spec b 0); [lia|].
  rewrite length_firstn, length_skipn. lia.
Qed.

Lemma js_slice_nth_error {A : Type} (s : list A) (a b : Z) (i : nat) :
  0 <= a -> a + Z.of_nat i < b ->
  nth_error (js_slice s a b) i = nth_error s (Z.to_nat a + i).
Proof.
  intros Ha Hi. unfold js_slice.
  destruct (Z.ltb_spec a 0); [lia|]. destruct (Z.ltb_spec b 0); [lia|].
  rewrite nth_error_firstn, nth_error_skipn.
  destruct (Nat.ltb_spec i
    (Z.to_nat (Z.min b (Z.of_nat (length s)) - Z.min a (Z.of_nat (length s))))) as [Hlt|Hge].
  - f_equal. lia.
  - symmetry. apply nth_error_None. lia.
Qed.

Lemma js_slice_clamp {A : Type} (s : list A) (a b : Z) :
  0 <= b -> js_slice s a (Z.min b (Z.of_nat (length s))) = js_slice s a b.
Proof.
  intros Hb. unfold js_slice.
  destruct (Z.ltb_spec b 0); [lia|].
  destruct (Z.ltb_spec (Z.min b (Z.of_nat (length s))) 0); [lia|].
  now rewrite <- Z.min_assoc, Z.min_id.
Qed.

Lemma mapi_from_nth_error {A B : Type} (f : A -> nat -> B) (l : list A) :
  forall i k,
    nth_error (mapi_from f i l) k
    = option_map (fun x => f x (i + k)%nat) (nth_error l k).
Proof.
  induction l as [|x l IH]; intros i k.
  - now destruct k.
  - destruct k as [|k]; simpl.
    + now rewrite Nat.add_0_r.
    + rewrite IH. now rewrite Nat.add_succ_r.
Qed.

(** ** [chunkText]: the sliding windows *)

(** More fuel does not change the result of a loop that has left. *)
Lemma chunkText_loop_more_fuel text maxLength overlap :
  forall fuel start chunks r,
    chunkText_loop fuel text maxLength overlap start chunks = Some r ->
    forall fuel', (fuel <= fuel')%nat ->
      chunkText_loop fuel' text maxLength overlap start chunks = Some r.
Proof.
  induction fuel as [|fuel IH]; intros start chunks r Hrun fuel' Hle.
  - discriminate.
  - destruct fuel' as [|fuel']; [lia|]. simpl in *.
    destruct (start <? Z.of_nat (length text)); [|assumption].
    destruct (Z.min (start + maxLength) (Z.of_nat (length text))
              =? Z.of_nat (length text)); [assumption|].
    apply IH with (fuel' := fuel') in Hrun; [assumption|lia].
Qed.

Section ChunkText.

Variable text : jsstring.
Variables maxLength overlap : Z.

Let len := Z.of_nat (length text).
Let stride := maxLength - overlap.

(** One turn of the loop that does not reach the end of the text. *)
Lemma chunkText_loop_continue fuel start chunks :
  start < len -> start + maxLength < len ->
  chunkText_loop (S fuel) text maxLength overlap start chunks
  = chunkText_loop fuel text maxLength overlap (start + stride)
      (chunks ++ [js_slice text start (start + maxLength)]).
Proof.
  intros Hs He. simpl. fold len.
  destruct (Z.ltb_spec start len); [|lia].
  rewrite Z.min_l by lia.
  destruct (Z.eqb_spec (start + maxLength) len); [lia|].
  f_equal. unfold stride. lia.
Qed.

(** The last turn: the window is cut at the end of the text. *)
Lemma chunkText_loop_last fuel start chunks :
  start < len -> len <= start + maxLength ->
  chunkText_loop (S fuel) text maxLength overlap start chunks
  = Some (chunks ++ [js_slice text start len]).
Proof.
  intros Hs He. simpl. fold len.
  destruct (Z.ltb_spec start len); [|lia].
  rewrite Z.min_r by lia. now rewrite Z.eqb_refl.
Qed.

Lemma chunkText_loop_done fuel start chunks :
  len <= start ->
  chunkText_loop (S fuel) text maxLength overlap start chunks = Some chunks.
Proof.
  intros Hs. simpl. fold len. destruct (Z.ltb_spec start len); [lia|easy].
Qed.

Hypothesis overlap_ok : 0 <= overlap < maxLength.

Lemma chunkText_loop_windows :
  forall fuel start chunks,
    0 <= start -> Z.max 0 (len - start) < Z.of_nat fuel ->
    exists ws,
      chunkText_loop fuel text maxLength overlap start chunks
      = Some (chunks ++ ws) /\
      windows_from text maxLength overlap start ws.
Proof.
  unfold windows_from. fold len. fold stride.
  induction fuel as [|fuel IH]; intros start chunks Hs Hfuel.
  - exfalso. lia.
  - destruct (Z.lt_ge_cases start len) as [Hlt|Hge].
    + destruct (Z.lt_ge_cases (start + maxLength) len) as [Hin|Hout].
      * destruct (IH (start + stride)
                    (chunks ++ [js_slice text start (start + maxLength)]))
          as (ws & Hrun & Hne & Hws).
        { unfold stride. lia. }
        { unfold stride. lia. }
        exists (js_slice text start (start + maxLength) :: ws). split.
        { rewrite chunkText_loop_continue by assumption.
          rewrite Hrun. now rewrite <- app_assoc. }
        split; [discriminate|].
        intros [|k] w Hk; simpl in Hk.
        { injection Hk as <-. simpl. rewrite Z.add_0_r.
          repeat split; try assumption; try lia.
          intros Hlast. exfalso. apply Hne.
          - unfold stride. lia.
          - destruct ws; [reflexivity|simpl in Hlast; lia]. }
        { destruct (Hws k w Hk) as (Hw & Hk1 & Hk2 & Hk3).
          replace (start + Z.of_nat (S k) * stride)
            with (start + stride + Z.of_nat k * stride) by lia.
          repeat split; try assumption.
          - intros Hlen. apply Hk2. simpl in Hlen. lia.
          - intros Hlen. apply Hk3. simpl in Hlen. lia. }
      * exists [js_slice text start (start + maxLength)]. split.
        { rewrite chunkText_loop_last by assumption.
          do 2 f_equal. unfold len. symmetry.
          rewrite <- (js_slice_clamp text start (start + maxLength)) by lia.
          rewrite Z.min_r by (fold len; lia). reflexivity. }
        split; [discriminate|].
        intros [|k] w Hk; simpl in Hk.
        { injection Hk as <-. simpl. rewrite Z.add_0_r.
          repeat split; try assumption; try lia. }
        { destruct k; discriminate. }
    + exists []. split.
      * rewrite chunkText_loop_done by assumption. now rewrite app_nil_r.
      * split; [lia|]. intros [|k] w Hk; discriminate.
Qed.

(** With [overlap < maxLength] the loop leaves after at most
    [text.length] turns, and the chunks are the windows. *)
Lemma chunkText_windows :
  exists chunks,
    (forall fuel, (length text < fuel)%nat ->
       chunkText_fuel fuel text maxLength overlap = Some chunks) /\
    windows_from text maxLength overlap 0 (map content chunks).
Proof.
  destruct (chunkText_loop_windows (S (length text)) 0 [])
    as (ws & Hrun & Hws); [lia | unfold len; lia |].
  exists (mapi text_chunk ws). split.
  - intros fuel Hfuel. unfold chunkText_fuel.
    rewrite (chunkText_loop_more_fuel _ _ _ _ _ _ _ Hrun fuel) by lia.
    reflexivity.
  - replace (map content (mapi text_chunk ws)) with ws; [exact Hws|].
    apply nth_error_ext. intros k. rewrite nth_error_map.
    unfold mapi. rewrite mapi_from_nth_error.
    now destruct (nth_error ws k).
Qed.

End ChunkText.

(** C3, as the code has it: for [0 <= overlap < maxLength], [chunkText]
    returns the sliding windows of the text: window [k] is the slice that
    starts at offset [k * (maxLength - overlap)], every window but the last
    has [maxLength] code units and the last one ends at the end of the text;
    a text of 2500 code units with [maxLength = 1000] and [overlap = 200]
    gives exactly three chunks, of lengths 1000, 1000 and 900. *)
Theorem chunkText_sliding_window (text : jsstring) (maxLength overlap : Z) :
  0 <= overlap < maxLength ->
  exists chunks,
    (forall fuel, (length text < fuel)%nat ->
       chunkText_fuel fuel text maxLength overlap = Some chunks) /\
    (forall k c, nth_error chunks k = Some c ->
       let s := Z.of_nat k * (maxLength - overlap) in
       content c = js_slice text s (s + maxLength) /\
       ((S k < length chunks)%nat ->
          Z.of_nat (length (content c)) = maxLength) /\
       ((S k = length chunks)%nat ->
          s + Z.of_nat (length (content c)) = Z.of_nat (length text))) /\
    (length text = 2500%nat -> maxLength = 1000 -> overlap = 200 ->
       map (fun c => length (content c)) chunks = [1000; 1000; 900]%nat).
Proof.
  intros Hov.
  destruct (chunkText_windows text maxLength overlap Hov)
    as (chunks & Hrun & Hne & Hws).
  exists chunks. split; [exact Hrun|]. split.
  - intros k c Hk s.
    assert (Hk' : nth_error (map content chunks) k = Some (content c))
      by (rewrite nth_error_map, Hk; reflexivity).
    destruct (Hws _ _ Hk') as (Hw & Hlt & Hmid & Hlast). fold s in Hw, Hlt, Hmid, Hlast.
    rewrite length_map in Hmid, Hlast.
    assert (Hs : 0 <= s) by (unfold s; nia).
    split; [exact Hw|]. rewrite Hw, js_slice_length by lia. split.
    + intros H. specialize (Hmid H). lia.
    + intros H. specialize (Hlast H). lia.
  - intros Hlen -> ->.
    specialize (Hrun (S (S (S (length text))))). 
    unfold chunkText_fuel in Hrun.
    rewrite chunkText_loop_continue in Hrun by lia.
    rewrite chunkText_loop_continue in Hrun by lia.
    rewrite chunkText_loop_last in Hrun by lia.
    simpl in Hrun. specialize (Hrun ltac:(lia)).
    injection Hrun as <-. clear Hne Hws.
    cbn [map mapi mapi_from content text_chunk].
    rewrite !js_slice_length by lia. rewrite Hlen.
    vm_compute. reflexivity.
Qed.

(** The hypotheses of [chunkText_sliding_window] hold at the default
    arguments on a text of 2500 code units. *)
Lemma chunkText_sliding_window_witness :
  exists chunks,
    chunkText_fuel 2501 (repeat 65%N 2500) default_maxLength default_overlap
    = Some chunks /\
    map (fun c => length (content c)) chunks = [1000; 1000; 900]%nat.
Proof.
  destruct (chunkText_sliding_window (repeat 65%N 2500) 1000 200)
    as (chunks & Hrun & _ & Hlens); [lia|].
  exists chunks. split.
  - apply Hrun. rewrite repeat_length. apply Nat.lt_succ_diag_r.
  - apply Hlens; [apply repeat_length | reflexivity | reflexivity].
Defined.

(** C3 as the specification words it fails: no run of [chunkText] on 2500
    code units with the default arguments gives the lengths 1000, 1000,
    700; the third window runs from offset 1600 to 2500. *)
Lemma chunkText_2500_not_700 :
  ~ exists fuel,
      chunk_lengths
        (chunkText_fuel fuel (repeat 65%N 2500) default_maxLength
           default_overlap)
      = Some [1000; 1000; 700]%nat.
Proof.
  intros [fuel H].
  assert (H3 : chunkText_loop 3 (repeat 65%N 2500) 1000 200 0 []
               = Some [repeat 65%N 1000; repeat 65%N 1000; repeat 65%N 900])
    by (vm_compute; reflexivity).
  destruct (Nat.le_gt_cases 3 fuel) as [Hge|Hlt].
  - unfold chunk_lengths, chunkText_fuel, default_maxLength, default_overlap
      in H.
    rewrite (chunkText_loop_more_fuel _ _ _ _ _ _ _ H3 fuel Hge) in H.
    vm_compute in H. discriminate.
  - destruct fuel as [|[|[|fuel]]]; [| | |lia]; vm_compute in H; discriminate.
Qed.

(** C9: for a non-empty text and [0 < overlap < maxLength], [chunkText]
    terminates (every fuel above [text.length] gives the same chunks, and
    there is at least one) and the windows cover the text: each position
    [p] of the text lies in some window [k], where it is the code unit at
    index [p - k * (maxLength - overlap)] of chunk [k]. *)
Theorem chunkText_terminates_and_covers
  (text : jsstring) (maxLength overlap : Z) :
  text <> [] -> 0 < overlap -> 0 < maxLength -> overlap < maxLength ->
  exists chunks,
    chunks <> [] /\
    (forall fuel, (length text < fuel)%nat ->
       chunkText_fuel fuel text maxLength overlap = Some chunks) /\
    (forall p x, nth_error text p = Some x ->
       exists k c,
         nth_error chunks k = Some c /\
         Z.of_nat k * (maxLength - overlap) <= Z.of_nat p /\
         nth_error (content c)
           (Z.to_nat (Z.of_nat p - Z.of_nat k * (maxLength - overlap)))
         = Some x).
Proof.
  intros Htext Hov0 Hm Hov.
  destruct (chunkText_windows text maxLength overlap ltac:(lia))
    as (chunks & Hrun & Hne & Hws).
  assert (Hlen : 0 < Z.of_nat (length text))
    by (destruct text; [congruence|simpl; lia]).
  specialize (Hne Hlen).
  exists chunks. split; [|split; [exact Hrun|]].
  - intros ->. now apply Hne.
  - intros p x Hp.
    assert (Hplt : (p < length text)%nat)
      by (apply nth_error_Some; congruence).
    set (d := maxLength - overlap) in *.
    set (n := length chunks).
    assert (Hn : (0 < n)%nat).
    { unfold n. destruct chunks; [now elim Hne|simpl; lia]. }
    (* the window that holds [p]: the [p / d]-th one, or the last *)
    set (k := Nat.min (Z.to_nat (Z.of_nat p / d)) (n - 1)).
    assert (Hk : (k < n)%nat) by (unfold k; lia).
    destruct (nth_error chunks k) as [c|] eqn:Hc;
      [|apply nth_error_None in Hc; fold n in Hc; lia].
    assert (Hc' : nth_error (map content chunks) k = Some (content c))
      by (rewrite nth_error_map, Hc; reflexivity).
    destruct (Hws _ _ Hc') as (Hw & Hlt & Hmid & Hlast).
    rewrite length_map in Hmid, Hlast. fold n in Hmid, Hlast. fold d in Hw, Hlt, Hmid, Hlast.
    assert (Hq : Z.of_nat p / d * d <= Z.of_nat p < (Z.of_nat p / d + 1) * d).
    { pose proof (Z.mul_div_le (Z.of_nat p) d ltac:(lia)).
      pose proof (Z.mul_succ_div_gt (Z.of_nat p) d ltac:(lia)).
      unfold Z.succ in *. lia. }
    assert (Hq0 : 0 <= Z.of_nat p / d) by (apply Z.div_pos; lia).
    assert (Hlow : Z.of_nat k * d <= Z.of_nat p) by (unfold k; nia).
    assert (Hhigh : Z.of_nat p < Z.of_nat k * d + maxLength).
    { destruct (Nat.le_gt_cases (Z.to_nat (Z.of_nat p / d)) (n - 1)) as [Hle|Hgt].
      - assert (Z.of_nat k = Z.of_nat p / d) by (unfold k; lia). nia.
      - assert (S k = n) by (unfold k; lia). specialize (Hlast H). lia. }
    exists k, c. split; [exact Hc|]. split; [exact Hlow|].
    rewrite Hw, js_slice_nth_error by nia.
    rewrite <- Hp. f_equal. nia.
Qed.

(** The hypotheses of [chunkText_terminates_and_covers] hold on
    ["hello world"] with windows of 4 code units overlapping by 1. *)
Lemma chunkText_terminates_and_covers_witness :
  exists chunks,
    chunks <> [] /\
    (forall fuel, (length (lit "hello world") < fuel)%nat ->
       chunkText_fuel fuel (lit "hello world") 4 1 = Some chunks) /\
    (forall p x, nth_error (lit "hello world") p = Some x ->
       exists k c,
         nth_error chunks k = Some c /\
         Z.of_nat k * (4 - 1) <= Z.of_nat p /\
         nth_error (content c) (Z.to_nat (Z.of_nat p - Z.of_nat k * (4 - 1)))
         = Some x).
Proof.
  apply (chunkText_terminates_and_covers (lit "hello world") 4 1).
  - discriminate.
  - reflexivity.
  - reflexivity.
  - reflexivity.
Defined.

(** Without [overlap < maxLength] there is no forward progress: on a text
    longer than one window the loop never leaves. *)
Lemma chunkText_no_progress (text : jsstring) (maxLength overlap : Z) :
  0 < maxLength <= overlap -> maxLength < Z.of_nat (length text) ->
  forall fuel, chunkText_fuel fuel text maxLength overlap = None.
Proof.
  intros Hov Hlen fuel. unfold chunkText_fuel.
  enough (H : forall start chunks, start <= 0 ->
            chunkText_loop fuel text maxLength overlap start chunks = None)
    by (rewrite H by lia; reflexivity).
  induction fuel as [|fuel IH]; intros start chunks Hs; [reflexivity|].
  rewrite chunkText_loop_continue by lia. apply IH. lia.
Qed.

(** ** The retry policy *)

(** Whatever the bound, the wrapped call is invoked at most [maxRetries]
    times. *)
Lemma retry_loop_calls_bounded {T : Type} status_of (fn : nat -> result T)
  random maxRetries baseDelay :
  forall remaining i trace,
    (length (calls (snd (retry_loop status_of fn random maxRetries baseDelay
                           remaining i trace)))
     <= length (calls trace) + remaining)%nat.
Proof.
  induction remaining as [|remaining IH]; intros i trace; simpl.
  - lia.
  - destruct (fn i) as [value|error]; simpl.
    + unfold calls. rewrite flat_map_app, length_app. simpl. lia.
    + destruct (Z.of_nat i =? Z.of_nat maxRetries - 1).
      * unfold calls. simpl. rewrite flat_map_app, length_app. simpl. lia.
      * destruct (retryable status_of error).
        -- etransitivity; [apply IH|].
           unfold calls. rewrite flat_map_app, length_app. simpl. lia.
        -- unfold calls. simpl. rewrite flat_map_app, length_app. simpl. lia.
Qed.

Ltac split_events :=
  repeat match goal with
    | H : _ \/ _ |- _ => destruct H
    | H : False |- _ => contradiction H
    | H : Slept _ = Called _ |- _ => discriminate H
    | H : Called _ = Called _ |- _ =>
        first [ discriminate H | injection H as H; subst ]
    end.

Ltac give_prefix :=
  first [ exists (@nil retry_event); reflexivity
        | eexists (_ :: nil); reflexivity
        | eexists (_ :: _ :: nil); reflexivity
        | eexists (_ :: _ :: _ :: nil); reflexivity
        | eexists (_ :: _ :: _ :: _ :: nil); reflexivity ].

Ltac give_context :=
  first [ exists (@nil retry_event); eexists; reflexivity
        | eexists (_ :: _ :: nil); eexists; reflexivity ].

(** The three turns of the loop, written out. *)
Lemma retry_with_backoff_3 {T : Type} status_of (fn : nat -> result T)
  random baseDelay :
  retry_with_backoff status_of fn random 3 baseDelay
  = let d := backoff_delay random baseDelay in
    match fn 0%nat with
    | Ok v => (Ok v, [Called 0])
    | Throw e0 =>
        if retryable status_of e0 then
          match fn 1%nat with
          | Ok v => (Ok v, [Called 0; Slept (d 0%nat); Called 1])
          | Throw e1 =>
              if retryable status_of e1 then
                match fn 2%nat with
                | Ok v =>
                    (Ok v, [Called 0; Slept (d 0%nat); Called 1;
                            Slept (d 1%nat); Called 2])
                | Throw e2 =>
                    (Throw e2, [Called 0; Slept (d 0%nat); Called 1;
                                Slept (d 1%nat); Called 2])
                end
              else (Throw e1, [Called 0; Slept (d 0%nat); Called 1])
          end
        else (Throw e0, [Called 0])
    end.
Proof.
  unfold retry_with_backoff. cbn [retry_loop].
  destruct (fn 0%nat); [reflexivity|].
  destruct (retryable status_of e); [|reflexivity].
  destruct (fn 1%nat); [reflexivity|].
  destruct (retryable status_of e0); [|reflexivity].
  destruct (fn 2%nat); reflexivity.
Qed.

Lemma retry_with_backoff_policy {T : Type} status_of (fn : nat -> result T)
  random :
  bounded_retry_policy status_of fn random
    (retry_with_backoff status_of fn random 3 1000).
Proof.
  unfold bounded_retry_policy. rewrite retry_with_backoff_3.
  unfold backoff_delay. cbv zeta.
  destruct (fn 0%nat) as [v0|e0] eqn:E0;
    [|destruct (retryable status_of e0) eqn:R0;
      [destruct (fn 1%nat) as [v1|e1] eqn:E1;
       [|destruct (retryable status_of e1) eqn:R1;
         [destruct (fn 2%nat) as [v2|e2] eqn:E2|]]|]];
    cbn [fst snd calls flat_map app length seq In Nat.sub];
    (split; [lia|]); (split; [reflexivity|]); (split; [reflexivity|]);
    (split; [now symmetry|]);
    (split;
     [intros i error Hi Hin Hfn Hretry; split_events;
      repeat match goal with
        | H : fn ?i = _, H' : fn ?i = _ |- _ => rewrite H in H'
        | H : Throw _ = Throw _ |- _ => injection H as H; subst
        | H : Ok _ = Throw _ |- _ => discriminate H
        | H : retryable ?s ?e = true, H' : retryable ?s ?e = false |- _ =>
            rewrite H in H'; discriminate H'
        end;
      try lia; simpl; tauto|]);
    repeat split; intros; split_events;
    repeat match goal with
      | H : fn ?i = _, H' : fn ?i = _ |- _ => rewrite H in H'
      | H : Ok _ = Ok _ |- _ => injection H as H; subst
      | H : Throw _ = Throw _ |- _ => injection H as H; subst
      | H : Ok _ = Throw _ |- _ => discriminate H
      | H : Throw _ = Ok _ |- _ => discriminate H
      | H : retryable ?s ?e = true, H' : retryable ?s ?e = false |- _ =>
          rewrite H in H'; discriminate H'
      end;
    try reflexivity; try give_prefix;
    try (eexists; split; [eassumption|]; split; [assumption|give_context]).
Qed.

(** C6: in lib/embeddings.ts and in lib/gemini.ts alike, [retryWithBackoff]
    with its default arguments invokes the wrapped call at least once and
    at most three times.  A first or second attempt that fails with status
    429, 500 or 503 is retried, and attempt [i + 1] is made only after
    such a failure of attempt [i], after a wait of [1000 * 2^i] ms plus
    the jitter [Math.random() * 1000]; the run consists of the attempts
    and these waits and of nothing else, so there is no wait after the
    last attempt.  The caller gets the outcome of the last attempt: a
    value as soon as an attempt returns one, an error with another status
    at once, and any error of the third attempt. *)
Theorem retryWithBackoff_bounded_policy {T : Type} (fn : nat -> result T)
  (random : nat -> Q) :
  bounded_retry_policy err_httpResponse_status fn random
    (Embeddings.retryWithBackoff fn random
       Embeddings.default_maxRetries Embeddings.default_baseDelay)
  /\
  bounded_retry_policy err_status fn random
    (Gemini.retryWithBackoff fn random
       Gemini.default_maxRetries Gemini.default_baseDelay).
Proof.
  split; apply retry_with_backoff_policy.
Qed.

(** ** [generateChatResponse] and [decomposeQuery] *)

Import Gemini.

Lemma replies_distinct :
  NoDup [reply_overloaded; reply_rate_limited; reply_bad_request; reply_generic].
Proof.
  repeat constructor; simpl; intros H;
    repeat (destruct H as [H|H]; [vm_compute in H; discriminate H|]);
    exact H.
Qed.

(** C8: [generateChatResponse] always returns a text.  When the model call
    fails, after the retries or at once, or when reading the text of its
    response fails, the text is the canned reply chosen by the status of the
    error: one for 503, one for 429, one for 400, one for anything else, the
    four being different texts. *)
Theorem generateChatResponse_always_replies
  (generateContent : jsstring -> nat -> result (result jsstring))
  (random : nat -> Q) (message : jsstring) (context : ChatContext) :
  let attempt :=
    fst (retryWithBackoff (generateContent (chat_prompt message context))
           random default_maxRetries default_baseDelay) in
  let reply := generateChatResponse generateContent random message context in
  (exists text, reply = Ok text) /\
  (forall text, attempt = Ok (Ok text) -> reply = Ok text) /\
  (forall error, attempt = Throw error \/ attempt = Ok (Throw error) ->
     reply = Ok (chat_fallback error)) /\
  (forall error,
     (err_status error = Some 503 -> chat_fallback error = reply_overloaded) /\
     (err_status error = Some 429 -> chat_fallback error = reply_rate_limited) /\
     (err_status error = Some 400 -> chat_fallback error = reply_bad_request) /\
     (err_status error <> Some 503 -> err_status error <> Some 429 ->
      err_status error <> Some 400 -> chat_fallback error = reply_generic)) /\
  NoDup [reply_overloaded; reply_rate_limited; reply_bad_request; reply_generic].
Proof.
  intros attempt reply. unfold reply, generateChatResponse. fold attempt.
  split; [|split; [|split; [|split]]].
  - destruct attempt as [[text|e]|e]; simpl; eauto.
  - intros text ->. reflexivity.
  - intros error [-> | ->]; reflexivity.
  - intros error. unfold chat_fallback, status_is.
    destruct (err_status error) as [status|]; repeat split; intros;
      try discriminate; try reflexivity.
    + injection H as ->. reflexivity.
    + injection H as ->. reflexivity.
    + injection H as ->. reflexivity.
    + destruct (Z.eqb_spec status 503); [congruence|].
      destruct (Z.eqb_spec status 429); [congruence|].
      destruct (Z.eqb_spec status 400); [congruence|]. reflexivity.
  - exact replies_distinct.
Qed.

(** C4: [decomposeQuery] always returns a list with at least one entry.
    It is the list holding just the query when the model call fails, when
    [JSON.parse] throws on the cleaned response, when the parsed value is
    not an array, and when it is the empty array; a parsed array with
    entries is returned as it is. *)
Theorem decomposeQuery_floor
  (generateContent : jsstring -> nat -> result (result jsstring))
  (random : nat -> Q) (JSON_parse : jsstring -> result json)
  (query : jsstring) :
  let attempt :=
    fst (retryWithBackoff (generateContent (decompose_prompt query))
           random default_maxRetries default_baseDelay) in
  let answer := decomposeQuery generateContent random JSON_parse query in
  (exists queries, answer = Ok queries /\ queries <> []) /\
  (forall error, attempt = Throw error \/ attempt = Ok (Throw error) ->
     answer = Ok [JString query]) /\
  (forall text, attempt = Ok (Ok text) ->
     let cleaned := trim (strip_code_fence (trim text)) in
     (forall error, JSON_parse cleaned = Throw error ->
        answer = Ok [JString query]) /\
     (forall value, JSON_parse cleaned = Ok value ->
        (forall items, value <> JArray items) ->
        answer = Ok [JString query]) /\
     (JSON_parse cleaned = Ok (JArray []) -> answer = Ok [JString query]) /\
     (forall item items, JSON_parse cleaned = Ok (JArray (item :: items)) ->
        answer = Ok (item :: items))).
Proof.
  intros attempt answer. unfold answer, decomposeQuery. fold attempt.
  split; [|split].
  - destruct attempt as [[text|e]|e]; simpl;
      try (eexists; split; [reflexivity|discriminate]).
    unfold parse_queries.
    destruct (JSON_parse _) as [[| | | |[|item items]|]|e]; simpl;
      eexists; (split; [reflexivity|discriminate]).
  - intros error [-> | ->]; reflexivity.
  - intros text ->. simpl. unfold parse_queries.
    set (cleaned := trim (strip_code_fence (trim text))).
    repeat split.
    + intros error ->. reflexivity.
    + intros value -> Hnot.
      destruct value; try reflexivity. now elim (Hnot items).
    + intros ->. reflexivity.
    + intros item items ->. reflexivity.
Qed.

(** ** Dropping duplicates *)

Section DistinctBy.

Context {A : Type}.
Variable same : A -> A -> bool.
Hypothesis same_refl : forall a, same a a = true.
Hypothesis same_sym : forall a b, same a b = same b a.
Hypothesis same_trans :
  forall a b c, same a b = true -> same b c = true -> same a c = true.

Lemma existsb_same_trans (a b : A) (l : list A) :
  same a b = true -> existsb (same b) l = true -> existsb (same a) l = true.
Proof.
  intros Hab Hb. apply existsb_exists in Hb. destruct Hb as (d & Hin & Hd).
  apply existsb_exists. exists d. split; [exact Hin|].
  exact (same_trans _ _ _ Hab Hd).
Qed.

(** How many kept rows are the same as [doc]: one if [rows] holds such a
    row and [seen] does not, none otherwise. *)
Lemma distinct_by_count (doc : A) (rows : list A) :
  forall seen,
    length (filter (same doc) (distinct_by same seen rows))
    = if existsb (same doc) seen then 0%nat
      else if existsb (same doc) rows then 1%nat else 0%nat.
Proof.
  induction rows as [|x rows IH]; intros seen; simpl.
  - now destruct (existsb (same doc) seen).
  - specialize (IH (seen ++ [x])).
    rewrite existsb_app in IH. simpl in IH. rewrite orb_false_r in IH.
    destruct (existsb (same x) seen) eqn:Hx;
      destruct (existsb (same doc) seen) eqn:Hdoc;
      destruct (same doc x) eqn:Hsame; simpl in *;
      rewrite ?Hsame; simpl; rewrite ?IH; try reflexivity.
    + exfalso.
      rewrite (existsb_same_trans doc x seen Hsame Hx) in Hdoc.
      discriminate.
    + exfalso. rewrite same_sym in Hsame.
      rewrite (existsb_same_trans x doc seen Hsame Hdoc) in Hx.
      discriminate.
Qed.

Lemma distinct_by_In (rows : list A) :
  forall seen d, In d (distinct_by same seen rows) -> In d rows.
Proof.
  induction rows as [|x rows IH]; intros seen d; simpl; [tauto|].
  destruct (existsb (same x) seen); simpl.
  - intros H. right. exact (IH _ _ H).
  - intros [->|H]; [now left|right; exact (IH _ _ H)].
Qed.

(** Every row is kept, or is the same as a row that is kept or seen. *)
Lemma distinct_by_covers (rows : list A) :
  forall seen d, In d rows ->
    existsb (same d) seen = true \/
    exists d', In d' (distinct_by same seen rows) /\ same d d' = true.
Proof.
  induction rows as [|x rows IH]; intros seen d; simpl; [tauto|].
  intros [->|Hin].
  - destruct (existsb (same d) seen) eqn:Hd; [now left|right].
    exists d. split; [now left|apply same_refl].
  - destruct (IH (seen ++ [x]) d Hin) as [Hseen|(d' & Hin' & Hd')].
    + rewrite existsb_app in Hseen. simpl in Hseen.
      rewrite orb_false_r in Hseen. apply orb_true_iff in Hseen.
      destruct Hseen as [Hseen|Hdx]; [now left|].
      destruct (existsb (same x) seen) eqn:Hx.
      * left. exact (existsb_same_trans d x seen Hdx Hx).
      * right. exists x. split; [now left|exact Hdx].
    + right. exists d'. split; [|exact Hd'].
      destruct (existsb (same x) seen); [exact Hin'|now right].
Qed.

End DistinctBy.

(** ** The chat route: merging the results of the sub-queries *)

Import ChatRoute.

Lemma jsstring_eqb_eq (a b : jsstring) : jsstring_eqb a b = true <-> a = b.
Proof.
  revert b. induction a as [|x a IH]; intros [|y b]; simpl;
    try (split; [discriminate|discriminate]); try tauto.
  rewrite andb_true_iff, N.eqb_eq, IH. split.
  - intros [-> ->]. reflexivity.
  - intros H. injection H as -> ->. split; reflexivity.
Qed.

Lemma same_chunk_key (doc d : search_row) :
  same_chunk doc d = true <-> chunk_key d = chunk_key doc.
Proof.
  unfold same_chunk, chunk_key.
  rewrite andb_true_iff, !jsstring_eqb_eq. split.
  - intros [-> ->]. reflexivity.
  - intros H. injection H as -> ->. split; reflexivity.
Qed.

Lemma existsb_same_chunk (doc : search_row) (l : list search_row) :
  existsb (same_chunk doc) l = true <->
  exists d, In d l /\ chunk_key d = chunk_key doc.
Proof.
  rewrite existsb_exists. split; intros (d & Hin & H); exists d;
    (split; [exact Hin|]); now apply same_chunk_key.
Qed.

(** The first index that passes, through a prefix. *)
Lemma findIndex_from_app {A : Type} (p : A -> bool) (pre l : list A) :
  forall i,
    if existsb p pre
    then Z.of_nat i <= findIndex_from p i (pre ++ l)
         < Z.of_nat i + Z.of_nat (length pre)
    else findIndex_from p i (pre ++ l)
         = findIndex_from p (i + length pre) l.
Proof.
  induction pre as [|x pre IH]; intros i; simpl.
  - now rewrite Nat.add_0_r.
  - destruct (p x); simpl; [lia|].
    specialize (IH (S i)). destruct (existsb p pre).
    + lia.
    + rewrite IH. f_equal. lia.
Qed.

(** [remove_duplicates] keeps a row when no earlier row has its key. *)
Lemma filter_from_distinct_by (pre suf : list search_row) :
  filter_from
    (fun doc index self => Z.of_nat index =? findIndex (same_chunk doc) self)
    (pre ++ suf) (length pre) suf
  = distinct_by same_chunk pre suf.
Proof.
  revert pre. induction suf as [|x suf IH]; intros pre; [reflexivity|].
  simpl. unfold findIndex.
  pose proof (findIndex_from_app (same_chunk x) pre (x :: suf) 0) as Hidx.
  assert (Hx : same_chunk x x = true) by now apply same_chunk_key.
  specialize (IH (pre ++ [x])).
  rewrite <- app_assoc, length_app, Nat.add_1_r in IH. simpl in IH.
  unfold findIndex in IH.
  destruct (existsb (same_chunk x) pre).
  - destruct (Z.eqb_spec (Z.of_nat (length pre))
                (findIndex_from (same_chunk x) 0 (pre ++ x :: suf))); [lia|].
    exact IH.
  - rewrite Hidx. simpl. rewrite Hx, Z.eqb_refl. now rewrite IH.
Qed.

Lemma remove_duplicates_distinct_by (l : list search_row) :
  remove_duplicates l = distinct_by same_chunk [] l.
Proof. exact (filter_from_distinct_by [] l). Qed.

Lemma same_chunk_sym (a b : search_row) : same_chunk a b = same_chunk b a.
Proof.
  destruct (same_chunk a b) eqn:Hab; destruct (same_chunk b a) eqn:Hba;
    try reflexivity.
  - apply same_chunk_key in Hab. symmetry in Hab.
    apply same_chunk_key in Hab. congruence.
  - apply same_chunk_key in Hba. symmetry in Hba.
    apply same_chunk_key in Hba. congruence.
Qed.

Lemma same_chunk_trans (a b c : search_row) :
  same_chunk a b = true -> same_chunk b c = true -> same_chunk a c = true.
Proof. rewrite !same_chunk_key. congruence. Qed.

Section MergedRetrieval.

Variable decomposeQuery : jsstring -> result (list Gemini.json).
Variable searchSimilarDocuments :
  Gemini.json -> nat -> result (list search_row).

(** When no search throws, the loop pushes the results of all
    sub-queries, in order. *)
Lemma search_each_all queries :
  forall relevantDocuments,
    (forall q, In q queries ->
       exists docs, searchSimilarDocuments q 5%nat = Ok docs) ->
    search_each searchSimilarDocuments queries relevantDocuments
    = (relevantDocuments
       ++ flat_map (fun q => match searchSimilarDocuments q 5%nat with
                             | Ok docs => docs
                             | Throw _ => []
                             end) queries,
       None).
Proof.
  induction queries as [|q queries IH]; intros acc Hall; simpl.
  - now rewrite app_nil_r.
  - destruct (Hall q (or_introl eq_refl)) as [docs Hq]. rewrite Hq.
    rewrite IH by (intros q' Hq'; apply Hall; now right).
    now rewrite <- app_assoc.
Qed.

End MergedRetrieval.

(** C7: when the searches of all decomposed queries return, the merged
    list holds, for every retrieved chunk, exactly one row with its
    (document id, content); so a chunk that two sub-queries both retrieved
    is there once.  Every row of the merged list is a retrieved row. *)
Theorem retrieve_deduplicates
  (decomposeQuery : jsstring -> result (list Gemini.json))
  (searchSimilarDocuments : Gemini.json -> nat -> result (list search_row))
  (message : jsstring) (queries : list Gemini.json) :
  decomposeQuery message = Ok queries ->
  (forall q, In q queries ->
     exists docs, searchSimilarDocuments q 5%nat = Ok docs) ->
  let merged := fst (retrieve decomposeQuery searchSimilarDocuments message) in
  (forall q docs doc,
     In q queries -> searchSimilarDocuments q 5%nat = Ok docs -> In doc docs ->
     exists kept,
       filter (same_chunk doc) merged = [kept] /\
       chunk_key kept = chunk_key doc) /\
  (forall d, In d merged ->
     exists q docs,
       In q queries /\ searchSimilarDocuments q 5%nat = Ok docs /\ In d docs).
Proof.
  intros Hdec Hall merged. unfold merged, retrieve. rewrite Hdec.
  rewrite search_each_all by exact Hall. cbn [fst app].
  rewrite remove_duplicates_distinct_by.
  set (all := flat_map _ queries).
  assert (Hsrc : forall d, In d all ->
            exists q docs, In q queries /\
              searchSimilarDocuments q 5%nat = Ok docs /\ In d docs).
  { intros d Hd. apply in_flat_map in Hd. destruct Hd as (q & Hq & Hd).
    destruct (searchSimilarDocuments q 5%nat) as [docs|e] eqn:E; [|easy].
    now exists q, docs. }
  split.
  - intros q docs doc Hq Hdocs Hdoc.
    assert (Hin : In doc all).
    { apply in_flat_map. exists q. split; [exact Hq|]. now rewrite Hdocs. }
    pose proof (distinct_by_count same_chunk same_chunk_sym same_chunk_trans doc
                  all []) as Hcount.
    simpl in Hcount.
    assert (Hex : existsb (same_chunk doc) all = true).
    { apply existsb_same_chunk. now exists doc. }
    rewrite Hex in Hcount.
    destruct (filter (same_chunk doc) (distinct_by same_chunk [] all))
      as [|kept [|]] eqn:Hf;
      try discriminate Hcount.
    exists kept. split; [reflexivity|].
    assert (Hk : In kept (filter (same_chunk doc)
                            (distinct_by same_chunk [] all)))
      by (rewrite Hf; now left).
    apply filter_In in Hk. now apply same_chunk_key.
  - intros d Hd. apply Hsrc. exact (distinct_by_In _ _ _ _ Hd).
Qed.

(** The hypotheses of [retrieve_deduplicates] hold on two sub-queries that
    both retrieve the chunk ["alpha"]: the merged list has it once. *)
Lemma retrieve_deduplicates_witness :
  fst (retrieve Samples.decompose_two Samples.search_two (lit "question"))
  = [Samples.row_alpha (9 # 10); Samples.row_beta]
  /\
  exists kept,
    filter (same_chunk (Samples.row_alpha (1 # 2)))
      (fst (retrieve Samples.decompose_two Samples.search_two
              (lit "question")))
    = [kept]
    /\ chunk_key kept = chunk_key (Samples.row_alpha (1 # 2)).
Proof.
  split; [reflexivity|].
  refine (proj1
    (retrieve_deduplicates Samples.decompose_two Samples.search_two
       (lit "question") Samples.two_queries eq_refl _)
    (Gemini.JString (lit "q2")) [Samples.row_alpha (1 # 2)]
    (Samples.row_alpha (1 # 2)) _ eq_refl _).
  - intros q [<-|[<-|[]]]; eexists; reflexivity.
  - right. left. reflexivity.
  - left. reflexivity.
Defined.

(** ** Sorting *)

Section SortBy.

Context {A : Type}.
Variable after : A -> A -> bool.

Lemma insert_sorted_In (x a : A) (l : list A) :
  In a (insert_sorted after x l) <-> a = x \/ In a l.
Proof.
  induction l as [|y l IH]; simpl.
  - intuition auto.
  - destruct (after x y); simpl; rewrite ?IH; intuition auto.
Qed.

Lemma sort_by_In (a : A) (l : list A) : In a (sort_by after l) <-> In a l.
Proof.
  induction l as [|x l IH]; simpl; [tauto|].
  rewrite insert_sorted_In, IH. intuition auto.
Qed.

Lemma insert_sorted_length (x : A) (l : list A) :
  length (insert_sorted after x l) = S (length l).
Proof.
  induction l as [|y l IH]; simpl; [reflexivity|].
  destruct (after x y); simpl; now rewrite ?IH.
Qed.

Lemma sort_by_length (l : list A) : length (sort_by after l) = length l.
Proof.
  induction l as [|x l IH]; simpl; [reflexivity|].
  now rewrite insert_sorted_length, IH.
Qed.

Lemma insert_sorted_filter_length (f : A -> bool) (x : A) (l : list A) :
  length (filter f (insert_sorted after x l)) = length (filter f (x :: l)).
Proof.
  induction l as [|y l IH]; simpl; [reflexivity|].
  destruct (after x y); simpl in *; [|reflexivity].
  destruct (f y); simpl; rewrite IH; destruct (f x); reflexivity.
Qed.

Lemma sort_by_filter_length (f : A -> bool) (l : list A) :
  length (filter f (sort_by after l)) = length (filter f l).
Proof.
  induction l as [|x l IH]; simpl; [reflexivity|].
  rewrite insert_sorted_filter_length. simpl.
  destruct (f x); simpl; now rewrite IH.
Qed.

(** [before a b]: [a] may stand before [b]. *)
Variable before : A -> A -> Prop.
Hypothesis before_trans :
  forall a b c, before a b -> before b c -> before a c.
Hypothesis after_true : forall x y, after x y = true -> before y x.
Hypothesis after_false : forall x y, after x y = false -> before x y.

Lemma insert_sorted_sorted (x : A) (l : list A) :
  StronglySorted before l -> StronglySorted before (insert_sorted after x l).
Proof.
  induction 1 as [|y l Hl IH Hy]; simpl.
  - constructor; constructor.
  - destruct (after x y) eqn:Hxy.
    + constructor; [exact IH|].
      apply Forall_forall. intros a Ha. apply insert_sorted_In in Ha.
      destruct Ha as [->|Ha]; [now apply after_true|].
      rewrite Forall_forall in Hy. now apply Hy.
    + apply after_false in Hxy.
      constructor; [now constructor|].
      constructor; [exact Hxy|].
      apply Forall_forall. intros a Ha. rewrite Forall_forall in Hy.
      exact (before_trans _ _ _ Hxy (Hy a Ha)).
Qed.

Lemma sort_by_sorted (l : list A) : StronglySorted before (sort_by after l).
Proof.
  induction l as [|x l IH]; simpl; [constructor|].
  now apply insert_sorted_sorted.
Qed.

End SortBy.

Lemma firstn_In {A : Type} (l : list A) :
  forall n a, In a (firstn n l) -> In a l.
Proof.
  induction l as [|x l IH]; intros [|n] a; simpl; try tauto.
  intros [->|H]; [now left|right; exact (IH _ _ H)].
Qed.

Lemma StronglySorted_firstn {A : Type} (R : A -> A -> Prop) (l : list A) :
  StronglySorted R l -> forall n, StronglySorted R (firstn n l).
Proof.
  induction 1 as [|x l Hl IH Hx]; intros [|n]; simpl; try constructor.
  - apply IH.
  - apply Forall_forall. intros a Ha. rewrite Forall_forall in Hx.
    apply Hx. exact (firstn_In _ _ _ Ha).
Qed.

Lemma firstn_filter_length {A : Type} (f : A -> bool) (l : list A) :
  forall n, (length (filter f (firstn n l)) <= length (filter f l))%nat.
Proof.
  induction l as [|x l IH]; intros [|n]; simpl; try lia.
  specialize (IH n). destruct (f x); simpl; lia.
Qed.

(** ** Hybrid search: [search_documents] *)

Lemma search_row_eqb_iff (a b : search_row) :
  search_row_eqb a b = true <->
  sr_id a = sr_id b /\ sr_document_id a = sr_document_id b /\
  sr_content a = sr_content b /\ sr_metadata a = sr_metadata b /\
  (sr_similarity a == sr_similarity b)%Q.
Proof.
  unfold search_row_eqb.
  rewrite !andb_true_iff, !jsstring_eqb_eq, Qeq_bool_iff. tauto.
Qed.

Lemma search_row_eqb_refl (a : search_row) : search_row_eqb a a = true.
Proof. apply search_row_eqb_iff. repeat split; reflexivity. Qed.

Lemma search_row_eqb_sym (a b : search_row) :
  search_row_eqb a b = search_row_eqb b a.
Proof.
  destruct (search_row_eqb a b) eqn:Hab; destruct (search_row_eqb b a) eqn:Hba;
    try reflexivity.
  - apply search_row_eqb_iff in Hab. destruct Hab as (H1 & H2 & H3 & H4 & H5).
    assert (search_row_eqb b a = true); [|congruence].
    apply search_row_eqb_iff. repeat split; try congruence; now symmetry.
  - apply search_row_eqb_iff in Hba. destruct Hba as (H1 & H2 & H3 & H4 & H5).
    assert (search_row_eqb a b = true); [|congruence].
    apply search_row_eqb_iff. repeat split; try congruence; now symmetry.
Qed.

Lemma search_row_eqb_trans (a b c : search_row) :
  search_row_eqb a b = true -> search_row_eqb b c = true ->
  search_row_eqb a c = true.
Proof.
  rewrite !search_row_eqb_iff.
  intros (H1 & H2 & H3 & H4 & H5) (K1 & K2 & K3 & K4 & K5).
  repeat split; try congruence. now rewrite H5.
Qed.

Lemma by_similarity_desc_sorted (l : list search_row) :
  StronglySorted (fun a b => sr_similarity b <= sr_similarity a)%Q
    (sort_by Sql.by_similarity_desc l).
Proof.
  apply sort_by_sorted.
  - intros a b c Hab Hbc. exact (Qle_trans _ _ _ Hbc Hab).
  - intros x y H. unfold Sql.by_similarity_desc in H.
    apply negb_true_iff in H.
    destruct (Qlt_le_dec (sr_similarity x) (sr_similarity y)) as [Hlt|Hle].
    + now apply Qlt_le_weak.
    + apply Qle_bool_iff in Hle. congruence.
  - intros x y H. unfold Sql.by_similarity_desc in H.
    apply negb_false_iff in H. now apply Qle_bool_iff.
Qed.

Lemma firstn_skipn_filter_length {A : Type} (f : A -> bool) (rows : list A)
  (n : nat) :
  (length (filter f (firstn n rows)) + length (filter f (skipn n rows))
   = length (filter f rows))%nat.
Proof.
  rewrite <- (firstn_skipn n rows) at 3.
  now rewrite filter_app, length_app.
Qed.

(** In a sorted list, what [firstn] keeps stands before what it cuts. *)
Lemma StronglySorted_cut {A : Type} (R : A -> A -> Prop) (rows : list A) :
  StronglySorted R rows ->
  forall n kept cut,
    In kept (firstn n rows) -> In cut (skipn n rows) -> R kept cut.
Proof.
  induction 1 as [|x rows Hrows IH Hx]; intros [|n] kept cut; simpl;
    try tauto.
  intros [<-|Hkept] Hcut.
  - rewrite Forall_forall in Hx. apply Hx.
    rewrite <- (firstn_skipn n rows). apply in_or_app. now right.
  - exact (IH n kept cut Hkept Hcut).
Qed.

Section HybridSearch.

Variable vector : Type.
Variable cosine_distance : vector -> vector -> Q.
Variable ilike : jsstring -> jsstring -> bool.
Variable db : Sql.tables vector.
Variable query_embedding : vector.
Variable user_id : jsstring.
Variable match_threshold : Q.
Variable match_count : nat.
Variable keyword_query : option jsstring.

Let vs :=
  Sql.vector_search vector cosine_distance db query_embedding user_id
    match_threshold match_count.
Let ks :=
  Sql.keyword_search vector ilike db user_id match_count keyword_query.
Let result :=
  Sql.search_documents vector cosine_distance ilike db query_embedding
    user_id match_threshold match_count keyword_query.

Lemma search_documents_length : (length result <= match_count)%nat.
Proof.
  unfold result, Sql.search_documents. rewrite length_firstn. lia.
Qed.

Lemma search_documents_sorted :
  StronglySorted (fun a b => sr_similarity b <= sr_similarity a)%Q result.
Proof.
  unfold result, Sql.search_documents.
  apply StronglySorted_firstn, by_similarity_desc_sorted.
Qed.

Lemma search_documents_from_sets (r : search_row) :
  In r result -> In r vs \/ In r ks.
Proof.
  unfold result, Sql.search_documents, Sql.sql_union. intros H.
  apply firstn_In, sort_by_In, distinct_by_In, in_app_or in H. exact H.
Qed.

Lemma search_documents_distinct (r : search_row) :
  (length (filter (search_row_eqb r) result) <= 1)%nat.
Proof.
  unfold result, Sql.search_documents, Sql.sql_union.
  etransitivity; [apply firstn_filter_length|].
  rewrite sort_by_filter_length.
  rewrite (distinct_by_count search_row_eqb search_row_eqb_sym
             search_row_eqb_trans).
  simpl. destruct (existsb _ _); lia.
Qed.

Lemma keyword_search_similarity (r : search_row) :
  In r ks -> sr_similarity r = 7 # 10.
Proof.
  unfold ks, Sql.keyword_search. intros H. apply in_map_iff in H.
  destruct H as (row & <- & _). reflexivity.
Qed.

Lemma search_documents_complete (r : search_row) :
  (length (Sql.sql_union vs ks) <= match_count)%nat ->
  In r vs \/ In r ks ->
  exists r', In r' result /\ search_row_eqb r r' = true.
Proof.
  intros Hfit Hin.
  destruct (distinct_by_covers search_row_eqb search_row_eqb_refl
              search_row_eqb_trans (vs ++ ks) [] r)
    as [Hseen|(r' & Hr' & Heq)].
  - apply in_or_app. exact Hin.
  - discriminate.
  - exists r'. split; [|exact Heq].
    unfold result, Sql.search_documents. fold vs ks.
    rewrite firstn_all2 by (rewrite sort_by_length; exact Hfit).
    apply sort_by_In. exact Hr'.
Qed.

Lemma sql_union_from_sets (r : search_row) :
  In r (Sql.sql_union vs ks) -> In r vs \/ In r ks.
Proof.
  unfold Sql.sql_union. intros H.
  apply distinct_by_In, in_app_or in H. exact H.
Qed.

Lemma sql_union_covers (r : search_row) :
  In r vs \/ In r ks ->
  exists r', In r' (Sql.sql_union vs ks) /\ search_row_eqb r r' = true.
Proof.
  intros Hin.
  destruct (distinct_by_covers search_row_eqb search_row_eqb_refl
              search_row_eqb_trans (vs ++ ks) [] r)
    as [Hseen|H]; [apply in_or_app; exact Hin|discriminate|exact H].
Qed.

Lemma sql_union_distinct (r : search_row) :
  (length (filter (search_row_eqb r) (Sql.sql_union vs ks)) <= 1)%nat.
Proof.
  unfold Sql.sql_union.
  rewrite (distinct_by_count search_row_eqb search_row_eqb_sym
             search_row_eqb_trans).
  simpl. destruct (existsb _ _); lia.
Qed.

(** The [limit] keeps as many rows of the sorted union as it may, and no
    row that it cuts has a higher similarity than a row that it keeps. *)
Lemma search_documents_truncation :
  length result = Nat.min match_count (length (Sql.sql_union vs ks)) /\
  exists dropped,
    (forall f : search_row -> bool,
       (length (filter f result) + length (filter f dropped)
        = length (filter f (Sql.sql_union vs ks)))%nat) /\
    (forall kept cut, In kept result -> In cut dropped ->
       (sr_similarity cut <= sr_similarity kept)%Q).
Proof.
  unfold result, Sql.search_documents. fold vs ks.
  set (sorted := sort_by Sql.by_similarity_desc (Sql.sql_union vs ks)).
  split.
  - rewrite length_firstn. unfold sorted. now rewrite sort_by_length.
  - exists (skipn match_count sorted). split.
    + intros f. rewrite firstn_skipn_filter_length.
      unfold sorted. apply sort_by_filter_length.
    + intros kept cut Hkept Hcut.
      exact (StronglySorted_cut _ sorted
               (by_similarity_desc_sorted (Sql.sql_union vs ks))
               match_count kept cut Hkept Hcut).
Qed.

End HybridSearch.

(** C2, as the code has it: the result of [search_documents] is the SQL
    [union] of the vector set and the keyword set, sorted by similarity
    descending and cut to [match_count] rows.  The union holds the rows of
    the two sets and no others, those that are equal on all five columns
    once.  The result holds [match_count] rows of the union, or all of
    them when they are fewer; the rows that are cut are the other rows of
    the union, and none of them has a higher similarity than a row that
    is kept; which of several rows with the same similarity is kept is
    left open.  Keyword rows carry the score 0.7.  Rows are merged only
    when they agree on the similarity as well: when nothing is cut, a
    chunk of both sets whose vector score is not 0.7 is in the result
    twice, once with each score.  The cosine distances are numbers: no
    similarity is [NaN]. *)
Theorem search_documents_hybrid_union (vector : Type)
  (cosine_distance : vector -> vector -> Q)
  (ilike : jsstring -> jsstring -> bool) (db : Sql.tables vector)
  (query_embedding : vector) (user_id : jsstring) (match_threshold : Q)
  (match_count : nat) (keyword_query : option jsstring) :
  let vs :=
    Sql.vector_search vector cosine_distance db query_embedding user_id
      match_threshold match_count in
  let ks :=
    Sql.keyword_search vector ilike db user_id match_count keyword_query in
  let union := Sql.sql_union vs ks in
  let result :=
    Sql.search_documents vector cosine_distance ilike db query_embedding
      user_id match_threshold match_count keyword_query in
  (length result <= match_count)%nat /\
  StronglySorted (fun a b => sr_similarity b <= sr_similarity a)%Q result /\
  (forall r, In r result -> In r vs \/ In r ks) /\
  (forall r, In r ks -> sr_similarity r = 7 # 10) /\
  (forall r, (length (filter (search_row_eqb r) result) <= 1)%nat) /\
  ((length union <= match_count)%nat ->
   (forall r, In r vs \/ In r ks ->
      exists r', In r' result /\ search_row_eqb r r' = true) /\
   (forall rv rk,
      In rv vs -> In rk ks -> sr_id rv = sr_id rk ->
      ~ (sr_similarity rv == 7 # 10)%Q ->
      exists r1 r2,
        In r1 result /\ In r2 result /\
        sr_id r1 = sr_id rv /\ sr_id r2 = sr_id rv /\
        (sr_similarity r1 == sr_similarity rv)%Q /\
        (sr_similarity r2 == 7 # 10)%Q /\
        search_row_eqb r1 r2 = false)) /\
  (forall r, In r union -> In r vs \/ In r ks) /\
  (forall r, In r vs \/ In r ks ->
     exists r', In r' union /\ search_row_eqb r r' = true) /\
  (forall r, (length (filter (search_row_eqb r) union) <= 1)%nat) /\
  length result = Nat.min match_count (length union) /\
  exists dropped,
    (forall f : search_row -> bool,
       (length (filter f result) + length (filter f dropped)
        = length (filter f union))%nat) /\
    (forall kept cut, In kept result -> In cut dropped ->
       (sr_similarity cut <= sr_similarity kept)%Q).
Proof.
  intros vs ks union result.
  split; [apply search_documents_length|].
  split; [apply search_documents_sorted|].
  split; [apply search_documents_from_sets|].
  split; [apply keyword_search_similarity|].
  split; [apply search_documents_distinct|].
  split.
  { intros Hfit. split; [intros r; now apply search_documents_complete|].
    intros rv rk Hv Hk Hid Hne.
    destruct (search_documents_complete vector cosine_distance ilike db
                query_embedding user_id match_threshold match_count
                keyword_query rv Hfit (or_introl Hv)) as (r1 & Hr1 & E1).
    destruct (search_documents_complete vector cosine_distance ilike db
                query_embedding user_id match_threshold match_count
                keyword_query rk Hfit (or_intror Hk)) as (r2 & Hr2 & E2).
    apply search_row_eqb_iff in E1. destruct E1 as (A1 & _ & _ & _ & A5).
    apply search_row_eqb_iff in E2. destruct E2 as (B1 & _ & _ & _ & B5).
    pose proof (keyword_search_similarity vector ilike db user_id
                  match_count keyword_query rk Hk) as Hs.
    exists r1, r2.
    split; [exact Hr1|]. split; [exact Hr2|].
    split; [congruence|]. split; [congruence|].
    split; [now symmetry|]. split; [rewrite <- B5, Hs; reflexivity|].
    destruct (search_row_eqb r1 r2) eqn:E; [|reflexivity].
    exfalso. apply search_row_eqb_iff in E. destruct E as (_ & _ & _ & _ & E).
    apply Hne. rewrite A5, E, <- B5, Hs. reflexivity. }
  split; [apply sql_union_from_sets|].
  split; [apply sql_union_covers|].
  split; [apply sql_union_distinct|].
  apply search_documents_truncation.
Qed.

(** C2 as the specification words it fails: the chunk [e1] is in the
    vector set (score 0.9) and in the keyword set (score 0.7), and the
    result of [search_documents] holds it twice, once with each score. *)
Lemma search_documents_keeps_both_scores :
  Sql.vector_search unit Samples.distance_tenth Samples.one_chunk tt
    (lit "u1") 0 10 = [Samples.chunk_e1 (9 # 10)]
  /\
  Sql.keyword_search unit Samples.ilike_alpha Samples.one_chunk (lit "u1") 10
    (Some (lit "alpha"))
  = [Samples.chunk_e1 (7 # 10)]
  /\
  Sql.search_documents unit Samples.distance_tenth Samples.ilike_alpha
    Samples.one_chunk tt (lit "u1") 0 10 (Some (lit "alpha"))
  = [Samples.chunk_e1 (9 # 10); Samples.chunk_e1 (7 # 10)]
  /\
  ~ NoDup
      (map sr_id
         (Sql.search_documents unit Samples.distance_tenth
            Samples.ilike_alpha Samples.one_chunk tt (lit "u1") 0 10
            (Some (lit "alpha")))).
Proof.
  repeat split; try (vm_compute; reflexivity).
  intros H. vm_compute in H. inversion H as [|x l Hnotin _]; subst.
  apply Hnotin. left. reflexivity.
Qed.

(** ** Retrieval: the fallbacks of [searchSimilarDocuments] *)

Import Embeddings.

Section RetrievalFallbacks.

Variable number : Type.
Variable zero : number.
Variables add mul div : number -> number -> number.
Variables Math_sqrt Math_sin : number -> number.
Variable of_N : N -> number.
Variables tenth half : number.
Variable gt : number -> number -> bool.
Variable featureExtraction : jsstring -> nat -> result (hf_response number).
Variable random : nat -> Q.
Variable cosine_distance : list number -> list number -> Q.
Variable ilike : jsstring -> jsstring -> bool.

Let embed :=
  generateEmbedding number zero add mul div Math_sqrt Math_sin of_N tenth
    half gt featureExtraction random.
Let search :=
  searchSimilarDocuments number zero add mul div Math_sqrt Math_sin of_N
    tenth half gt featureExtraction random cosine_distance ilike.

(** [generateEmbedding] never throws: its [catch] returns the fallback. *)
Lemma generateEmbedding_returns (text : jsstring) :
  exists embedding model, embed text = Ok (embedding, model).
Proof.
  unfold embed, generateEmbedding.
  destruct (fst (retryWithBackoff (featureExtraction text) random
                   default_maxRetries default_baseDelay))
    as [[v|[|first rest]]|e]; simpl; eauto.
  - destruct v; simpl; eauto.
  - destruct first; simpl; eauto.
Qed.

Lemma most_recent_first_sorted (rows : list (stored_row number)) :
  StronglySorted
    (fun a b => Sql.d_created_at (snd b) <= Sql.d_created_at (snd a))
    (most_recent_first number rows).
Proof.
  apply sort_by_sorted.
  - intros a b c Hab Hbc. lia.
  - intros x y H. apply Z.ltb_lt in H. lia.
  - intros x y H. apply Z.ltb_ge in H. exact H.
Qed.

Variable s : supabase number.
Variables query userId : jsstring.
Variable limit : nat.
Variable keyword : option jsstring.

(** The RPC returns an error: the rows of the existence check. *)
Lemma search_rpc_error (e : js_error) :
  throws (check_health number s) = false ->
  rpc_health number s = ReturnsError e ->
  search s query userId limit keyword
  = Ok (match check_health number s with
        | Healthy => map (mock_row number)
                       (firstn 5 (rows_of_user number s userId))
        | _ => []
        end).
Proof.
  intros Hcheck Hrpc. unfold search, searchSimilarDocuments.
  destruct (generateEmbedding_returns query) as (embedding & model & Hq).
  unfold embed in Hq. rewrite Hq.
  simpl. rewrite Hrpc.
  destruct (check_health number s); simpl in *; try reflexivity.
  discriminate.
Qed.

(** A request throws: the most recent rows, when that request works. *)
Lemma search_exception :
  throws (check_health number s) = true
  \/ throws (rpc_health number s) = true ->
  recent_health number s = Healthy ->
  search s query userId limit keyword
  = Ok (map (mock_row number)
          (firstn limit
             (most_recent_first number (rows_of_user number s userId)))).
Proof.
  intros Hthrow Hrecent. unfold search, searchSimilarDocuments.
  destruct (generateEmbedding_returns query) as (embedding & model & Hq).
  unfold embed in Hq. rewrite Hq.
  simpl. rewrite Hrecent.
  destruct (check_health number s) as [| |e1]; simpl in *.
  - destruct (rpc_health number s); simpl in *;
      try reflexivity; destruct Hthrow; discriminate.
  - destruct (rpc_health number s); simpl in *;
      try reflexivity; destruct Hthrow; discriminate.
  - reflexivity.
Qed.

End RetrievalFallbacks.

(** C10: when the hybrid-search RPC returns an error and the existence
    check did not throw, [searchSimilarDocuments] returns the rows of that
    check: the first five rows of the user in the order the datastore gave
    them, whatever [limit] is, each with similarity 0.5 (and no row when
    the check itself returned an error).  When a request throws instead,
    and the fallback request works, it returns the [limit] rows that come
    first by document creation time, newest first, each with similarity
    0.5. *)
Theorem searchSimilarDocuments_fallbacks (number : Type) (zero : number)
  (add mul div : number -> number -> number)
  (Math_sqrt Math_sin : number -> number) (of_N : N -> number)
  (tenth half : number) (gt : number -> number -> bool)
  (featureExtraction : jsstring -> nat -> result (hf_response number))
  (random : nat -> Q) (cosine_distance : list number -> list number -> Q)
  (ilike : jsstring -> jsstring -> bool)
  (s : supabase number) (query userId : jsstring) (limit : nat)
  (keyword : option jsstring) :
  let answer :=
    searchSimilarDocuments number zero add mul div Math_sqrt Math_sin of_N
      tenth half gt featureExtraction random cosine_distance ilike s query
      userId limit keyword in
  (forall e,
     throws (check_health number s) = false ->
     rpc_health number s = ReturnsError e ->
     exists rows,
       answer = Ok rows /\
       (length rows <= 5)%nat /\
       Forall (fun r => sr_similarity r = 1 # 2) rows /\
       (check_health number s = Healthy ->
        rows = map (mock_row number)
                 (firstn 5 (rows_of_user number s userId)))) /\
  (throws (check_health number s) = true
   \/ throws (rpc_health number s) = true ->
   recent_health number s = Healthy ->
   exists recent,
     answer = Ok (map (mock_row number) recent) /\
     recent = firstn limit
                (most_recent_first number (rows_of_user number s userId)) /\
     (length recent <= limit)%nat /\
     StronglySorted
       (fun a b => Sql.d_created_at (snd b) <= Sql.d_created_at (snd a))
       recent /\
     Forall (fun r => sr_similarity r = 1 # 2) (map (mock_row number) recent)).
Proof.
  intros answer. split.
  - intros e Hcheck Hrpc. unfold answer.
    rewrite (search_rpc_error _ _ _ _ _ _ _ _ _ _ _ _ _ _ _ _ _ _ _ _ e Hcheck
               Hrpc).
    eexists. split; [reflexivity|].
    set (rows5 := firstn 5 (rows_of_user number s userId)).
    assert (Hrows5 : (length rows5 <= 5)%nat)
      by (unfold rows5; rewrite length_firstn; lia).
    destruct (check_health number s); simpl.
    + split; [|split].
      * rewrite length_map. exact Hrows5.
      * apply Forall_forall. intros r Hr. apply in_map_iff in Hr.
        destruct Hr as (row & <- & _). reflexivity.
      * reflexivity.
    + repeat split; try lia; try constructor. discriminate.
    + discriminate.
  - intros Hthrow Hrecent. unfold answer.
    rewrite (search_exception _ _ _ _ _ _ _ _ _ _ _ _ _ _ _ _ _ _ _ _ Hthrow
               Hrecent).
    eexists. split; [reflexivity|]. split; [reflexivity|]. split; [|split].
    + rewrite length_firstn. lia.
    + apply StronglySorted_firstn, most_recent_first_sorted.
    + apply Forall_forall. intros r Hr. apply in_map_iff in Hr.
      destruct Hr as (row & <- & _). reflexivity.
Qed.

(** A concrete run: six chunks of one user, stored oldest first, and
    [limit = 2].  The error path returns the first five in storage order;
    the exception path returns the two newest. *)
Lemma searchSimilarDocuments_fallbacks_sample :
  map sr_id
    (match Samples.search_with Healthy (ReturnsError (Error (lit "PGRST202")))
       with Ok rows => rows | Throw _ => [] end)
  = [lit "e1"; lit "e2"; lit "e3"; lit "e4"; lit "e5"]
  /\
  map sr_id
    (match Samples.search_with Healthy (Throws (Error (lit "fetch failed")))
       with Ok rows => rows | Throw _ => [] end)
  = [lit "e6"; lit "e5"].
Proof. split; vm_compute; reflexivity. Qed.

(** ** The fallback embedding *)

Lemma map_nth_seq {A : Type} (d : A) (l : list A) :
  map (fun j => nth j l d) (seq 0 (length l)) = l.
Proof.
  induction l as [|x l IH]; [reflexivity|].
  simpl. f_equal. rewrite <- seq_shift, map_map. exact IH.
Qed.

Lemma add_at_length {A : Type} (add : A -> A -> A) (x : A) (l : list A) :
  forall index, length (add_at add index x l) = length l.
Proof.
  induction l as [|y l IH]; intros [|index]; simpl; auto.
Qed.

Lemma add_at_nth {A : Type} (add : A -> A -> A) (x d : A) (l : list A) :
  forall index j, (j < length l)%nat ->
    nth j (add_at add index x l) d
    = if Nat.eqb index j then add (nth j l d) x else nth j l d.
Proof.
  induction l as [|y l IH]; intros index j Hj; simpl in Hj; [lia|].
  destruct index as [|index], j as [|j]; simpl; try reflexivity.
  apply IH. lia.
Qed.

Section FallbackEmbedding.

Variable number : Type.
Variable zero : number.
Variables add mul div : number -> number -> number.
Variables Math_sqrt Math_sin : number -> number.
Variable of_N : N -> number.
Variables tenth half : number.
Variable gt : number -> number -> bool.
Variable number_eq_dec : forall x y : number, {x = y} + {x <> y}.

Let accumulate := accumulate number add mul Math_sin of_N tenth half.
Let reference_component :=
  reference_component number add mul Math_sin of_N tenth half.
Let reference_accumulated :=
  reference_accumulated number zero add mul Math_sin of_N tenth half.
Let euclidean_norm := euclidean_norm number zero add mul Math_sqrt.

Lemma accumulate_length (text : jsstring) :
  forall i embedding,
    length (accumulate text i embedding) = length embedding.
Proof.
  induction text as [|c text IH]; intros i embedding; simpl; [reflexivity|].
  unfold accumulate in *. simpl. rewrite IH. apply add_at_length.
Qed.

(** The loop adds to component [j] what the reference sum adds. *)
Lemma accumulate_components (text : jsstring) :
  forall i embedding,
    accumulate text i embedding
    = map (fun j => reference_component j text i (nth j embedding zero))
        (seq 0 (length embedding)).
Proof.
  induction text as [|c text IH]; intros i embedding.
  - simpl. symmetry. apply map_nth_seq.
  - unfold accumulate, reference_component in *. simpl.
    rewrite IH, add_at_length. apply map_ext_in.
    intros j Hj. apply in_seq in Hj.
    rewrite add_at_nth by lia. reflexivity.
Qed.

Lemma accumulate_reference (text : jsstring) :
  accumulate text 0%nat (repeat zero 384) = reference_accumulated text.
Proof.
  rewrite accumulate_components, repeat_length.
  unfold reference_accumulated, Embeddings.reference_accumulated.
  apply map_ext_in. intros j Hj. now rewrite nth_repeat.
Qed.

Variable text : jsstring.

(** What the normalisation rests on: the norm of the accumulated vector is
    positive or zero, and zero only when the vector is the zero vector. *)
Hypothesis norm_sign :
  gt (euclidean_norm (reference_accumulated text)) zero = true
  <-> euclidean_norm (reference_accumulated text) <> zero.
Hypothesis norm_zero :
  euclidean_norm (reference_accumulated text) = zero ->
  Forall (fun x => x = zero) (reference_accumulated text).

Lemma fallback_embedding_reference :
  generateDeterministicEmbedding number zero add mul div Math_sqrt Math_sin
    of_N tenth half gt text
  = embedding_reference number zero add mul div Math_sqrt Math_sin of_N
      tenth half number_eq_dec text.
Proof.
  unfold generateDeterministicEmbedding, embedding_reference.
  fold accumulate reference_accumulated.
  rewrite accumulate_reference.
  assert (Hlen : length (reference_accumulated text) = 384%nat).
  { rewrite <- accumulate_reference, accumulate_length.
    apply repeat_length. }
  revert norm_sign norm_zero Hlen.
  generalize (reference_accumulated text). intros v Hs Hzero Hlen.
  change (magnitude_of number zero add mul Math_sqrt v)
    with (euclidean_norm v).
  change (Embeddings.euclidean_norm number zero add mul Math_sqrt v)
    with (euclidean_norm v).
  destruct (number_eq_dec (euclidean_norm v) zero) as [Hz|Hnz].
  - destruct (gt (euclidean_norm v) zero) eqn:Hgt.
    + exfalso. now apply Hs.
    + specialize (Hzero Hz). rewrite <- Hlen. clear Hlen Hs Hgt Hz.
      induction Hzero as [|x v Hx Hv IH]; simpl; [reflexivity|].
      subst x. f_equal. exact IH.
  - apply Hs in Hnz. rewrite Hnz. reflexivity.
Qed.

End FallbackEmbedding.

(** C5: [generateDeterministicEmbedding] equals the reference definition
    of the fallback embedding: from the zero vector of length 384, every
    position [i] of the text, with code unit [c], adds [sin(c * 0.1) * 0.5]
    to component [(c + i) mod 384]; the vector is then divided by its
    Euclidean norm, and is the zero vector when the norm is 0.  The
    accumulation agrees whatever the number operations compute; the
    normalisation agrees when the norm of the accumulated vector is
    positive or zero, and zero only for the zero vector, as it is in exact
    arithmetic. *)
Theorem generateDeterministicEmbedding_reference (number : Type)
  (zero : number) (add mul div : number -> number -> number)
  (Math_sqrt Math_sin : number -> number) (of_N : N -> number)
  (tenth half : number) (gt : number -> number -> bool)
  (number_eq_dec : forall x y : number, {x = y} + {x <> y})
  (text : jsstring) :
  let v :=
    reference_accumulated number zero add mul Math_sin of_N tenth half text in
  let norm := euclidean_norm number zero add mul Math_sqrt v in
  (gt norm zero = true <-> norm <> zero) ->
  (norm = zero -> Forall (fun x => x = zero) v) ->
  accumulate number add mul Math_sin of_N tenth half text 0%nat
    (repeat zero 384)
  = v
  /\
  generateDeterministicEmbedding number zero add mul div Math_sqrt Math_sin
    of_N tenth half gt text
  = embedding_reference number zero add mul div Math_sqrt Math_sin of_N
      tenth half number_eq_dec text
  /\
  length (generateDeterministicEmbedding number zero add mul div Math_sqrt
            Math_sin of_N tenth half gt text) = 384%nat.
Proof.
  intros v norm norm_sign norm_zero. split; [apply accumulate_reference|].
  split; [now apply fallback_embedding_reference|].
  unfold generateDeterministicEmbedding.
  match goal with |- context [if ?c then _ else _] => destruct c end;
    rewrite ?length_map, accumulate_length; apply repeat_length.
Qed.

(** *** The real numbers satisfy the two laws *)

Import RealNumbers.

Lemma real_norm_sign (x : R) :
  real_gt (sqrt x) 0%R = true <-> sqrt x <> 0%R.
Proof.
  unfold real_gt. pose proof (sqrt_pos x).
  destruct (Rlt_dec 0 (sqrt x)); split; intros; try reflexivity;
    try discriminate; lra.
Qed.

Lemma real_sum_squares (v : list R) :
  forall a, (0 <= a)%R ->
    (a <= fold_left (fun s x => s + x * x) v a)%R /\
    (fold_left (fun s x => s + x * x) v a = 0 ->
     Forall (fun x => x = 0) v)%R.
Proof.
  induction v as [|x v IH]; intros a Ha; simpl.
  - split; [lra|constructor].
  - destruct (IH (a + x * x)%R) as [Hle Hzero]; [nra|]. split; [nra|].
    intros H. specialize (Hzero H). constructor; [nra|exact Hzero].
Qed.

Lemma real_norm_zero (v : list R) :
  euclidean_norm R 0%R Rplus Rmult sqrt v = 0%R ->
  Forall (fun x => x = 0%R) v.
Proof.
  unfold euclidean_norm. intros Hz.
  destruct (real_sum_squares v 0%R) as [Hle Hzero]; [lra|].
  apply Hzero. now apply sqrt_eq_0.
Qed.

(** The hypotheses of [generateDeterministicEmbedding_reference] hold of
    the real numbers, here on the text ["ab"]. *)
Lemma generateDeterministicEmbedding_reference_witness :
  generateDeterministicEmbedding R 0%R Rplus Rmult Rdiv sqrt sin real_of_N
    (1 / 10)%R (1 / 2)%R real_gt (lit "ab")
  = embedding_reference R 0%R Rplus Rmult Rdiv sqrt sin real_of_N
      (1 / 10)%R (1 / 2)%R Req_dec_T (lit "ab").
Proof.
  exact (proj1 (proj2
    (generateDeterministicEmbedding_reference R 0%R Rplus Rmult Rdiv sqrt sin
       real_of_N (1 / 10)%R (1 / 2)%R real_gt Req_dec_T (lit "ab")
       (real_norm_sign _) (real_norm_zero _)))).
Defined.

(** ** The extraction dispatcher *)

Section Extraction.

Variable fetch : jsstring -> result Response.
Variable mammoth_extractRawText : list N -> result jsstring.
Variable csv_parse : jsstring -> result (list (list (jsstring * jsstring))).
Variable XLSX_sheets :
  list N -> result (list (jsstring * list (list jsstring))).
Variable notebook_cells : jsstring -> result (list notebook_cell).
Variable remove_markup : jsstring -> jsstring.
Variable fileUrl : jsstring.

Let extract :=
  extractTextFromFile fetch mammoth_extractRawText csv_parse XLSX_sheets
    notebook_cells remove_markup fileUrl.
Let fileName := file_name fileUrl.
Let rethrow (error : js_error) : result (list DocumentChunk) :=
  Throw (extraction_error fileName error).

Lemma dispatch_pdf :
  extract type_pdf
  = try_catch
      (extractTextFromPDF fetch mammoth_extractRawText fileUrl fileName)
      rethrow.
Proof. reflexivity. Qed.

Lemma dispatch_docx :
  extract type_docx
  = try_catch
      (extractTextFromDOCX fetch mammoth_extractRawText fileUrl fileName)
      rethrow.
Proof. reflexivity. Qed.

Lemma dispatch_pptx :
  extract type_pptx
  = try_catch (extractTextFromPPTX fileUrl fileName) rethrow.
Proof. reflexivity. Qed.

Lemma dispatch_jpeg :
  extract type_jpeg
  = try_catch (extractTextFromImage fileUrl fileName) rethrow.
Proof. reflexivity. Qed.

Lemma dispatch_png :
  extract type_png
  = try_catch (extractTextFromImage fileUrl fileName) rethrow.
Proof. reflexivity. Qed.

Lemma mapi_nonempty {A B : Type} (f : A -> nat -> B) (l : list A) :
  l <> [] -> mapi f l <> [].
Proof. destruct l; [congruence|discriminate]. Qed.

(** The PDF extractor returns at least one chunk, and the diagnostic
    chunk when the download or the parser fails. *)
Lemma extractTextFromPDF_total :
  exists chunks,
    extractTextFromPDF fetch mammoth_extractRawText fileUrl fileName
    = Ok chunks /\
    chunks <> [] /\
    (forall error,
       fetchFileContent fetch fileUrl = Throw error
       \/ (exists response,
             fetchFileContent fetch fileUrl = Ok response /\
             mammoth_extractRawText (body_arrayBuffer response)
             = Throw error) ->
       chunks = [pdf_failed_chunk fileName (err_message error)]).
Proof.
  unfold extractTextFromPDF.
  destruct (fetchFileContent fetch fileUrl) as [response|e] eqn:Hfetch;
    simpl.
  - destruct (mammoth_extractRawText (body_arrayBuffer response))
      as [text|e] eqn:Hparse; simpl.
    + destruct (truthy (trim text)); simpl.
      * destruct (filter nonblank (split_blank_lines text [] 0%nat))
          as [|chunk chunks] eqn:Hchunks;
          (eexists; split; [reflexivity|]; split; [discriminate|]);
          intros error [H|(r & Hr & H)]; try discriminate;
          injection Hr as <-; congruence.
      * eexists. split; [reflexivity|]. split; [discriminate|].
        intros error [H|(r & Hr & H)]; try discriminate.
        injection Hr as <-. congruence.
    + eexists. split; [reflexivity|]. split; [discriminate|].
      intros error [H|(r & Hr & H)]; [discriminate|].
      injection Hr as <-. congruence.
  - eexists. split; [reflexivity|]. split; [discriminate|].
    intros error [H|(r & Hr & H)]; [congruence|discriminate].
Qed.

(** Every branch but PDF, PPTX and the images starts with the download,
    and its failure leaves through the [catch] of the dispatcher. *)
Lemma dispatch_fetch_failure (fileType : jsstring) (error : js_error) :
  fileType <> type_pdf -> fileType <> type_pptx ->
  fileType <> type_jpeg -> fileType <> type_png ->
  fetchFileContent fetch fileUrl = Throw error ->
  extract fileType = rethrow error.
Proof.
  intros Hpdf Hpptx Hjpeg Hpng Hfetch.
  unfold extract, extractTextFromFile.
  destruct (jsstring_eqb fileType type_pdf) eqn:E1;
    [apply jsstring_eqb_eq in E1; contradiction|].
  unfold extractTextFromDOCX, extractTextFromHTML, extractTextFromCSV,
    extractTextFromXLSX, extractTextFromNotebook, extractTextFromPlainText.
  rewrite Hfetch.
  destruct (jsstring_eqb fileType type_docx); [reflexivity|].
  destruct (jsstring_eqb fileType type_html); [reflexivity|].
  destruct (jsstring_eqb fileType type_csv); [reflexivity|].
  destruct (jsstring_eqb fileType type_xlsx); [reflexivity|].
  destruct (jsstring_eqb fileType type_pptx) eqn:E6;
    [apply jsstring_eqb_eq in E6; contradiction|].
  destruct (jsstring_eqb fileType type_ipynb); [reflexivity|].
  destruct (jsstring_eqb fileType type_jpeg) eqn:E8;
    [apply jsstring_eqb_eq in E8; contradiction|].
  destruct (jsstring_eqb fileType type_png) eqn:E9;
    [apply jsstring_eqb_eq in E9; contradiction|].
  reflexivity.
Qed.

End Extraction.

(** C1, as the code has it.  For a PDF, [extractTextFromFile] never raises
    and never returns zero chunks, and when the download or the parser
    fails it returns exactly one diagnostic chunk whose metadata has
    [processingStatus: 'failed'].  A presentation or an image gives exactly
    one placeholder chunk, without that mark.  For every other media type
    a failed download is raised past the dispatcher as the error "Failed to
    extract text from <file name>: <message>", and so is a failure of the
    DOCX parser; a DOCX text without a non-blank paragraph gives zero
    chunks. *)
Theorem extractTextFromFile_by_type
  (fetch : jsstring -> result Response)
  (mammoth_extractRawText : list N -> result jsstring)
  (csv_parse : jsstring -> result (list (list (jsstring * jsstring))))
  (XLSX_sheets : list N -> result (list (jsstring * list (list jsstring))))
  (notebook_cells : jsstring -> result (list notebook_cell))
  (remove_markup : jsstring -> jsstring) (fileUrl : jsstring) :
  let extract :=
    extractTextFromFile fetch mammoth_extractRawText csv_parse XLSX_sheets
      notebook_cells remove_markup fileUrl in
  let fileName := file_name fileUrl in
  let download := fetchFileContent fetch fileUrl in
  (exists chunks,
     extract type_pdf = Ok chunks /\ chunks <> [] /\
     (forall error,
        download = Throw error
        \/ (exists response,
              download = Ok response /\
              mammoth_extractRawText (body_arrayBuffer response) = Throw error) ->
        chunks = [pdf_failed_chunk fileName (err_message error)])) /\
  (forall message,
     meta_get "processingStatus" (metadata (pdf_failed_chunk fileName message))
     = Some (MStr (lit "failed"))) /\
  (forall fileType,
     fileType = type_pptx \/ fileType = type_jpeg \/ fileType = type_png ->
     exists chunk,
       extract fileType = Ok [chunk] /\
       meta_get "processingStatus" (metadata chunk) = None) /\
  (forall fileType error,
     fileType <> type_pdf -> fileType <> type_pptx ->
     fileType <> type_jpeg -> fileType <> type_png ->
     download = Throw error ->
     extract fileType = Throw (extraction_error fileName error)) /\
  (forall response error,
     download = Ok response ->
     mammoth_extractRawText (body_arrayBuffer response) = Throw error ->
     extract type_docx = Throw (extraction_error fileName error)) /\
  (forall response value,
     download = Ok response ->
     mammoth_extractRawText (body_arrayBuffer response) = Ok value ->
     filter nonblank (split_double_newline value []) = [] ->
     extract type_docx = Ok []).
Proof.
  intros extract fileName download.
  split; [|split; [|split; [|split; [|split]]]].
  - destruct (extractTextFromPDF_total fetch mammoth_extractRawText fileUrl)
      as (chunks & Hrun & Hne & Hfail).
    exists chunks. split; [|split; assumption].
    unfold extract. rewrite dispatch_pdf, Hrun. reflexivity.
  - reflexivity.
  - intros fileType [-> | [-> | ->]]; eexists; (split; [reflexivity|reflexivity]).
  - intros fileType error. apply dispatch_fetch_failure.
  - intros response error Hfetch Hparse. unfold extract.
    rewrite dispatch_docx. unfold extractTextFromDOCX.
    fold download. rewrite Hfetch. simpl. rewrite Hparse. reflexivity.
  - intros response value Hfetch Hparse Hblank. unfold extract.
    rewrite dispatch_docx. unfold extractTextFromDOCX.
    fold download. rewrite Hfetch. simpl. rewrite Hparse. simpl.
    rewrite Hblank. reflexivity.
Qed.

(** C1 as the specification words it fails, on a DOCX file: when the
    parser rejects the bytes the dispatcher raises, and when the document
    holds no text it returns zero chunks. *)
Lemma extractTextFromFile_docx_not_total :
  extractTextFromFile Samples.fetch_ok Samples.mammoth_corrupt
    Samples.no_records Samples.no_sheets Samples.no_cells (fun s => s)
    (lit "https://files.example/u1/report.docx") type_docx
  = Throw (Error (lit "Failed to extract text from report.docx: Can't find end of central directory : is this a zip file ?"))
  /\
  extractTextFromFile Samples.fetch_ok Samples.mammoth_empty
    Samples.no_records Samples.no_sheets Samples.no_cells (fun s => s)
    (lit "https://files.example/u1/report.docx") type_docx
  = Ok [].
Proof. split; vm_compute; reflexivity. Qed.

(* ===================================================================== *)
(** * Part III: further properties of the code                            *)
(* ===================================================================== *)

(** ** [chunkText]: overlap, number of chunks, short texts *)

Lemma mapi_from_length {A B : Type} (f : A -> nat -> B) (l : list A) :
  forall i, length (mapi_from f i l) = length l.
Proof. induction l; intros i; simpl; auto. Qed.

Lemma js_slice_whole {A : Type} (s : list A) :
  js_slice s 0 (Z.of_nat (length s)) = s.
Proof.
  unfold js_slice. simpl.
  destruct (Z.ltb_spec (Z.of_nat (length s)) 0); [lia|].
  rewrite Z.min_id, Z.min_l by lia. simpl.
  rewrite Z.sub_0_r, Nat2Z.id. apply firstn_all.
Qed.

(** X1: with [0 <= overlap < maxLength], two consecutive chunks overlap by
    exactly [overlap] code units: what follows the first
    [maxLength - overlap] code units of chunk [k] is the first [overlap]
    code units of chunk [k + 1]. *)
Theorem chunkText_consecutive_overlap
  (text : jsstring) (maxLength overlap : Z) :
  0 <= overlap < maxLength ->
  exists chunks,
    (forall fuel, (length text < fuel)%nat ->
       chunkText_fuel fuel text maxLength overlap = Some chunks) /\
    forall k c c',
      nth_error chunks k = Some c -> nth_error chunks (S k) = Some c' ->
      skipn (Z.to_nat (maxLength - overlap)) (content c)
      = firstn (Z.to_nat overlap) (content c').
Proof.
  intros Hov.
  destruct (chunkText_windows text maxLength overlap Hov)
    as (chunks & Hrun & _ & Hws).
  exists chunks. split; [exact Hrun|].
  intros k c c' Hc Hc'.
  assert (Hk : nth_error (map content chunks) k = Some (content c))
    by (rewrite nth_error_map, Hc; reflexivity).
  assert (Hk' : nth_error (map content chunks) (S k) = Some (content c'))
    by (rewrite nth_error_map, Hc'; reflexivity).
  destruct (Hws _ _ Hk) as (Hw & Hlt & Hmid & _).
  destruct (Hws _ _ Hk') as (Hw' & Hlt' & _ & _).
  assert (Hlen : (S k < length (map content chunks))%nat)
    by (apply nth_error_Some; congruence).
  specialize (Hmid Hlen). clear Hlen Hk Hk' Hc Hc' Hrun Hws.
  set (d := maxLength - overlap) in *.
  set (s := 0 + Z.of_nat k * d) in *.
  assert (Hs : 0 <= s) by (unfold s; nia).
  assert (Hs' : 0 + Z.of_nat (S k) * d = s + d) by (unfold s; lia).
  rewrite Hs' in Hw', Hlt'.
  assert (Hlenc : length (content c) = Z.to_nat maxLength)
    by (rewrite Hw, js_slice_length by lia; lia).
  apply nth_error_ext. intros i.
  rewrite nth_error_skipn, nth_error_firstn.
  destruct (Nat.ltb_spec i (Z.to_nat overlap)) as [Hi|Hi].
  - rewrite Hw, Hw', !js_slice_nth_error by (unfold d in *; lia).
    f_equal. unfold d in *. lia.
  - apply nth_error_None. rewrite Hlenc. unfold d. lia.
Qed.

(** The hypothesis of [chunkText_consecutive_overlap] holds at the default
    arguments. *)
Lemma chunkText_consecutive_overlap_witness :
  exists chunks,
    (forall fuel, (length (lit "hello world") < fuel)%nat ->
       chunkText_fuel fuel (lit "hello world") 4 1 = Some chunks) /\
    forall k c c',
      nth_error chunks k = Some c -> nth_error chunks (S k) = Some c' ->
      skipn (Z.to_nat (4 - 1)) (content c)
      = firstn (Z.to_nat 1) (content c').
Proof.
  apply (chunkText_consecutive_overlap (lit "hello world") 4 1).
  split; [discriminate|reflexivity].
Defined.

(** X2: with [0 <= overlap < maxLength], [chunkText] returns no chunk for
    the empty text and otherwise one chunk plus one for every started
    stride of [maxLength - overlap] beyond the first window; chunk [k]
    carries the type ["text"] and the label ["Chunk k+1"]. *)
Theorem chunkText_count_and_labels
  (text : jsstring) (maxLength overlap : Z) :
  0 <= overlap < maxLength ->
  exists chunks,
    (forall fuel, (length text < fuel)%nat ->
       chunkText_fuel fuel text maxLength overlap = Some chunks) /\
    Z.of_nat (length chunks)
    = (if Z.of_nat (length text) =? 0 then 0
       else 1 + (Z.max 0 (Z.of_nat (length text) - maxLength)
                 + (maxLength - overlap) - 1) / (maxLength - overlap)) /\
    forall k c, nth_error chunks k = Some c ->
      metadata c
      = [ ("type"%string, MStr (lit "text"));
          ("section"%string, MStr (lit "Chunk " ++ string_of_nat (k + 1))) ].
Proof.
  intros Hov.
  destruct (chunkText_loop_windows text maxLength overlap Hov
              (S (length text)) 0 []) as (ws & Hloop & Hne & Hws); [lia|lia|].
  rewrite app_nil_l in Hloop.
  exists (mapi text_chunk ws). split; [|split].
  - intros fuel Hfuel. unfold chunkText_fuel.
    rewrite (chunkText_loop_more_fuel _ _ _ _ _ _ _ Hloop fuel) by lia.
    reflexivity.
  - unfold mapi. rewrite mapi_from_length.
    set (len := Z.of_nat (length text)) in *.
    set (d := maxLength - overlap) in *.
    destruct (Z.eqb_spec len 0) as [Hz|Hnz].
    + destruct ws as [|w ws]; [reflexivity|].
      destruct (Hws 0%nat w eq_refl) as (_ & Hlt & _). simpl in Hlt. lia.
    + assert (Hpos : 0 < len) by (unfold len in *; lia).
      specialize (Hne Hpos).
      set (n := length ws) in *.
      assert (Hn : (0 < n)%nat)
        by (unfold n; destruct ws; [congruence|simpl; lia]).
      destruct (nth_error ws (n - 1)) as [w|] eqn:Hlast;
        [|apply nth_error_None in Hlast; fold n in Hlast; lia].
      destruct (Hws _ _ Hlast) as (_ & _ & _ & Hend).
      specialize (Hend ltac:(lia)).
      assert (Hprev : (2 <= n)%nat ->
                Z.of_nat (n - 2) * d + maxLength < len).
      { intros H2.
        destruct (nth_error ws (n - 2)) as [w'|] eqn:Hw';
          [|apply nth_error_None in Hw'; fold n in Hw'; lia].
        destruct (Hws _ _ Hw') as (_ & _ & Hmid & _).
        specialize (Hmid ltac:(lia)). lia. }
      assert (Hq : (Z.max 0 (len - maxLength) + d - 1) / d = Z.of_nat (n - 1)).
      { symmetry.
        apply Z.div_unique
          with (r := Z.max 0 (len - maxLength) + d - 1 - d * Z.of_nat (n - 1));
          [|lia].
        left. destruct (Nat.le_gt_cases 2 n) as [H2|H1].
        - specialize (Hprev H2).
          replace (Z.of_nat (n - 1)) with (Z.of_nat (n - 2) + 1) by lia.
          unfold d in *. nia.
        - assert (n = 1%nat) by lia.
          replace (Z.of_nat (n - 1)) with 0 in * by lia.
          unfold d in *. lia. }
      rewrite Hq. lia.
  - intros k c Hc. unfold mapi in Hc. rewrite mapi_from_nth_error in Hc.
    destruct (nth_error ws k); [|discriminate].
    injection Hc as <-. reflexivity.
Qed.

(** The hypothesis of [chunkText_count_and_labels] holds at the default
    arguments, where 2500 code units give three chunks. *)
Lemma chunkText_count_and_labels_witness :
  exists chunks,
    chunkText_fuel 2501 (repeat 65%N 2500) default_maxLength default_overlap
    = Some chunks /\
    length chunks = 3%nat.
Proof.
  destruct (chunkText_count_and_labels (repeat 65%N 2500) 1000 200)
    as (chunks & Hrun & Hcount & _); [lia|].
  exists chunks. split.
  - apply Hrun. rewrite repeat_length. apply Nat.lt_succ_diag_r.
  - rewrite repeat_length in Hcount. vm_compute in Hcount.
    apply Nat2Z.inj. exact Hcount.
Defined.

(** X3: a text that fits in one window is returned whole, whatever the
    overlap: one chunk holding the text, and no chunk for the empty
    text. *)
Theorem chunkText_short_text
  (text : jsstring) (maxLength overlap : Z) (fuel : nat) :
  Z.of_nat (length text) <= maxLength ->
  chunkText_fuel (S fuel) text maxLength overlap
  = Some (match text with
          | [] => []
          | _ :: _ => [text_chunk text 0]
          end).
Proof.
  intros Hfit. unfold chunkText_fuel.
  destruct text as [|c text].
  - reflexivity.
  - rewrite chunkText_loop_last by (simpl length in *; lia).
    rewrite js_slice_whole. reflexivity.
Qed.

(** The hypothesis of [chunkText_short_text] holds on ["hello"] with the
    default window. *)
Lemma chunkText_short_text_witness :
  chunkText_fuel 1 (lit "hello") default_maxLength default_overlap
  = Some [text_chunk (lit "hello") 0].
Proof.
  apply (chunkText_short_text (lit "hello") 1000 200 0).
  discriminate.
Defined.

(** ** The retry policy for any number of attempts *)

(** The trace of a run that made [n] attempts from attempt [i] on: every
    attempt but the last is followed by its backoff wait. *)
Lemma retry_loop_shape {T : Type} status_of (fn : nat -> result T) random
  maxRetries baseDelay :
  forall remaining i trace,
    (0 < remaining)%nat -> (remaining + i = maxRetries)%nat ->
    exists m,
      (0 < m <= remaining)%nat /\
      retry_loop status_of fn random maxRetries baseDelay remaining i trace
      = (fn (i + m - 1)%nat,
         trace
         ++ flat_map
              (fun j => [Called j; Slept (backoff_delay random baseDelay j)])
              (seq i (m - 1))
         ++ [Called (i + m - 1)%nat]) /\
      (forall j, (i <= j < i + m - 1)%nat ->
         exists error, fn j = Throw error /\ retryable status_of error = true) /\
      (forall error, fn (i + m - 1)%nat = Throw error ->
         retryable status_of error = false \/ (i + m = maxRetries)%nat).
Proof.
  induction remaining as [|remaining IH]; intros i trace Hpos Hsum; [lia|].
  cbn [retry_loop].
  destruct (fn i) as [value|error] eqn:Hi.
  - exists 1%nat. replace (i + 1 - 1)%nat with i by lia.
    rewrite Hi. simpl. repeat split; try lia.
    all: try (intros; discriminate).
  - destruct (Z.eqb_spec (Z.of_nat i) (Z.of_nat maxRetries - 1)) as [Hlast|Hmore].
    + exists 1%nat. replace (i + 1 - 1)%nat with i by lia.
      rewrite Hi. simpl. repeat split; try lia.
    + destruct (retryable status_of error) eqn:Hretry.
      * destruct (IH (S i) (trace ++ [Called i;
                                      Slept (backoff_delay random baseDelay i)]))
          as (m & Hm & Hrun & Hbefore & Hend); [lia|lia|].
        exists (S m). replace (i + S m - 1)%nat with (S i + m - 1)%nat by lia.
        rewrite Hrun. split; [lia|]. split; [|split].
        -- f_equal. rewrite <- app_assoc.
           replace (S m - 1)%nat with (S (m - 1)) by lia.
           reflexivity.
        -- intros j Hj. destruct (Nat.eq_dec j i) as [->|Hne].
           ++ exists error. split; assumption.
           ++ apply Hbefore. lia.
        -- intros e He. destruct (Hend e He); [now left|right; lia].
      * exists 1%nat. replace (i + 1 - 1)%nat with i by lia.
        rewrite Hi. simpl. repeat split; try lia.
        all: try (intros e He; left; congruence).
Qed.

(** X4: for any number of attempts, [retryWithBackoff] makes attempts
    0, 1, ... in order, at most [maxRetries] of them, each but the last
    followed by its backoff wait, so it never waits after its last attempt;
    every attempt before the last failed with a retryable status; the
    outcome is that of the last attempt, and an error is returned only if
    it is not retryable or the attempts are used up.  With no attempt
    allowed it throws "Max retries exceeded" without calling. *)
Theorem retry_with_backoff_any_bound {T : Type}
  (status_of : js_error -> option Z) (fn : nat -> result T)
  (random : nat -> Q) (maxRetries : nat) (baseDelay : Q) :
  let run := retry_with_backoff status_of fn random maxRetries baseDelay in
  match maxRetries with
  | O => run = (Throw (Error (lit "Max retries exceeded")), [])
  | S _ =>
      exists n,
        (0 < n <= maxRetries)%nat /\
        fst run = fn (n - 1)%nat /\
        snd run
        = flat_map
            (fun j => [Called j; Slept (backoff_delay random baseDelay j)])
            (seq 0 (n - 1))
          ++ [Called (n - 1)%nat] /\
        calls (snd run) = seq 0 n /\
        (forall j, (j < n - 1)%nat ->
           exists error,
             fn j = Throw error /\ retryable status_of error = true) /\
        (forall error, fn (n - 1)%nat = Throw error ->
           retryable status_of error = false \/ n = maxRetries)
  end.
Proof.
  intros run. destruct maxRetries as [|k] eqn:Hmax; [reflexivity|].
  destruct (retry_loop_shape status_of fn random (S k) baseDelay (S k) 0 [])
    as (m & Hm & Hrun & Hbefore & Hend); [lia|lia|].
  simpl plus in Hrun, Hbefore, Hend.
  exists m. unfold run, retry_with_backoff. rewrite Hrun. cbn [fst snd app].
  split; [exact Hm|]. split; [reflexivity|]. split; [reflexivity|].
  split; [|split].
  - unfold calls. rewrite flat_map_app. cbn [flat_map app].
    assert (Hflat : forall a len,
              flat_map
                (fun ev => match ev with Called i => [i] | Slept _ => [] end)
                (flat_map
                   (fun j => [Called j;
                              Slept (backoff_delay random baseDelay j)])
                   (seq a len))
              = seq a len).
    { intros a len. revert a. induction len as [|len IHl]; intros a;
        [reflexivity|]. simpl. now rewrite IHl. }
    rewrite Hflat.
    replace m with (m - 1 + 1)%nat at 3 by lia.
    rewrite seq_app. reflexivity.
  - intros j Hj. apply Hbefore. lia.
  - intros error He. destruct (Hend error He); [now left|right; lia].
Qed.

(** ** [generateEmbedding] *)

(** X5: [generateEmbedding] never throws and never returns an empty
    vector.  The model label is ["huggingface"] when the provider, within
    its retries, returned a non-empty vector (the first row of a nested
    answer), and that vector is returned; in every other case the label is
    ["fallback"] and the vector is the deterministic embedding, of length
    384. *)
Theorem generateEmbedding_never_empty (number : Type) (zero : number)
  (add mul div : number -> number -> number)
  (Math_sqrt Math_sin : number -> number) (of_N : N -> number)
  (tenth half : number) (gt : number -> number -> bool)
  (featureExtraction : jsstring -> nat -> result (hf_response number))
  (random : nat -> Q) (text : jsstring) :
  let attempt :=
    fst (Embeddings.retryWithBackoff (featureExtraction text) random
           Embeddings.default_maxRetries Embeddings.default_baseDelay) in
  let fallback :=
    generateDeterministicEmbedding number zero add mul div Math_sqrt Math_sin
      of_N tenth half gt text in
  exists embedding model,
    generateEmbedding number zero add mul div Math_sqrt Math_sin of_N tenth
      half gt featureExtraction random text
    = Ok (embedding, model) /\
    embedding <> [] /\
    ((model = lit "huggingface" /\
      exists x rest,
        embedding = x :: rest /\
        (attempt = Ok (HfFlat number embedding)
         \/ exists others,
              attempt = Ok (HfNested number (embedding :: others))))
     \/
     (model = lit "fallback" /\ embedding = fallback /\
      length embedding = 384%nat /\
      (forall x rest, attempt <> Ok (HfFlat number (x :: rest))) /\
      (forall x rest others,
         attempt <> Ok (HfNested number ((x :: rest) :: others))))).
Proof.
  intros attempt fallback.
  assert (Hlen : length fallback = 384%nat).
  { unfold fallback, generateDeterministicEmbedding.
    match goal with |- context [if ?c then _ else _] => destruct c end;
      rewrite ?length_map, accumulate_length; apply repeat_length. }
  assert (Hne : fallback <> []).
  { intros H. rewrite H in Hlen. discriminate. }
  unfold generateEmbedding. fold attempt. fold fallback.
  destruct attempt as [[[|x rest]|[|[|x rest] others]]|e]; simpl.
  - exists fallback, (lit "fallback"). split; [reflexivity|].
    split; [exact Hne|]. right. repeat split; try assumption; discriminate.
  - exists (x :: rest), (lit "huggingface"). split; [reflexivity|].
    split; [discriminate|]. left. split; [reflexivity|].
    exists x, rest. split; [reflexivity|]. now left.
  - exists fallback, (lit "fallback"). split; [reflexivity|].
    split; [exact Hne|]. right. repeat split; try assumption; discriminate.
  - exists fallback, (lit "fallback"). split; [reflexivity|].
    split; [exact Hne|]. right. repeat split; try assumption; discriminate.
  - exists (x :: rest), (lit "huggingface"). split; [reflexivity|].
    split; [discriminate|]. left. split; [reflexivity|].
    exists x, rest. split; [reflexivity|]. right. now exists others.
  - exists fallback, (lit "fallback"). split; [reflexivity|].
    split; [exact Hne|]. right. repeat split; try assumption; discriminate.
Qed.

(** ** Hybrid search: where the rows come from *)

Section RowSources.

Variable vector : Type.
Variable cosine_distance : vector -> vector -> Q.
Variable ilike : jsstring -> jsstring -> bool.
Variable db : Sql.tables vector.
Variable query_embedding : vector.
Variable user_id : jsstring.
Variable match_threshold : Q.
Variable match_count : nat.
Variable keyword_query : option jsstring.

Lemma vector_search_source (r : search_row) :
  In r (Sql.vector_search vector cosine_distance db query_embedding user_id
          match_threshold match_count) ->
  exists row,
    In row (Sql.joined db) /\ Sql.owned_by user_id row = true /\
    shows r row /\
    sr_similarity r
    = (1 - cosine_distance (Sql.de_embedding (fst row)) query_embedding)%Q /\
    ~ (sr_similarity r <= match_threshold)%Q.
Proof.
  unfold Sql.vector_search. intros H. apply in_map_iff in H.
  destruct H as (row & <- & H).
  apply firstn_In, sort_by_In, filter_In in H. destruct H as [Hin Hcond].
  apply andb_true_iff in Hcond. destruct Hcond as [Hown Hthr].
  exists row. split; [exact Hin|]. split; [exact Hown|].
  split; [repeat split|]. split; [reflexivity|].
  intros Hle. apply Qle_bool_iff in Hle.
  unfold Sql.select_row, Sql.vector_similarity in *. simpl in Hle.
  rewrite Hle in Hthr. discriminate.
Qed.

Lemma keyword_search_source (r : search_row) :
  In r (Sql.keyword_search vector ilike db user_id match_count
          keyword_query) ->
  exists row,
    In row (Sql.joined db) /\ Sql.owned_by user_id row = true /\
    shows r row /\
    sr_similarity r = 7 # 10 /\
    exists keyword,
      keyword_query = Some keyword /\ keyword <> [] /\
      ilike (Sql.de_content (fst row)) (Sql.contains_pattern keyword) = true.
Proof.
  unfold Sql.keyword_search. intros H. apply in_map_iff in H.
  destruct H as (row & <- & H).
  apply firstn_In, filter_In in H. destruct H as [Hin Hcond].
  apply andb_true_iff in Hcond. destruct Hcond as [Hown Hkw].
  exists row. split; [exact Hin|]. split; [exact Hown|].
  split; [repeat split|]. split; [reflexivity|].
  destruct keyword_query as [keyword|]; [|discriminate].
  apply andb_true_iff in Hkw. destruct Hkw as [Hne Hlike].
  exists keyword. split; [reflexivity|]. split; [|exact Hlike].
  intros ->. discriminate.
Qed.

End RowSources.

(** X6: every row that [search_documents] returns shows a stored chunk of
    a document of the requesting user, and nothing of another user's.  Its
    similarity is either the chunk's vector similarity, which is then above
    the threshold, or 0.7, and then the keyword is neither null nor empty
    and the chunk's content matches ['%' || keyword || '%'] under the
    database's ILIKE. *)
Theorem search_documents_owner_scope (vector : Type)
  (cosine_distance : vector -> vector -> Q)
  (ilike : jsstring -> jsstring -> bool) (db : Sql.tables vector)
  (query_embedding : vector) (user_id : jsstring) (match_threshold : Q)
  (match_count : nat) (keyword_query : option jsstring) :
  Forall
    (fun r =>
       exists de d,
         In de (Sql.document_embeddings db) /\ In d (Sql.documents db) /\
         Sql.d_id d = Sql.de_document_id de /\ Sql.d_user_id d = user_id /\
         shows r (de, d) /\
         ((sr_similarity r
           = (1 - cosine_distance (Sql.de_embedding de) query_embedding)%Q /\
           ~ (sr_similarity r <= match_threshold)%Q)
          \/
          (sr_similarity r = 7 # 10 /\
           exists keyword,
             keyword_query = Some keyword /\ keyword <> [] /\
             ilike (Sql.de_content de) (Sql.contains_pattern keyword)
             = true)))
    (Sql.search_documents vector cosine_distance ilike db query_embedding
       user_id match_threshold match_count keyword_query).
Proof.
  apply Forall_forall. intros r Hr.
  apply search_documents_from_sets in Hr.
  assert (Hjoin : forall row,
            In row (Sql.joined db) -> Sql.owned_by user_id row = true ->
            In (fst row) (Sql.document_embeddings db) /\
            In (snd row) (Sql.documents db) /\
            Sql.d_id (snd row) = Sql.de_document_id (fst row) /\
            Sql.d_user_id (snd row) = user_id).
  { intros row Hin Hown. unfold Sql.joined in Hin.
    apply in_flat_map in Hin. destruct Hin as (de & Hde & Hin).
    apply in_map_iff in Hin. destruct Hin as (d & <- & Hd).
    apply filter_In in Hd. destruct Hd as [Hd Hid].
    apply jsstring_eqb_eq in Hid. apply jsstring_eqb_eq in Hown.
    simpl in *. auto. }
  destruct Hr as [Hr|Hr].
  - apply vector_search_source in Hr.
    destruct Hr as ([de d] & Hin & Hown & Hshow & Hsim & Hthr).
    destruct (Hjoin _ Hin Hown) as (H1 & H2 & H3 & H4).
    exists de, d. simpl in *. repeat split; try assumption; try apply Hshow.
    left. split; assumption.
  - apply keyword_search_source in Hr.
    destruct Hr as ([de d] & Hin & Hown & Hshow & Hsim & Hkw).
    destruct (Hjoin _ Hin Hown) as (H1 & H2 & H3 & H4).
    exists de, d. simpl in *. repeat split; try assumption; try apply Hshow.
    right. split; assumption.
Qed.

(** ** [searchSimilarDocuments]: availability and owner scope *)

Lemma firstn_nonempty {A : Type} (n : nat) (l : list A) :
  l <> [] -> firstn (S n) l <> [].
Proof. destruct l; [congruence|discriminate]. Qed.

(** X8: [searchSimilarDocuments] throws only if its last-resort query
    throws.  When no request throws, the existence check succeeds and the
    user has at least one stored chunk, the result is never empty: an empty
    or failed hybrid search is replaced by the rows of the check. *)
Theorem searchSimilarDocuments_available (number : Type) (zero : number)
  (add mul div : number -> number -> number)
  (Math_sqrt Math_sin : number -> number) (of_N : N -> number)
  (tenth half : number) (gt : number -> number -> bool)
  (featureExtraction : jsstring -> nat -> result (hf_response number))
  (random : nat -> Q) (cosine_distance : list number -> list number -> Q)
  (ilike : jsstring -> jsstring -> bool)
  (s : supabase number) (query userId : jsstring) (limit : nat)
  (keyword : option jsstring) :
  let answer :=
    searchSimilarDocuments number zero add mul div Math_sqrt Math_sin of_N
      tenth half gt featureExtraction random cosine_distance ilike s query
      userId limit keyword in
  (throws (recent_health number s) = false -> exists rows, answer = Ok rows) /\
  (throws (check_health number s) = false ->
   throws (rpc_health number s) = false ->
   exists rows,
     answer = Ok rows /\
     (check_health number s = Healthy ->
      rows_of_user number s userId <> [] -> rows <> [])).
Proof.
  intros answer. unfold answer, searchSimilarDocuments.
  destruct (generateEmbedding_returns number zero add mul div Math_sqrt
              Math_sin of_N tenth half gt featureExtraction random query)
    as (embedding & model & Hq).
  rewrite Hq. cbn [bind fst].
  set (rows5 := firstn 5 (rows_of_user number s userId)).
  set (found := Sql.search_documents (list number) cosine_distance ilike
                  (db number s) embedding userId 0 limit keyword).
  assert (Hrows5 : rows_of_user number s userId <> [] ->
                   map (mock_row number) rows5 <> []).
  { intros Hne H. apply map_eq_nil in H. revert H.
    apply firstn_nonempty. exact Hne. }
  set (recent := firstn limit _).
  clearbody rows5 found recent.
  split.
  - intros Hrecent.
    destruct (check_health number s), (rpc_health number s),
      (recent_health number s); try discriminate Hrecent;
      cbn -[mock_row];
      try (destruct found as [|r found']; cbn -[mock_row]);
      try (destruct rows5 as [|r5 rows5']; cbn -[mock_row]);
      eexists; reflexivity.
  - intros Hcheck Hrpc.
    destruct (check_health number s) eqn:Hc; try discriminate Hcheck;
      destruct (rpc_health number s); try discriminate Hrpc;
      cbn -[mock_row].
    + destruct found as [|r found'].
      * destruct rows5 as [|r5 rest]; cbn -[mock_row].
        -- eexists. split; [reflexivity|]. intros _ Hne.
           now elim (Hrows5 Hne).
        -- eexists. split; [reflexivity|]. intros _ _. discriminate.
      * eexists. split; [reflexivity|]. intros _ _. discriminate.
    + eexists. split; [reflexivity|]. intros _. exact Hrows5.
    + destruct found as [|r found']; cbn -[mock_row];
        (eexists; split; [reflexivity|]; intros H; discriminate H).
    + eexists. split; [reflexivity|]. intros H. discriminate H.
Qed.

(** X9: on every path, hybrid search or fallback, each row that
    [searchSimilarDocuments] returns shows a stored chunk of a document of
    the user it was called for. *)
Theorem searchSimilarDocuments_owner_scope (number : Type) (zero : number)
  (add mul div : number -> number -> number)
  (Math_sqrt Math_sin : number -> number) (of_N : N -> number)
  (tenth half : number) (gt : number -> number -> bool)
  (featureExtraction : jsstring -> nat -> result (hf_response number))
  (random : nat -> Q) (cosine_distance : list number -> list number -> Q)
  (ilike : jsstring -> jsstring -> bool)
  (s : supabase number) (query userId : jsstring) (limit : nat)
  (keyword : option jsstring) :
  match
    searchSimilarDocuments number zero add mul div Math_sqrt Math_sin of_N
      tenth half gt featureExtraction random cosine_distance ilike s query
      userId limit keyword
  with
  | Ok rows =>
      Forall
        (fun r =>
           exists row,
             In row (Sql.joined (db number s)) /\
             Sql.d_user_id (snd row) = userId /\ shows r row)
        rows
  | Throw _ => True
  end.
Proof.
  unfold searchSimilarDocuments.
  destruct (generateEmbedding_returns number zero add mul div Math_sqrt
              Math_sin of_N tenth half gt featureExtraction random query)
    as (embedding & model & Hq).
  rewrite Hq. cbn [bind fst].
  set (rows5 := firstn 5 (rows_of_user number s userId)).
  set (recent := firstn limit
                   (most_recent_first number (rows_of_user number s userId))).
  set (found := Sql.search_documents (list number) cosine_distance ilike
                  (db number s) embedding userId 0 limit keyword).
  assert (Huser : forall row, In row (rows_of_user number s userId) ->
            In row (Sql.joined (db number s)) /\
            Sql.d_user_id (snd row) = userId).
  { intros row H. apply filter_In in H. destruct H as [Hin Hown].
    split; [exact Hin|]. now apply jsstring_eqb_eq. }
  assert (Hmock : forall rows,
            (forall row, In row rows ->
               In row (rows_of_user number s userId)) ->
            Forall
              (fun r => exists row,
                 In row (Sql.joined (db number s)) /\
                 Sql.d_user_id (snd row) = userId /\ shows r row)
              (map (mock_row number) rows)).
  { intros rows Hsub. apply Forall_forall. intros r Hr.
    apply in_map_iff in Hr. destruct Hr as (row & <- & Hrow).
    destruct (Huser row (Hsub row Hrow)) as [Hin Hown].
    exists row. repeat split; assumption. }
  assert (H5 : Forall
                 (fun r => exists row,
                    In row (Sql.joined (db number s)) /\
                    Sql.d_user_id (snd row) = userId /\ shows r row)
                 (map (mock_row number) rows5)).
  { apply Hmock. intros row H. exact (firstn_In _ _ _ H). }
  assert (Hrecent : Forall
                 (fun r => exists row,
                    In row (Sql.joined (db number s)) /\
                    Sql.d_user_id (snd row) = userId /\ shows r row)
                 (map (mock_row number) recent)).
  { apply Hmock. intros row H. apply firstn_In, sort_by_In in H. exact H. }
  assert (Hfound : Forall
                 (fun r => exists row,
                    In row (Sql.joined (db number s)) /\
                    Sql.d_user_id (snd row) = userId /\ shows r row)
                 found).
  { apply Forall_forall. intros r Hr.
    apply search_documents_from_sets in Hr. destruct Hr as [Hr|Hr].
    - apply vector_search_source in Hr.
      destruct Hr as (row & Hin & Hown & Hshow & _).
      exists row. split; [exact Hin|]. split; [|exact Hshow].
      now apply jsstring_eqb_eq.
    - apply keyword_search_source in Hr.
      destruct Hr as (row & Hin & Hown & Hshow & _).
      exists row. split; [exact Hin|]. split; [|exact Hshow].
      now apply jsstring_eqb_eq. }
  clearbody rows5 found recent. clear Huser Hmock.
  destruct (check_health number s), (rpc_health number s),
    (recent_health number s); cbn -[mock_row];
    try exact I; try assumption; try (now constructor);
    try (destruct found as [|r found']; cbn -[mock_row];
         [|exact Hfound]);
    try (destruct rows5 as [|r5 rows5']; cbn -[mock_row]);
    try assumption; try (now constructor).
Qed.
(** ** White space: [trim] and the texts the extractors split *)

Lemma visible_app (a b : jsstring) :
  visible (a ++ b) = visible a ++ visible b.
Proof. apply filter_app. Qed.

Lemma visible_rev (s : jsstring) : visible (rev s) = rev (visible s).
Proof.
  induction s as [|c s IH]; [reflexivity|].
  simpl rev. rewrite visible_app, IH. unfold visible at 2 3. simpl.
  destruct (is_space c); simpl; [apply app_nil_r|reflexivity].
Qed.

Lemma trim_start_visible (s : jsstring) : visible (trim_start s) = visible s.
Proof.
  induction s as [|c s IH]; [reflexivity|].
  simpl trim_start. destruct (is_space c) eqn:Hc; [|reflexivity].
  rewrite IH. unfold visible. simpl. now rewrite Hc.
Qed.

Lemma trim_visible (s : jsstring) : visible (trim s) = visible s.
Proof.
  unfold trim.
  now rewrite visible_rev, trim_start_visible, visible_rev, rev_involutive,
    trim_start_visible.
Qed.

Lemma trim_start_nil (s : jsstring) : trim_start s = [] <-> visible s = [].
Proof.
  split.
  - intros H. now rewrite <- trim_start_visible, H.
  - induction s as [|c s IH]; [reflexivity|].
    unfold visible. simpl. destruct (is_space c); [exact IH|discriminate].
Qed.

Lemma rev_eq_nil {A : Type} (l : list A) : rev l = [] <-> l = [].
Proof.
  split; [|now intros ->].
  intros H. apply (f_equal (@rev A)) in H. now rewrite rev_involutive in H.
Qed.

Lemma trim_nil (s : jsstring) : trim s = [] <-> visible s = [].
Proof.
  unfold trim.
  split; intros H.
  - apply (proj1 (rev_eq_nil _)), (proj1 (trim_start_nil _)) in H.
    rewrite visible_rev in H. apply (proj1 (rev_eq_nil _)) in H.
    now rewrite trim_start_visible in H.
  - apply (proj2 (rev_eq_nil _)), (proj2 (trim_start_nil _)).
    rewrite visible_rev. apply (proj2 (rev_eq_nil _)).
    now rewrite trim_start_visible.
Qed.

Lemma nonblank_visible (s : jsstring) :
  nonblank s = true <-> visible s <> [].
Proof.
  unfold nonblank. rewrite <- trim_nil.
  destruct (trim s); simpl; split; congruence.
Qed.

Lemma blank_visible (s : jsstring) : nonblank s = false -> visible s = [].
Proof.
  intros H. destruct (visible s) eqn:E; [reflexivity|].
  assert (Hn : nonblank s = true) by (apply nonblank_visible; congruence).
  congruence.
Qed.

Lemma trim_start_head (s : jsstring) (c : N) (t : jsstring) :
  trim_start s = c :: t -> is_space c = false.
Proof.
  induction s as [|d s IH]; [discriminate|].
  simpl. destruct (is_space d) eqn:Hd; [exact IH|].
  intros H. injection H as <- _. exact Hd.
Qed.

Lemma trim_start_fixed (c : N) (t : jsstring) :
  is_space c = false -> trim_start (c :: t) = c :: t.
Proof. intros H. simpl. now rewrite H. Qed.

Lemma trim_start_suffix (s : jsstring) :
  exists pre, s = pre ++ trim_start s.
Proof.
  induction s as [|c s [pre IH]]; [now exists []|].
  simpl. destruct (is_space c).
  - exists (c :: pre). simpl. now f_equal.
  - now exists [].
Qed.

(** [trim] leaves nothing to trim. *)
Lemma trim_idempotent (s : jsstring) : trim (trim s) = trim s.
Proof.
  unfold trim.
  set (a := trim_start s).
  set (b := trim_start (rev a)).
  destruct b as [|c b'] eqn:Hb; [reflexivity|].
  assert (Hc : is_space c = false) by (eapply trim_start_head; exact Hb).
  destruct (trim_start_suffix (rev a)) as [pre Hpre].
  fold b in Hpre. rewrite Hb in Hpre.
  apply (f_equal (@rev N)) in Hpre. rewrite rev_involutive, rev_app_distr in Hpre.
  destruct (rev (c :: b')) as [|d u] eqn:Hrev.
  { apply (proj1 (rev_eq_nil _)) in Hrev. discriminate. }
  assert (Hd : is_space d = false).
  { apply (trim_start_head s d (u ++ rev pre)). fold a. now rewrite Hpre. }
  rewrite (trim_start_fixed d u Hd).
  rewrite <- Hrev, rev_involutive.
  now rewrite (trim_start_fixed c b' Hc).
Qed.

Lemma trim_In (s : jsstring) (c : N) : In c (trim s) -> In c s.
Proof.
  unfold trim. intros H. apply in_rev in H.
  destruct (trim_start_suffix (rev (trim_start s))) as [pre Hpre].
  assert (H1 : In c (rev (trim_start s))).
  { rewrite Hpre. apply in_or_app. now right. }
  apply in_rev in H1.
  destruct (trim_start_suffix s) as [pre' Hpre'].
  rewrite Hpre'. apply in_or_app. now right.
Qed.

Lemma visible_concat_filter (pieces : list jsstring) :
  visible (concat (filter nonblank pieces)) = visible (concat pieces).
Proof.
  induction pieces as [|p pieces IH]; [reflexivity|].
  simpl. destruct (nonblank p) eqn:Hp; simpl.
  - now rewrite !visible_app, IH.
  - now rewrite visible_app, (blank_visible p Hp), IH.
Qed.

Lemma split_double_newline_visible (n : nat) :
  forall s cur, (length s <= n)%nat ->
    visible (concat (split_double_newline s cur)) = visible (rev cur ++ s).
Proof.
  induction n as [|n IH]; intros s cur Hn.
  - destruct s; [|simpl in Hn; lia]. simpl. now rewrite !app_nil_r.
  - destruct s as [|c rest]; [simpl; now rewrite !app_nil_r|].
    simpl in Hn. simpl split_double_newline.
    destruct rest as [|d rest'].
    + simpl. now rewrite app_nil_r.
    + destruct (N.eqb c 10 && N.eqb d 10) eqn:Hsep.
      * apply andb_prop in Hsep. destruct Hsep as [Hc Hd].
        apply N.eqb_eq in Hc, Hd. subst c d.
        simpl concat. rewrite visible_app, IH by (simpl in Hn; lia).
        rewrite !visible_app. reflexivity.
      * rewrite IH by lia. simpl rev. now rewrite <- app_assoc.
Qed.

Lemma blank_gap_visible (rest : jsstring) :
  forall n, blank_gap rest = Some n -> visible (firstn n rest) = [].
Proof.
  induction rest as [|c rest IH]; intros n; [discriminate|].
  simpl. destruct (is_space c) eqn:Hc; [|discriminate].
  destruct (blank_gap rest) as [m|].
  - intros H. injection H as <-. simpl. unfold visible. simpl.
    rewrite Hc. simpl. now apply IH.
  - destruct (N.eqb c 10); [|discriminate].
    intros H. injection H as <-. unfold visible. simpl. now rewrite Hc.
Qed.

Lemma split_blank_lines_visible (s : jsstring) :
  forall cur skip, visible (firstn skip s) = [] ->
    visible (concat (split_blank_lines s cur skip)) = visible (rev cur ++ s).
Proof.
  induction s as [|c rest IH]; intros cur skip Hskip.
  - simpl. now rewrite !app_nil_r.
  - simpl split_blank_lines. destruct skip as [|skip'].
    + destruct (N.eqb c 10) eqn:Hc.
      * apply N.eqb_eq in Hc. subst c.
        destruct (blank_gap rest) as [n|] eqn:Hgap.
        -- simpl concat. rewrite visible_app.
           rewrite IH by (now apply blank_gap_visible).
           rewrite !visible_app. reflexivity.
        -- rewrite IH by reflexivity. simpl rev. now rewrite <- app_assoc.
      * rewrite IH by reflexivity. simpl rev. now rewrite <- app_assoc.
    + simpl in Hskip. unfold visible in Hskip. simpl in Hskip.
      destruct (is_space c) eqn:Hc; [|discriminate].
      rewrite IH by exact Hskip.
      rewrite !visible_app. f_equal. unfold visible. simpl. now rewrite Hc.
Qed.

Lemma map_mapi_from {A B C : Type} (f : A -> nat -> B) (g : B -> C)
  (h : A -> C) (l : list A) :
  (forall x i, g (f x i) = h x) ->
  forall i, map g (mapi_from f i l) = map h l.
Proof.
  intros H. induction l as [|x l IH]; intros i; [reflexivity|].
  simpl. now rewrite H, IH.
Qed.

(** ** The paragraph extractors keep the text *)

Lemma paragraphs_keep_text (f : jsstring -> nat -> DocumentChunk)
  (label : nat -> list (string * meta_value))
  (text : jsstring) (pieces : list jsstring) :
  (forall p i, content (f p i) = p) ->
  (forall p i, metadata (f p i) = label i) ->
  visible (concat pieces) = visible text ->
  keeps_text text label (mapi f (filter nonblank pieces)).
Proof.
  intros Hc Hm Hpieces. split.
  - unfold mapi. rewrite (map_mapi_from f content (fun p => p)) by exact Hc.
    now rewrite map_id, visible_concat_filter.
  - intros k chunk Hk. unfold mapi in Hk.
    rewrite mapi_from_nth_error in Hk.
    destruct (nth_error (filter nonblank pieces) k) as [p|] eqn:Hp;
      [|discriminate].
    injection Hk as <-. rewrite Hc, Hm. split; [|reflexivity].
    apply nth_error_In, filter_In in Hp. apply Hp.
Qed.

(** X10: when the download succeeds, the plain-text extractor and (when
    the parser returns) the DOCX extractor lose nothing but white space:
    the chunks, read one after the other, hold the code units of the text
    that are not white space, in order; no chunk is blank, and chunk [k]
    is labelled ["Paragraph k+1"], so the labels count the paragraphs
    that are kept, not those of the text. *)
Theorem paragraph_extractors_keep_text
  (fetch : jsstring -> result Response)
  (mammoth_extractRawText : list N -> result jsstring)
  (fileUrl fileName : jsstring) (response : Response) :
  fetchFileContent fetch fileUrl = Ok response ->
  (exists chunks,
     extractTextFromPlainText fetch fileUrl fileName = Ok chunks /\
     keeps_text (body_text response)
       (fun k =>
          [ ("type"%string, MStr (lit "text"));
            ("section"%string,
             MStr (lit "Paragraph " ++ string_of_nat (k + 1)));
            ("filename"%string, MStr fileName) ])
       chunks) /\
  (forall value,
     mammoth_extractRawText (body_arrayBuffer response) = Ok value ->
     exists chunks,
       extractTextFromDOCX fetch mammoth_extractRawText fileUrl fileName
       = Ok chunks /\
       keeps_text value
         (fun k =>
            [ ("type"%string, MStr (lit "docx"));
              ("section"%string,
               MStr (lit "Paragraph " ++ string_of_nat (k + 1)));
              ("filename"%string, MStr fileName) ])
         chunks).
Proof.
  intros Hfetch. split.
  - unfold extractTextFromPlainText. rewrite Hfetch. cbn [bind].
    eexists. split; [reflexivity|].
    apply paragraphs_keep_text; try reflexivity.
    now apply (split_double_newline_visible (length (body_text response))).
  - intros value Hvalue.
    unfold extractTextFromDOCX. rewrite Hfetch. cbn [bind].
    rewrite Hvalue. cbn [bind].
    eexists. split; [reflexivity|].
    apply paragraphs_keep_text; try reflexivity.
    now apply (split_double_newline_visible (length value)).
Qed.

Lemma paragraph_extractors_keep_text_witness :
  exists chunks,
    extractTextFromPlainText Examples.fetch_notes (lit "u/notes.txt")
      (lit "notes.txt") = Ok chunks /\
    keeps_text (lit "Intro" ++ newline ++ newline ++ lit "  " ++ newline
                ++ newline ++ lit "Body")
      (fun k =>
         [ ("type"%string, MStr (lit "text"));
           ("section"%string,
            MStr (lit "Paragraph " ++ string_of_nat (k + 1)));
           ("filename"%string, MStr (lit "notes.txt")) ])
      chunks.
Proof.
  apply (paragraph_extractors_keep_text Examples.fetch_notes
           Examples.mammoth_notes (lit "u/notes.txt") (lit "notes.txt")
           Examples.notes).
  reflexivity.
Defined.

(** ** The PDF extractor *)

Lemma visible_nonempty_concat (pieces : list jsstring) :
  visible (concat pieces) <> [] -> filter nonblank pieces <> [].
Proof.
  induction pieces as [|p pieces IH]; [intros H; now elim H|].
  simpl. intros H. destruct (nonblank p) eqn:Hp; [discriminate|].
  apply IH. now rewrite visible_app, (blank_visible p Hp) in H.
Qed.

Lemma visible_concat_trim (pieces : list jsstring) :
  visible (concat (map trim pieces)) = visible (concat pieces).
Proof.
  induction pieces as [|p pieces IH]; [reflexivity|].
  simpl. now rewrite !visible_app, trim_visible, IH.
Qed.

(** X11: a PDF whose text is not blank is always cut into sections: the
    result is never the text as one raw chunk, the sections together hold
    the code units of the text that are not white space, and section [k]
    is trimmed, not empty, labelled ["Section k+1"] and numbered [k] in
    [chunkIndex]. *)
Theorem extractTextFromPDF_sections
  (fetch : jsstring -> result Response)
  (mammoth_extractRawText : list N -> result jsstring)
  (fileUrl fileName : jsstring) (response : Response) (text : jsstring) :
  fetchFileContent fetch fileUrl = Ok response ->
  mammoth_extractRawText (body_arrayBuffer response) = Ok text ->
  nonblank text = true ->
  exists chunks,
    extractTextFromPDF fetch mammoth_extractRawText fileUrl fileName
    = Ok chunks /\
    chunks <> [] /\
    keeps_text text
      (fun k =>
         [ ("type"%string, MStr (lit "pdf"));
           ("section"%string,
            MStr (lit "Section " ++ string_of_nat (k + 1)));
           ("filename"%string, MStr fileName);
           ("chunkIndex"%string, MNum (Z.of_nat k)) ])
      chunks /\
    forall chunk, In chunk chunks ->
      content chunk <> [] /\ trim (content chunk) = content chunk.
Proof.
  intros Hfetch Hparse Htext.
  unfold extractTextFromPDF. rewrite Hfetch. cbn [bind].
  rewrite Hparse. cbn [bind].
  unfold nonblank in Htext. rewrite Htext. cbn [negb].
  assert (Hsplit : visible (concat (split_blank_lines text [] 0%nat))
                   = visible text).
  { now rewrite split_blank_lines_visible. }
  destruct (filter nonblank (split_blank_lines text [] 0%nat))
    as [|p pieces] eqn:Hpieces.
  { exfalso. apply (visible_nonempty_concat (split_blank_lines text [] 0%nat));
      [|exact Hpieces].
    rewrite Hsplit. apply nonblank_visible. exact Htext. }
  cbn [try_catch]. eexists. split; [reflexivity|].
  split; [discriminate|].
  rewrite <- Hpieces.
  set (f := fun (chunk : jsstring) (index : nat) => mk_chunk (trim chunk) _).
  split; [split|].
  - unfold mapi.
    rewrite (map_mapi_from f content trim) by reflexivity.
    rewrite visible_concat_trim, visible_concat_filter. exact Hsplit.
  - intros k chunk Hk. unfold mapi in Hk.
    rewrite mapi_from_nth_error in Hk.
    destruct (nth_error (filter nonblank (split_blank_lines text [] 0%nat)) k)
      as [q|] eqn:Hq; [|discriminate].
    injection Hk as <-. split; [|reflexivity].
    apply nth_error_In, filter_In in Hq. destruct Hq as [_ Hq].
    unfold f, nonblank. cbn [content]. rewrite trim_idempotent. exact Hq.
  - intros chunk Hin. apply In_nth_error in Hin. destruct Hin as [k Hk].
    unfold mapi in Hk. rewrite mapi_from_nth_error in Hk.
    destruct (nth_error (filter nonblank (split_blank_lines text [] 0%nat)) k)
      as [q|] eqn:Hq; [|discriminate].
    injection Hk as <-. unfold f. cbn [content].
    split; [|apply trim_idempotent].
    apply nth_error_In, filter_In in Hq. destruct Hq as [_ Hq].
    unfold nonblank in Hq. destruct (trim q); [discriminate|discriminate].
Qed.

Lemma extractTextFromPDF_sections_witness :
  exists chunks,
    extractTextFromPDF Examples.fetch_notes Examples.mammoth_notes
      (lit "u/notes.pdf") (lit "notes.pdf") = Ok chunks /\
    chunks <> [] /\
    keeps_text (lit "Title" ++ newline ++ lit " " ++ newline ++ lit "Text ")
      (fun k =>
         [ ("type"%string, MStr (lit "pdf"));
           ("section"%string,
            MStr (lit "Section " ++ string_of_nat (k + 1)));
           ("filename"%string, MStr (lit "notes.pdf"));
           ("chunkIndex"%string, MNum (Z.of_nat k)) ])
      chunks /\
    forall chunk, In chunk chunks ->
      content chunk <> [] /\ trim (content chunk) = content chunk.
Proof.
  apply (extractTextFromPDF_sections Examples.fetch_notes
           Examples.mammoth_notes (lit "u/notes.pdf") (lit "notes.pdf")
           Examples.notes
           (lit "Title" ++ newline ++ lit " " ++ newline ++ lit "Text "));
    reflexivity.
Defined.

(** ** The HTML extractor *)

Lemma collapse_spaces_In (s : jsstring) (c : N) :
  forall in_run, In c (collapse_spaces s in_run) ->
    c = 32%N \/ is_space c = false.
Proof.
  induction s as [|d s IH]; intros in_run; [intros []|].
  simpl. destruct (is_space d) eqn:Hd.
  - destruct in_run; [apply IH|].
    intros [H|H]; [now left|now apply IH in H].
  - intros [H|H]; [right; now subst|now apply IH in H].
Qed.

Lemma split_blank_lines_one_line (s : jsstring) :
  forall cur, ~ In 10%N s -> split_blank_lines s cur 0 = [rev cur ++ s].
Proof.
  induction s as [|c s IH]; intros cur Hs.
  - simpl. now rewrite app_nil_r.
  - simpl. destruct (N.eqb_spec c 10) as [->|Hc].
    + elim Hs. now left.
    + rewrite IH by (intros H; apply Hs; now right).
      simpl. now rewrite <- app_assoc.
Qed.

(** X12: the HTML extractor never returns more than one chunk.  Every run
    of white space, line feeds included, has become one space before the
    text is split at blank lines, so there is no blank line to split at:
    the result is the whole normalised text as ["Section 1"], or no chunk
    when that text is empty. *)
Theorem extractTextFromHTML_one_section
  (fetch : jsstring -> result Response) (remove_markup : jsstring -> jsstring)
  (fileUrl fileName : jsstring) (response : Response) :
  fetchFileContent fetch fileUrl = Ok response ->
  let textContent :=
    trim (collapse_spaces (remove_markup (body_text response)) false) in
  extractTextFromHTML fetch remove_markup fileUrl fileName
  = Ok (match textContent with
        | [] => []
        | _ :: _ =>
            [ mk_chunk textContent
                [ ("type"%string, MStr (lit "html"));
                  ("section"%string, MStr (lit "Section 1"));
                  ("filename"%string, MStr fileName) ] ]
        end).
Proof.
  intros Hfetch textContent.
  unfold extractTextFromHTML. rewrite Hfetch. cbn [bind]. fold textContent.
  assert (Hline : ~ In 10%N textContent).
  { intros H. apply trim_In, collapse_spaces_In in H.
    destruct H as [H|H]; discriminate H. }
  rewrite (split_blank_lines_one_line textContent [] Hline).
  cbn [rev app filter].
  assert (Hblank : nonblank textContent = truthy textContent).
  { unfold nonblank, textContent. now rewrite trim_idempotent. }
  rewrite Hblank.
  destruct textContent as [|c t]; reflexivity.
Qed.

Lemma extractTextFromHTML_one_section_witness :
  extractTextFromHTML Examples.fetch_notes (fun text => text)
    (lit "u/notes.html") (lit "notes.html")
  = Ok [ mk_chunk (lit "Intro Body")
           [ ("type"%string, MStr (lit "html"));
             ("section"%string, MStr (lit "Section 1"));
             ("filename"%string, MStr (lit "notes.html")) ] ].
Proof.
  apply (extractTextFromHTML_one_section Examples.fetch_notes
           (fun text => text) (lit "u/notes.html") (lit "notes.html")
           Examples.notes).
  reflexivity.
Defined.

(** ** Spreadsheets and notebooks: the numbers are positions *)

Lemma sheet_chunks_spec (fileName sheetName : jsstring)
  (rows : list (list jsstring)) (chunk : DocumentChunk) :
  forall index,
    In chunk (sheet_chunks fileName sheetName rows index) <->
    exists k row,
      nth_error rows k = Some row /\ row <> [] /\
      chunk = mk_chunk (join (lit ", ") row)
                [ ("type"%string, MStr (lit "xlsx"));
                  ("section"%string,
                   MStr (sheetName ++ lit " Row "
                         ++ string_of_nat (index + k + 1)));
                  ("sheet"%string, MStr sheetName);
                  ("row"%string, MNum (Z.of_nat (index + k) + 1));
                  ("filename"%string, MStr fileName) ].
Proof.
  induction rows as [|row rows IH]; intros index.
  - simpl. split; [intros []|]. intros (k & row & H & _). now destruct k.
  - simpl. destruct row as [|cell row].
    + rewrite IH. split.
      * intros (k & r & Hk & Hr & ->). exists (S k), r.
        simpl. repeat split; try assumption.
        now rewrite !Nat.add_succ_r.
      * intros (k & r & Hk & Hr & ->). destruct k as [|k]; simpl in Hk.
        { injection Hk as <-. now elim Hr. }
        exists k, r. repeat split; try assumption.
        now rewrite !Nat.add_succ_r.
    + simpl. rewrite IH. split.
      * intros [<-|(k & r & Hk & Hr & ->)].
        { exists 0%nat, (cell :: row). rewrite !Nat.add_0_r.
          repeat split. discriminate. }
        exists (S k), r. simpl. repeat split; try assumption.
        now rewrite !Nat.add_succ_r.
      * intros (k & r & Hk & Hr & ->). destruct k as [|k]; simpl in Hk.
        { injection Hk as <-. left. now rewrite !Nat.add_0_r. }
        right. exists k, r. repeat split; try assumption.
        now rewrite !Nat.add_succ_r.
Qed.

(** X13: the chunks of a workbook are its non-empty rows, and the [row]
    of a chunk is the position of the row in its sheet, counted from 1
    with the empty rows counted too: a chunk is returned exactly for
    sheet [sheet], position [k] and cells [row] with [row] the non-empty
    row [k] of that sheet, and it carries [row = k + 1]. *)
Theorem extractTextFromXLSX_row_numbers
  (fetch : jsstring -> result Response)
  (XLSX_sheets : list N -> result (list (jsstring * list (list jsstring))))
  (fileUrl fileName : jsstring) (response : Response)
  (workbook : list (jsstring * list (list jsstring))) :
  fetchFileContent fetch fileUrl = Ok response ->
  XLSX_sheets (body_arrayBuffer response) = Ok workbook ->
  exists chunks,
    extractTextFromXLSX fetch XLSX_sheets fileUrl fileName = Ok chunks /\
    forall chunk,
      In chunk chunks <->
      exists sheet k row,
        In sheet workbook /\
        nth_error (snd sheet) k = Some row /\ row <> [] /\
        chunk = mk_chunk (join (lit ", ") row)
                  [ ("type"%string, MStr (lit "xlsx"));
                    ("section"%string,
                     MStr (fst sheet ++ lit " Row " ++ string_of_nat (k + 1)));
                    ("sheet"%string, MStr (fst sheet));
                    ("row"%string, MNum (Z.of_nat k + 1));
                    ("filename"%string, MStr fileName) ].
Proof.
  intros Hfetch Hbook.
  unfold extractTextFromXLSX. rewrite Hfetch. cbn [bind].
  rewrite Hbook. cbn [bind].
  eexists. split; [reflexivity|].
  intros chunk. rewrite in_flat_map. split.
  - intros (sheet & Hsheet & Hin). apply sheet_chunks_spec in Hin.
    destruct Hin as (k & row & Hk & Hrow & ->).
    exists sheet, k, row. repeat split; assumption.
  - intros (sheet & k & row & Hsheet & Hk & Hrow & ->).
    exists sheet. split; [exact Hsheet|].
    apply sheet_chunks_spec. exists k, row. repeat split; assumption.
Qed.

Lemma extractTextFromXLSX_row_numbers_witness :
  exists chunks,
    extractTextFromXLSX Examples.fetch_notes Examples.one_sheet
      (lit "u/book.xlsx") (lit "book.xlsx") = Ok chunks /\
    forall chunk,
      In chunk chunks <->
      exists sheet k row,
        In sheet [ (lit "S1", [ [lit "a"; lit "b"]; []; [lit "c"] ]) ] /\
        nth_error (snd sheet) k = Some row /\ row <> [] /\
        chunk = mk_chunk (join (lit ", ") row)
                  [ ("type"%string, MStr (lit "xlsx"));
                    ("section"%string,
                     MStr (fst sheet ++ lit " Row " ++ string_of_nat (k + 1)));
                    ("sheet"%string, MStr (fst sheet));
                    ("row"%string, MNum (Z.of_nat k + 1));
                    ("filename"%string, MStr (lit "book.xlsx")) ].
Proof.
  apply (extractTextFromXLSX_row_numbers Examples.fetch_notes
           Examples.one_sheet (lit "u/book.xlsx") (lit "book.xlsx")
           Examples.notes);
    reflexivity.
Defined.

(** The content the source takes from a cell: the lines joined, or the
    text; none for a missing or empty [source]. *)
Lemma notebook_chunks_spec (fileName : jsstring)
  (cells : list notebook_cell) (chunk : DocumentChunk) :
  forall index,
    In chunk (notebook_chunks fileName cells index) <->
    exists k cell text,
      nth_error cells k = Some cell /\
      (source cell = SourceText text /\ text <> []
       \/ exists lines,
            source cell = SourceLines lines /\ lines <> [] /\
            text = join [] lines) /\
      chunk = mk_chunk text
                [ ("type"%string, MStr (lit "notebook"));
                  ("section"%string,
                   MStr (lit "Cell " ++ string_of_nat (index + k + 1)));
                  ("cellType"%string, MStr (cell_type cell));
                  ("cell"%string, MNum (Z.of_nat (index + k) + 1));
                  ("filename"%string, MStr fileName) ].
Proof.
  induction cells as [|cell cells IH]; intros index.
  - simpl. split; [intros []|]. intros (k & c & t & H & _). now destruct k.
  - assert (Hshift :
      (exists k c text,
         nth_error cells k = Some c /\
         (source c = SourceText text /\ text <> []
          \/ exists lines,
               source c = SourceLines lines /\ lines <> [] /\
               text = join [] lines) /\
         chunk = mk_chunk text
                   [ ("type"%string, MStr (lit "notebook"));
                     ("section"%string,
                      MStr (lit "Cell " ++ string_of_nat (S index + k + 1)));
                     ("cellType"%string, MStr (cell_type c));
                     ("cell"%string, MNum (Z.of_nat (S index + k) + 1));
                     ("filename"%string, MStr fileName) ])
      <->
      (exists k c text,
         nth_error (cell :: cells) (S k) = Some c /\
         (source c = SourceText text /\ text <> []
          \/ exists lines,
               source c = SourceLines lines /\ lines <> [] /\
               text = join [] lines) /\
         chunk = mk_chunk text
                   [ ("type"%string, MStr (lit "notebook"));
                     ("section"%string,
                      MStr (lit "Cell " ++ string_of_nat (index + S k + 1)));
                     ("cellType"%string, MStr (cell_type c));
                     ("cell"%string, MNum (Z.of_nat (index + S k) + 1));
                     ("filename"%string, MStr fileName) ])).
    { split; intros (k & c & t & Hk & Hsrc & ->); exists k, c, t;
        (split; [exact Hk|]); (split; [exact Hsrc|]);
        now rewrite !Nat.add_succ_r. }
    simpl notebook_chunks.
    destruct (source cell) as [lines|text|] eqn:Hsrc.
    + destruct lines as [|line lines].
      * rewrite IH, Hshift. split.
        -- intros (k & c & t & H). now exists (S k), c, t.
        -- intros (k & c & t & Hk & Hc & ->). destruct k as [|k].
           ++ simpl in Hk. injection Hk as <-. rewrite Hsrc in Hc.
              destruct Hc as [[H _]|(l & H & Hl & _)]; [discriminate|].
              injection H as <-. now elim Hl.
           ++ now exists k, c, t.
      * simpl. rewrite IH, Hshift. split.
        -- intros [<-|(k & c & t & H)]; [|now exists (S k), c, t].
           exists 0%nat, cell, (join [] (line :: lines)).
           rewrite !Nat.add_0_r. split; [reflexivity|]. split; [|reflexivity].
           right. exists (line :: lines). repeat split; [assumption|discriminate].
        -- intros (k & c & t & Hk & Hc & ->). destruct k as [|k].
           ++ simpl in Hk. injection Hk as <-. rewrite Hsrc in Hc.
              destruct Hc as [[H _]|(l & H & Hl & ->)]; [discriminate|].
              injection H as <-. left. now rewrite !Nat.add_0_r.
           ++ right. now exists k, c, t.
    + destruct text as [|c0 text].
      * rewrite IH, Hshift. split.
        -- intros (k & c & t & H). now exists (S k), c, t.
        -- intros (k & c & t & Hk & Hc & ->). destruct k as [|k].
           ++ simpl in Hk. injection Hk as <-. rewrite Hsrc in Hc.
              destruct Hc as [[H Ht]|(l & H & _)]; [|discriminate].
              injection H as <-. now elim Ht.
           ++ now exists k, c, t.
      * simpl. rewrite IH, Hshift. split.
        -- intros [<-|(k & c & t & H)]; [|now exists (S k), c, t].
           exists 0%nat, cell, (c0 :: text).
           rewrite !Nat.add_0_r. split; [reflexivity|]. split; [|reflexivity].
           left. split; [assumption|discriminate].
        -- intros (k & c & t & Hk & Hc & ->). destruct k as [|k].
           ++ simpl in Hk. injection Hk as <-. rewrite Hsrc in Hc.
              destruct Hc as [[H Ht]|(l & H & _)]; [|discriminate].
              injection H as <-. left. now rewrite !Nat.add_0_r.
           ++ right. now exists k, c, t.
    + rewrite IH, Hshift. split.
      * intros (k & c & t & H). now exists (S k), c, t.
      * intros (k & c & t & Hk & Hc & ->). destruct k as [|k].
        -- simpl in Hk. injection Hk as <-. rewrite Hsrc in Hc.
           destruct Hc as [[H _]|(l & H & _)]; discriminate.
        -- now exists k, c, t.
Qed.

(** X14: the chunks of a notebook are its cells with a non-empty source,
    and the [cell] of a chunk is the position of the cell in the notebook,
    counted from 1 with the skipped cells counted too; the content is the
    source text, or the source lines joined without a separator. *)
Theorem extractTextFromNotebook_cell_numbers
  (fetch : jsstring -> result Response)
  (notebook_cells : jsstring -> result (list notebook_cell))
  (fileUrl fileName : jsstring) (response : Response)
  (cells : list notebook_cell) :
  fetchFileContent fetch fileUrl = Ok response ->
  notebook_cells (body_text response) = Ok cells ->
  exists chunks,
    extractTextFromNotebook fetch notebook_cells fileUrl fileName
    = Ok chunks /\
    forall chunk,
      In chunk chunks <->
      exists k cell text,
        nth_error cells k = Some cell /\
        (source cell = SourceText text /\ text <> []
         \/ exists lines,
              source cell = SourceLines lines /\ lines <> [] /\
              text = join [] lines) /\
        chunk = mk_chunk text
                  [ ("type"%string, MStr (lit "notebook"));
                    ("section"%string,
                     MStr (lit "Cell " ++ string_of_nat (k + 1)));
                    ("cellType"%string, MStr (cell_type cell));
                    ("cell"%string, MNum (Z.of_nat k + 1));
                    ("filename"%string, MStr fileName) ].
Proof.
  intros Hfetch Hcells.
  unfold extractTextFromNotebook. rewrite Hfetch. cbn [bind].
  rewrite Hcells. cbn [bind].
  eexists. split; [reflexivity|].
  intros chunk. apply (notebook_chunks_spec fileName cells chunk 0%nat).
Qed.

Lemma extractTextFromNotebook_cell_numbers_witness :
  exists chunks,
    extractTextFromNotebook Examples.fetch_notes Examples.three_cells
      (lit "u/nb.ipynb") (lit "nb.ipynb") = Ok chunks /\
    forall chunk,
      In chunk chunks <->
      exists k cell text,
        nth_error
          [ mk_notebook_cell (SourceLines [lit "x = 1"; newline]) (lit "code");
            mk_notebook_cell SourceMissing (lit "code");
            mk_notebook_cell (SourceText (lit "Notes")) (lit "markdown") ]
          k = Some cell /\
        (source cell = SourceText text /\ text <> []
         \/ exists lines,
              source cell = SourceLines lines /\ lines <> [] /\
              text = join [] lines) /\
        chunk = mk_chunk text
                  [ ("type"%string, MStr (lit "notebook"));
                    ("section"%string,
                     MStr (lit "Cell " ++ string_of_nat (k + 1)));
                    ("cellType"%string, MStr (cell_type cell));
                    ("cell"%string, MNum (Z.of_nat k + 1));
                    ("filename"%string, MStr (lit "nb.ipynb")) ].
Proof.
  apply (extractTextFromNotebook_cell_numbers Examples.fetch_notes
           Examples.three_cells (lit "u/nb.ipynb") (lit "nb.ipynb")
           Examples.notes);
    reflexivity.
Defined.

(** ** The file name the dispatcher reports *)

Lemma last_segment_spec (s : jsstring) :
  forall cur, ~ In 47%N cur ->
    ~ In 47%N (last_segment s cur) /\
    exists prefix,
      rev cur ++ s = prefix ++ last_segment s cur /\
      (prefix = [] \/ exists p, prefix = p ++ [47%N]).
Proof.
  induction s as [|c s IH]; intros cur Hcur.
  - simpl. split.
    + intros H. apply Hcur. now apply in_rev.
    + exists []. split; [now rewrite app_nil_r|now left].
  - simpl. destruct (N.eqb_spec c 47) as [->|Hc].
    + destruct (IH [] (fun H => H)) as [Hno (prefix & Heq & Hprefix)].
      split; [exact Hno|].
      exists (rev cur ++ [47%N] ++ prefix). split.
      * simpl in Heq. rewrite <- !app_assoc. simpl.
        f_equal. f_equal. exact Heq.
      * right. destruct Hprefix as [->|(p & ->)].
        -- exists (rev cur). now rewrite app_nil_r.
        -- exists (rev cur ++ [47%N] ++ p). now rewrite <- !app_assoc.
    + destruct (IH (c :: cur)) as [Hno (prefix & Heq & Hprefix)].
      { intros [H|H]; [now apply Hc|now apply Hcur]. }
      split; [exact Hno|].
      exists prefix. split; [|exact Hprefix].
      rewrite <- Heq. simpl. now rewrite <- app_assoc.
Qed.

(** X15: the file name that the dispatcher hands to the extractors and
    puts in its error message is never empty and holds no slash: it is
    what follows the last slash of the URL (the whole URL when it has no
    slash), and ["document"] when nothing follows it. *)
Theorem file_name_last_segment (fileUrl : jsstring) :
  file_name fileUrl <> [] /\
  ~ In 47%N (file_name fileUrl) /\
  exists prefix segment,
    fileUrl = prefix ++ segment /\
    (prefix = [] \/ exists p, prefix = p ++ [47%N]) /\
    ~ In 47%N segment /\
    file_name fileUrl
    = match segment with [] => lit "document" | _ :: _ => segment end.
Proof.
  unfold file_name.
  destruct (last_segment_spec fileUrl [] (fun H => H))
    as [Hno (prefix & Heq & Hprefix)].
  simpl in Heq.
  destruct (last_segment fileUrl []) as [|c name] eqn:Hname.
  - cbn [truthy]. split; [discriminate|]. split.
    + intros H. vm_compute in H. intuition discriminate.
    + exists prefix, []. repeat split; assumption.
  - cbn [truthy]. split; [discriminate|]. split; [exact Hno|].
    exists prefix, (c :: name). repeat split; assumption.
Qed.

(** ** lib/gemini.ts: the tags and the summary of a document *)

Lemma js_slice_firstn {A : Type} (l : list A) (n : Z) :
  0 <= n -> js_slice l 0 n = firstn (Z.to_nat n) l.
Proof.
  intros Hn. unfold js_slice.
  destruct (Z.ltb_spec n 0); [lia|]. cbn [Z.ltb Z.compare].
  rewrite (Z.min_l 0) by lia. cbn [Z.to_nat skipn]. rewrite Z.sub_0_r.
  destruct (Z.le_ge_cases n (Z.of_nat (length l))) as [H1|H1].
  - now rewrite Z.min_l by lia.
  - rewrite Z.min_r by lia. rewrite Nat2Z.id.
    rewrite firstn_all. symmetry. apply firstn_all2. lia.
Qed.

Lemma split_on_no_separator (sep : N) (s : jsstring) :
  forall cur piece,
    ~ In sep cur -> In piece (split_on sep s cur) -> ~ In sep piece.
Proof.
  induction s as [|c s IH]; intros cur piece Hcur.
  - simpl. intros [<-|[]] H. apply Hcur. now apply in_rev.
  - simpl. destruct (N.eqb_spec c sep) as [->|Hc].
    + intros [<-|H].
      * intros H. apply Hcur. now apply in_rev.
      * now apply (IH [] piece (fun H => H)).
    + apply IH. intros [H|H]; [now apply Hc|now apply Hcur].
Qed.

Lemma split_on_length (sep : N) (s : jsstring) :
  forall cur,
    length (split_on sep s cur) = S (length (filter (N.eqb sep) s)).
Proof.
  induction s as [|c s IH]; intros cur; [reflexivity|].
  simpl. rewrite (N.eqb_sym sep c).
  destruct (N.eqb c sep); simpl; now rewrite IH.
Qed.

Lemma parse_tags_well_formed (tagsText tag : jsstring) :
  In tag (GeminiDocuments.parse_tags tagsText) ->
  tag <> [] /\ ~ In 44%N tag /\ trim tag = tag.
Proof.
  unfold GeminiDocuments.parse_tags. rewrite js_slice_firstn by lia.
  intros H. apply firstn_In, filter_In in H. destruct H as [H Hlen].
  apply in_map_iff in H. destruct H as (piece & <- & Hpiece).
  split; [|split].
  - intros Hnil. rewrite Hnil in Hlen. discriminate.
  - intros Hcomma. apply trim_In in Hcomma. revert Hcomma.
    now apply (split_on_no_separator 44 tagsText [] piece (fun H => H)).
  - apply trim_idempotent.
Qed.

Lemma fallback_tags_well_formed (toLowerCase : jsstring -> jsstring)
  (chunks : list DocumentChunk) (tag : jsstring) :
  In tag (GeminiDocuments.fallback_tags toLowerCase chunks) ->
  tag <> [] /\ ~ In 44%N tag /\ trim tag = tag.
Proof.
  unfold GeminiDocuments.fallback_tags. rewrite js_slice_firstn by lia.
  intros H. apply firstn_In in H.
  assert (Hfixed : In tag (GeminiDocuments.fallbackTags
                           ++ GeminiDocuments.commonWords)).
  { apply in_app_or in H. apply in_or_app.
    destruct H as [H|H]; [now left|right]. now apply filter_In in H. }
  clear H.
  repeat (destruct Hfixed as [<-|Hfixed];
          [split; [discriminate|];
           split; [|reflexivity];
           vm_compute; intuition discriminate|]).
  destruct Hfixed.
Qed.

(** X16: [generateTags] always returns, with at most ten tags, and every
    tag it returns, parsed from the model's answer or taken from the fixed
    words of the fallback, is not empty, holds no comma and has no white
    space at either end. *)
Theorem generateTags_well_formed
  (generateContent : jsstring -> nat -> result (result jsstring))
  (random : nat -> Q) (toLowerCase : jsstring -> jsstring)
  (chunks : list DocumentChunk) :
  exists tags,
    GeminiDocuments.generateTags generateContent random toLowerCase chunks
    = Ok tags /\
    (length tags <= 10)%nat /\
    forall tag, In tag tags ->
      tag <> [] /\ ~ In 44%N tag /\ trim tag = tag.
Proof.
  unfold GeminiDocuments.generateTags.
  destruct (fst (Gemini.retryWithBackoff _ random _ _)) as [[text|e]|e];
    cbn [bind try_catch].
  - eexists. split; [reflexivity|]. split.
    + unfold GeminiDocuments.parse_tags. rewrite js_slice_firstn by lia.
      rewrite length_firstn. lia.
    + apply parse_tags_well_formed.
  - eexists. split; [reflexivity|]. split.
    + unfold GeminiDocuments.fallback_tags.
      rewrite js_slice_firstn by lia. rewrite length_firstn. lia.
    + apply fallback_tags_well_formed.
  - eexists. split; [reflexivity|]. split.
    + unfold GeminiDocuments.fallback_tags.
      rewrite js_slice_firstn by lia. rewrite length_firstn. lia.
    + apply fallback_tags_well_formed.
Qed.

(** X17: when the model call fails, after the retries or at once, or the
    text of its response cannot be read, [generateTags] returns the three
    fixed tags followed by the first two of the ten common words that the
    lower-cased text of all chunks contains.  The tags need not be
    different: a text that contains ["analysis"] but neither ["research"]
    nor ["report"] gets the tag ["analysis"] twice. *)
Theorem generateTags_fallback
  (generateContent : jsstring -> nat -> result (result jsstring))
  (random : nat -> Q) (toLowerCase : jsstring -> jsstring)
  (chunks : list DocumentChunk) (error : js_error) :
  let attempt :=
    fst (Gemini.retryWithBackoff
           (generateContent
              (GeminiDocuments.tags_prompt
                 (join (newline ++ newline)
                    (map content (js_slice chunks 0 5)))))
           random Gemini.default_maxRetries Gemini.default_baseDelay) in
  attempt = Throw error \/ attempt = Ok (Throw error) ->
  let allText := toLowerCase (join (lit " ") (map content chunks)) in
  let foundTags :=
    filter (fun word => includes allText word) GeminiDocuments.commonWords in
  let tags :=
    GeminiDocuments.generateTags generateContent random toLowerCase chunks in
  tags = Ok ([lit "document"; lit "analysis"; lit "content"]
             ++ firstn 2 foundTags) /\
  (includes allText (lit "analysis") = true ->
   includes allText (lit "research") = false ->
   includes allText (lit "report") = false ->
   exists rest,
     tags = Ok ([lit "document"; lit "analysis"; lit "content";
                 lit "analysis"] ++ rest)).
Proof.
  intros attempt Hfail allText foundTags tags.
  assert (Hrun : tags = Ok (GeminiDocuments.fallbackTags
                            ++ firstn 2 foundTags)).
  { unfold tags, GeminiDocuments.generateTags. fold attempt.
    destruct Hfail as [-> | ->]; cbn [bind try_catch];
      unfold GeminiDocuments.fallback_tags; fold allText; fold foundTags;
      rewrite js_slice_firstn by lia; reflexivity. }
  split; [exact Hrun|].
  intros Ha Hr Hp. rewrite Hrun.
  unfold foundTags, GeminiDocuments.commonWords.
  cbn [filter]. rewrite Ha, Hr, Hp.
  eexists. reflexivity.
Qed.

Lemma generateTags_fallback_witness :
  GeminiDocuments.generateTags Examples.model_down (fun _ => 0%Q)
    (map Examples.ascii_lower) Examples.market_report
  = Ok ([lit "document"; lit "analysis"; lit "content"]
        ++ firstn 2
             (filter
                (fun word =>
                   includes
                     (map Examples.ascii_lower
                        (join (lit " ") (map content Examples.market_report)))
                     word)
                GeminiDocuments.commonWords)).
Proof.
  exact (proj1 (generateTags_fallback Examples.model_down (fun _ => 0%Q)
                  (map Examples.ascii_lower) Examples.market_report
                  (Error (lit "fetch failed")) (or_introl eq_refl))).
Defined.

Lemma wordCount_from (chunks : list DocumentChunk) :
  forall total,
    fold_left
      (fun total chunk =>
         (total + length (split_on 32 (content chunk) []))%nat)
      chunks total
    = (total + length (filter (N.eqb 32) (concat (map content chunks)))
       + length chunks)%nat.
Proof.
  induction chunks as [|chunk chunks IH]; intros total; simpl; [lia|].
  rewrite IH, split_on_length, filter_app, length_app. lia.
Qed.

(** X18: [generateDocumentSummary] always returns a text: the model's, or,
    when the call fails or the text of its response cannot be read, the
    fixed fallback text.  The number of words which that text reports is
    the number of spaces in the chunks plus the number of chunks, so every
    chunk counts for at least one word, an empty one too. *)
Theorem generateDocumentSummary_replies
  (generateContent : jsstring -> nat -> result (result jsstring))
  (random : nat -> Q) (chunks : list DocumentChunk) :
  let attempt :=
    fst (Gemini.retryWithBackoff
           (generateContent
              (GeminiDocuments.summary_prompt
                 (join (newline ++ newline) (map content chunks))))
           random Gemini.default_maxRetries Gemini.default_baseDelay) in
  let summary :=
    GeminiDocuments.generateDocumentSummary generateContent random chunks in
  (exists text, summary = Ok text) /\
  (forall text, attempt = Ok (Ok text) -> summary = Ok text) /\
  (forall error, attempt = Throw error \/ attempt = Ok (Throw error) ->
     summary = Ok (GeminiDocuments.fallback_summary chunks)) /\
  GeminiDocuments.wordCount chunks
  = (length (filter (N.eqb 32) (concat (map content chunks)))
     + length chunks)%nat.
Proof.
  intros attempt summary.
  unfold summary, GeminiDocuments.generateDocumentSummary.
  fold attempt. repeat split.
  - destruct attempt as [[text|e]|e]; cbn [bind try_catch]; eauto.
  - intros text ->. reflexivity.
  - intros error [-> | ->]; reflexivity.
  - unfold GeminiDocuments.wordCount. now rewrite wordCount_from.
Qed.

(** ** lib/embeddings.ts: one stored row for every chunk *)

Lemma set_meta_get (key : string) (value : meta_value)
  (m : list (string * meta_value)) :
  meta_get key (EmbeddingStore.set_meta key value m) = Some value.
Proof.
  induction m as [|[k v] m IH]; simpl.
  - now rewrite String.eqb_refl.
  - destruct (String.eqb k key) eqn:Hk; simpl; now rewrite Hk.
Qed.

Lemma set_meta_get_other (key other : string) (value : meta_value)
  (m : list (string * meta_value)) :
  other <> key ->
  meta_get other (EmbeddingStore.set_meta key value m) = meta_get other m.
Proof.
  intros Hother. induction m as [|[k v] m IH]; simpl.
  - destruct (String.eqb_spec key other); [congruence|reflexivity].
  - destruct (String.eqb_spec k key) as [->|Hk]; simpl.
    + destruct (String.eqb_spec key other); [congruence|reflexivity].
    + destruct (String.eqb k other); [reflexivity|exact IH].
Qed.

Section StoredRows.

Variable number : Type.
Variable zero : number.
Variables add mul div : number -> number -> number.
Variables Math_sqrt Math_sin : number -> number.
Variable of_N : N -> number.
Variables tenth half : number.
Variable gt : number -> number -> bool.
Variable featureExtraction : jsstring -> nat -> result (hf_response number).
Variable random : nat -> Q.
Variable documentId : jsstring.

Let embed :=
  generateEmbedding number zero add mul div Math_sqrt Math_sin of_N tenth
    half gt featureExtraction random.
Let rows_from :=
  EmbeddingStore.embed_chunks number zero add mul div Math_sqrt Math_sin
    of_N tenth half gt featureExtraction random documentId.

(** The row that the loop pushes for a chunk. *)
Let row_of (chunk : DocumentChunk) (row : EmbeddingStore.embedding_row number)
  : Prop :=
  EmbeddingStore.row_document_id row = documentId /\
  EmbeddingStore.row_content row = content chunk /\
  EmbeddingStore.row_embedding row <> [] /\
  exists model,
    (model = lit "huggingface" \/ model = lit "fallback") /\
    EmbeddingStore.row_metadata row
    = EmbeddingStore.set_meta "embedding_model" (MStr model) (metadata chunk).

Lemma generateEmbedding_labelled (text : jsstring) :
  exists embedding model,
    embed text = Ok (embedding, model) /\ embedding <> [] /\
    (model = lit "huggingface" \/ model = lit "fallback").
Proof.
  set (fallback :=
         generateDeterministicEmbedding number zero add mul div Math_sqrt
           Math_sin of_N tenth half gt text).
  assert (Hne : fallback <> []).
  { assert (Hlen : length fallback = 384%nat).
    { unfold fallback, generateDeterministicEmbedding.
      match goal with |- context [if ?c then _ else _] => destruct c end;
        rewrite ?length_map, accumulate_length; apply repeat_length. }
    intros H. rewrite H in Hlen. discriminate. }
  unfold embed, generateEmbedding. fold fallback.
  destruct (fst (retryWithBackoff (featureExtraction text) random
                   default_maxRetries default_baseDelay))
    as [[[|x rest]|[|[|x rest] others]]|e]; simpl;
    try (exists fallback, (lit "fallback");
         split; [reflexivity|split; [exact Hne|now right]]);
    exists (x :: rest), (lit "huggingface");
    (split; [reflexivity|split; [discriminate|now left]]).
Qed.

Lemma embed_chunks_rows (chunks : list DocumentChunk) :
  forall embeddings,
  exists rows,
    rows_from chunks embeddings = embeddings ++ rows /\
    length rows = length chunks /\
    forall k chunk, nth_error chunks k = Some chunk ->
      exists row, nth_error rows k = Some row /\ row_of chunk row.
Proof.
  induction chunks as [|chunk chunks IH]; intros embeddings.
  - exists []. split; [now rewrite app_nil_r|]. split; [reflexivity|].
    intros k c Hk. now destruct k.
  - destruct (generateEmbedding_labelled (content chunk))
      as (embedding & model & Hrun & Hne & Hmodel).
    unfold rows_from. simpl. fold embed. rewrite Hrun. fold rows_from.
    destruct (IH (embeddings
                  ++ [EmbeddingStore.mk_embedding_row number documentId
                        (content chunk)
                        (EmbeddingStore.set_meta "embedding_model"
                           (MStr model) (metadata chunk))
                        embedding]))
      as (rows & Hrows & Hlen & Hnth).
    eexists (_ :: rows). split; [|split].
    + rewrite Hrows, <- app_assoc. reflexivity.
    + simpl. now rewrite Hlen.
    + intros k c Hk. destruct k as [|k]; simpl in Hk.
      * injection Hk as <-. eexists. split; [reflexivity|].
        repeat split; try assumption. now exists model.
      * now apply Hnth.
Qed.

End StoredRows.

(** X19: [storeDocumentEmbeddings] hands one row to the insert for every
    chunk, in the order of the chunks; no chunk is passed over, because
    [generateEmbedding] never throws.  Row [k] carries the document's
    identifier, the content of chunk [k], a vector that is not empty and
    the metadata of the chunk with [embedding_model] set to
    ["huggingface"] or ["fallback"].  The call throws exactly when the
    insert throws or returns an error, and then that error. *)
Theorem storeDocumentEmbeddings_every_chunk (number : Type) (zero : number)
  (add mul div : number -> number -> number)
  (Math_sqrt Math_sin : number -> number) (of_N : N -> number)
  (tenth half : number) (gt : number -> number -> bool)
  (featureExtraction : jsstring -> nat -> result (hf_response number))
  (random : nat -> Q) (stored : Type)
  (insert_select :
     list (EmbeddingStore.embedding_row number) ->
     result (reply (list stored)))
  (documentId : jsstring) (chunks : list DocumentChunk) :
  exists rows,
    EmbeddingStore.storeDocumentEmbeddings number zero add mul div Math_sqrt
      Math_sin of_N tenth half gt featureExtraction random stored
      insert_select documentId chunks
    = match insert_select rows with
      | Ok (Data data) => Ok data
      | Ok (DbError error) => Throw error
      | Throw error => Throw error
      end /\
    length rows = length chunks /\
    forall k chunk, nth_error chunks k = Some chunk ->
      exists row,
        nth_error rows k = Some row /\
        EmbeddingStore.row_document_id row = documentId /\
        EmbeddingStore.row_content row = content chunk /\
        EmbeddingStore.row_embedding row <> [] /\
        (meta_get "embedding_model" (EmbeddingStore.row_metadata row)
         = Some (MStr (lit "huggingface"))
         \/ meta_get "embedding_model" (EmbeddingStore.row_metadata row)
            = Some (MStr (lit "fallback"))) /\
        forall key, key <> "embedding_model"%string ->
          meta_get key (EmbeddingStore.row_metadata row)
          = meta_get key (metadata chunk).
Proof.
  destruct (embed_chunks_rows number zero add mul div Math_sqrt Math_sin
              of_N tenth half gt featureExtraction random documentId
              chunks [])
    as (rows & Hrows & Hlen & Hnth).
  exists rows. split; [|split; [exact Hlen|]].
  - unfold EmbeddingStore.storeDocumentEmbeddings.
    cbv zeta. rewrite Hrows. cbn [app].
    destruct (insert_select rows) as [[data|error]|error]; reflexivity.
  - intros k chunk Hk.
    destruct (Hnth k chunk Hk)
      as (row & Hrow & Hid & Hcontent & Hne & model & Hmodel & Hmeta).
    exists row. repeat split; try assumption.
    + rewrite Hmeta, set_meta_get.
      destruct Hmodel as [-> | ->]; [now left|now right].
    + intros key Hkey. rewrite Hmeta. now apply set_meta_get_other.
Qed.

(** ** Hybrid search without a keyword *)

Lemma filter_none {A : Type} (p : A -> bool) (l : list A) :
  (forall x, p x = false) -> filter p l = [].
Proof.
  intros Hp. induction l as [|x l IH]; simpl; [reflexivity|].
  now rewrite Hp.
Qed.

(** Filtering rows keeps their keys different. *)
Lemma filter_keeps_distinct {A B : Type} (key : A -> B) (keep : A -> bool) :
  forall rows : list A,
    NoDup (map key rows) -> NoDup (map key (filter keep rows)).
Proof.
  intros rows. induction rows as [|x rows IH]; simpl; [auto|].
  intros H. inversion H as [|? ? Hx Hrows]; subst.
  destruct (keep x); simpl; [|now apply IH].
  constructor; [|now apply IH].
  intros Hin. apply Hx. apply in_map_iff in Hin.
  destruct Hin as (y & Hy & Hin). apply filter_In in Hin.
  apply in_map_iff. exists y. tauto.
Qed.

Lemma NoDup_map_firstn {A B : Type} (f : A -> B) (l : list A) :
  NoDup (map f l) -> forall n, NoDup (map f (firstn n l)).
Proof.
  induction l as [|x l IH]; intros H [|n]; simpl; try constructor.
  - inversion H as [|? ? Hx Hl]; subst.
    intros Hin. apply Hx. apply in_map_iff in Hin.
    destruct Hin as (y & Hy & Hin). apply firstn_In in Hin.
    apply in_map_iff. now exists y.
  - inversion H; subst. now apply IH.
Qed.

Lemma NoDup_map_insert_sorted {A B : Type} (f : A -> B)
  (after : A -> A -> bool) (x : A) (l : list A) :
  NoDup (map f (x :: l)) -> NoDup (map f (insert_sorted after x l)).
Proof.
  induction l as [|y l IH]; simpl; [auto|].
  intros H. destruct (after x y); [|exact H].
  inversion H as [|? ? Hx Hl]; subst.
  inversion Hl as [|? ? Hy Hl']; subst.
  simpl. constructor.
  - intros Hin. apply in_map_iff in Hin. destruct Hin as (z & Hz & Hin).
    apply insert_sorted_In in Hin. destruct Hin as [->|Hin].
    + apply Hx. left. now symmetry.
    + apply Hy. apply in_map_iff. now exists z.
  - apply IH. simpl. constructor; [|exact Hl'].
    intros Hin. apply Hx. now right.
Qed.

Lemma NoDup_map_sort_by {A B : Type} (f : A -> B) (after : A -> A -> bool)
  (l : list A) :
  NoDup (map f l) -> NoDup (map f (sort_by after l)).
Proof.
  induction l as [|x l IH]; simpl; [auto|].
  intros H. inversion H as [|? ? Hx Hl]; subst.
  apply NoDup_map_insert_sorted. simpl. constructor; [|now apply IH].
  intros Hin. apply Hx. apply in_map_iff in Hin.
  destruct Hin as (y & Hy & Hin). apply sort_by_In in Hin.
  apply in_map_iff. now exists y.
Qed.

Lemma distinct_by_distinct_ids (rows : list search_row) :
  forall seen,
    NoDup (map sr_id (seen ++ rows)) ->
    distinct_by search_row_eqb seen rows = rows.
Proof.
  induction rows as [|r rows IH]; intros seen H; [reflexivity|].
  simpl. assert (Hnew : existsb (search_row_eqb r) seen = false).
  { destruct (existsb (search_row_eqb r) seen) eqn:E; [|reflexivity].
    apply existsb_exists in E. destruct E as (s & Hs & Heq).
    apply search_row_eqb_iff in Heq. destruct Heq as [Hid _].
    rewrite map_app in H. apply NoDup_remove_2 in H. elim H.
    apply in_or_app. left. apply in_map_iff. exists s. now split. }
  rewrite Hnew. f_equal. apply IH. now rewrite <- app_assoc.
Qed.

Section VectorOnly.

Variable vector : Type.
Variable cosine_distance : vector -> vector -> Q.
Variable db : Sql.tables vector.
Variable query_embedding : vector.
Variable user_id : jsstring.
Variable match_threshold : Q.
Variable match_count : nat.

Hypothesis embedding_key : NoDup (map Sql.de_id (Sql.document_embeddings db)).
Hypothesis document_key :
  NoDup (map (@Sql.d_id) (Sql.documents db)).

Let vs :=
  Sql.vector_search vector cosine_distance db query_embedding user_id
    match_threshold match_count.

Lemma joined_one_document (de : Sql.document_embedding vector)
  (docs : list Sql.document) :
  NoDup (map (@Sql.d_id) docs) ->
  (length (filter (fun d => jsstring_eqb (Sql.d_id d) (Sql.de_document_id de))
             docs) <= 1)%nat.
Proof.
  induction docs as [|d docs IH]; simpl; [lia|].
  intros H. inversion H as [|? ? Hd Hdocs]; subst.
  destruct (jsstring_eqb (Sql.d_id d) (Sql.de_document_id de)) eqn:E;
    [|now apply IH].
  simpl. apply jsstring_eqb_eq in E.
  destruct (filter _ docs) as [|d' rest] eqn:F; [simpl; lia|].
  exfalso. apply Hd.
  assert (Hin : In d' (filter
                  (fun d => jsstring_eqb (Sql.d_id d) (Sql.de_document_id de))
                  docs)) by (rewrite F; now left).
  apply filter_In in Hin. destruct Hin as [Hin Heq].
  apply jsstring_eqb_eq in Heq.
  apply in_map_iff. exists d'. split; [congruence|exact Hin].
Qed.

Lemma joined_distinct_ids :
  NoDup (map (fun row => Sql.de_id (fst row)) (Sql.joined db)).
Proof.
  unfold Sql.joined. revert embedding_key.
  generalize (Sql.document_embeddings db).
  induction l as [|de des IH]; simpl; [constructor|].
  intros H. inversion H as [|? ? Hde Hdes]; subst.
  rewrite map_app, map_map. cbn [fst].
  pose proof (joined_one_document de (Sql.documents db) document_key) as Hone.
  assert (Hrest : ~ In (Sql.de_id de)
            (map (fun row => Sql.de_id (fst row))
               (flat_map
                  (fun de0 =>
                     map (fun d => (de0, d))
                       (filter
                          (fun d => jsstring_eqb (Sql.d_id d)
                                      (Sql.de_document_id de0))
                          (Sql.documents db)))
                  des))).
  { intros Hin. apply Hde. apply in_map_iff in Hin.
    destruct Hin as ([de' d] & Hid & Hin). apply in_flat_map in Hin.
    destruct Hin as (de0 & Hde0 & Hin). apply in_map_iff in Hin.
    destruct Hin as (d0 & Hpair & _). injection Hpair as <- <-.
    apply in_map_iff. now exists de0. }
  destruct (filter _ (Sql.documents db)) as [|d [|d' rest]];
    simpl in Hone; try lia; simpl.
  - now apply IH.
  - constructor; [exact Hrest|now apply IH].
Qed.

Lemma vector_search_distinct_ids : NoDup (map sr_id vs).
Proof.
  unfold vs, Sql.vector_search. rewrite map_map. cbn [Sql.select_row sr_id].
  apply NoDup_map_firstn, NoDup_map_sort_by, filter_keeps_distinct.
  exact joined_distinct_ids.
Qed.

Lemma search_documents_no_keyword (ilike : jsstring -> jsstring -> bool)
  (keyword_query : option jsstring) :
  keyword_query = None \/ keyword_query = Some [] ->
  Sql.search_documents vector cosine_distance ilike db query_embedding
    user_id match_threshold match_count keyword_query
  = sort_by Sql.by_similarity_desc vs.
Proof.
  intros Hkeyword. unfold Sql.search_documents. fold vs.
  assert (Hks : Sql.keyword_search vector ilike db user_id match_count
                  keyword_query = []).
  { unfold Sql.keyword_search.
    rewrite filter_none; [now rewrite firstn_nil|].
    intros row. destruct Hkeyword as [-> | ->]; cbn; apply andb_false_r. }
  rewrite Hks. unfold Sql.sql_union. rewrite app_nil_r.
  rewrite distinct_by_distinct_ids by exact vector_search_distinct_ids.
  apply firstn_all2. rewrite sort_by_length. unfold vs, Sql.vector_search.
  rewrite length_map, length_firstn. lia.
Qed.

End VectorOnly.

(** X20: without a keyword ([null] or the empty string), and with [id] a
    key of [document_embeddings] and of [documents], the hybrid
    [search_documents] returns the rows of its vector search and no
    others, each once, sorted by similarity descending: the union with
    the empty keyword set and the second limit add and drop nothing.
    Which of several rows with the same similarity comes first is left
    open. *)
Theorem search_documents_without_keyword (vector : Type)
  (cosine_distance : vector -> vector -> Q)
  (ilike : jsstring -> jsstring -> bool) (db : Sql.tables vector)
  (query_embedding : vector) (user_id : jsstring) (match_threshold : Q)
  (match_count : nat) (keyword_query : option jsstring) :
  NoDup (map Sql.de_id (Sql.document_embeddings db)) ->
  NoDup (map (@Sql.d_id) (Sql.documents db)) ->
  keyword_query = None \/ keyword_query = Some [] ->
  let vs :=
    Sql.vector_search vector cosine_distance db query_embedding user_id
      match_threshold match_count in
  let result :=
    Sql.search_documents vector cosine_distance ilike db query_embedding
      user_id match_threshold match_count keyword_query in
  (forall r, In r result <-> In r vs) /\
  (forall f : search_row -> bool,
     length (filter f result) = length (filter f vs)) /\
  NoDup (map sr_id result) /\
  StronglySorted (fun a b => sr_similarity b <= sr_similarity a)%Q result.
Proof.
  intros Hde Hd Hkeyword vs result.
  assert (Hresult : result = sort_by Sql.by_similarity_desc vs)
    by now apply search_documents_no_keyword.
  rewrite Hresult. split; [|split; [|split]].
  - intros r. apply sort_by_In.
  - intros f. apply sort_by_filter_length.
  - apply NoDup_map_sort_by. now apply vector_search_distinct_ids.
  - apply by_similarity_desc_sorted.
Qed.

Lemma search_documents_without_keyword_witness :
  let vs :=
    Sql.vector_search (list Z) (fun _ _ => 0%Q) Samples.six_chunks []
      (lit "u1") 0 3 in
  let result :=
    Sql.search_documents (list Z) (fun _ _ => 0%Q) Samples.ilike_alpha
      Samples.six_chunks [] (lit "u1") 0 3 None in
  (forall r, In r result <-> In r vs) /\
  (forall f : search_row -> bool,
     length (filter f result) = length (filter f vs)) /\
  NoDup (map sr_id result) /\
  StronglySorted (fun a b => sr_similarity b <= sr_similarity a)%Q result.
Proof.
  apply (search_documents_without_keyword (list Z) (fun _ _ => 0%Q)
           Samples.ilike_alpha Samples.six_chunks [] (lit "u1") 0 3 None).
  - vm_compute. repeat constructor; simpl; intuition discriminate.
  - vm_compute. repeat constructor; simpl; intuition discriminate.
  - now left.
Defined.

(** ** app/api/chat/route.ts: the handler *)

Lemma decomposeQuery_nonempty
  (generateContent : jsstring -> nat -> result (result jsstring))
  (random : nat -> Q) (JSON_parse : jsstring -> result json)
  (query : jsstring) :
  exists queries,
    decomposeQuery generateContent random JSON_parse query = Ok queries /\
    queries <> [].
Proof.
  unfold decomposeQuery.
  destruct (fst (Gemini.retryWithBackoff _ random _ _)) as [[text|e]|e];
    simpl; try (eexists; split; [reflexivity|discriminate]).
  unfold parse_queries.
  destruct (JSON_parse _) as [[| | | |[|item items]|]|e]; simpl;
    eexists; (split; [reflexivity|discriminate]).
Qed.

Lemma generateChatResponse_returns
  (generateContent : jsstring -> nat -> result (result jsstring))
  (random : nat -> Q) (message : jsstring) (context : ChatContext) :
  exists text,
    generateChatResponse generateContent random message context = Ok text.
Proof.
  unfold generateChatResponse.
  destruct (fst (Gemini.retryWithBackoff _ random _ _)) as [[text|e]|e];
    simpl; eauto.
Qed.

Lemma excerpt_shape (text : jsstring) :
  exists head,
    ChatPost.excerpt text = head ++ lit "..." /\
    (length head <= 200)%nat /\
    ((length text <= 200)%nat -> head = text).
Proof.
  unfold ChatPost.excerpt. rewrite js_slice_firstn by lia.
  exists (firstn 200 text). split; [reflexivity|]. split.
  - rewrite length_firstn. lia.
  - intros H. now apply firstn_all2.
Qed.

Lemma map_entries_messages (null_entry_error : js_error)
  (messages : list history_message) :
  ChatPost.map_entries null_entry_error (map Some messages) = Ok messages.
Proof.
  induction messages as [|[role content] messages IH]; [reflexivity|].
  simpl. now rewrite IH.
Qed.

Lemma map_entries_null (null_entry_error : js_error)
  (entries : list (option history_message)) :
  In None entries ->
  ChatPost.map_entries null_entry_error entries = Throw null_entry_error.
Proof.
  induction entries as [|[msg|] entries IH]; simpl.
  - intros [].
  - intros [H|H]; [discriminate|]. now rewrite IH.
  - reflexivity.
Qed.

Lemma error_response_status (error : js_error) :
  ChatPost.status (ChatPost.error_response error) = 503
  \/ ChatPost.status (ChatPost.error_response error) = 500.
Proof.
  unfold ChatPost.error_response.
  destruct (includes _ _); [now left|].
  destruct (includes _ _); now right.
Qed.



(** ** The chat route: a search that throws, and duplicates *)

Lemma search_each_until_failure
  (searchSimilarDocuments : json -> nat -> result (list search_row))
  (before : list json) (failing : json) (after : list json)
  (error : js_error) :
  (forall q, In q before ->
     exists docs, searchSimilarDocuments q 5%nat = Ok docs) ->
  searchSimilarDocuments failing 5%nat = Throw error ->
  forall relevantDocuments,
    search_each searchSimilarDocuments (before ++ failing :: after)
      relevantDocuments
    = (relevantDocuments
       ++ flat_map (fun q => match searchSimilarDocuments q 5%nat with
                             | Ok docs => docs
                             | Throw _ => []
                             end) before,
       Some error).
Proof.
  intros Hbefore Hfailing.
  induction before as [|q before IH]; intros acc; simpl.
  - now rewrite Hfailing, app_nil_r.
  - destruct (Hbefore q (or_introl eq_refl)) as [docs Hq]. rewrite Hq.
    rewrite IH by (intros q' Hq'; apply Hbefore; now right).
    now rewrite <- app_assoc.
Qed.

(** X22: when the search of a decomposed query throws, the route goes on
    with the rows of the queries before it, as they were pushed: the
    queries after it are not searched, and the duplicates are not
    removed, since the filter stands in the same [try] block after the
    loop.  All decomposed queries are still reported. *)
Theorem retrieve_after_failed_search
  (decomposeQuery : jsstring -> result (list json))
  (searchSimilarDocuments : json -> nat -> result (list search_row))
  (message : jsstring) (before : list json) (failing : json)
  (after : list json) (error : js_error) :
  decomposeQuery message = Ok (before ++ failing :: after) ->
  (forall q, In q before ->
     exists docs, searchSimilarDocuments q 5%nat = Ok docs) ->
  searchSimilarDocuments failing 5%nat = Throw error ->
  retrieve decomposeQuery searchSimilarDocuments message
  = (flat_map (fun q => match searchSimilarDocuments q 5%nat with
                        | Ok docs => docs
                        | Throw _ => []
                        end) before,
     before ++ failing :: after).
Proof.
  intros Hdec Hbefore Hfailing. unfold retrieve. rewrite Hdec.
  now rewrite (search_each_until_failure searchSimilarDocuments before
                 failing after error Hbefore Hfailing []).
Qed.

Lemma retrieve_after_failed_search_witness :
  retrieve Examples.decompose_three Examples.search_third_fails
    (lit "question")
  = ([Samples.row_alpha (9 # 10); Samples.row_beta;
      Samples.row_alpha (1 # 2)],
     Examples.three_queries).
Proof.
  apply (retrieve_after_failed_search Examples.decompose_three
           Examples.search_third_fails (lit "question")
           [JString (lit "q1"); JString (lit "q2")] (JString (lit "q3")) []
           (Error (lit "fetch failed"))).
  - reflexivity.
  - intros q [<-|[<-|[]]]; eexists; reflexivity.
  - reflexivity.
Defined.

Lemma distinct_by_keys (rows : list search_row) :
  forall seen,
    NoDup (map chunk_key (distinct_by same_chunk seen rows)) /\
    forall d, In d (distinct_by same_chunk seen rows) ->
      ~ In (chunk_key d) (map chunk_key seen).
Proof.
  induction rows as [|r rows IH]; intros seen; simpl.
  - split; [constructor|intros d []].
  - destruct (IH (seen ++ [r])) as [Hnodup Hnew].
    assert (Hseen : forall d,
              In d (distinct_by same_chunk (seen ++ [r]) rows) ->
              ~ In (chunk_key d) (map chunk_key seen)).
    { intros d Hd Hin. apply (Hnew d Hd).
      rewrite map_app. apply in_or_app. now left. }
    destruct (existsb (same_chunk r) seen) eqn:Hr.
    + split; assumption.
    + split.
      * simpl. constructor; [|exact Hnodup].
        intros Hin. apply in_map_iff in Hin. destruct Hin as (d & Hkey & Hd).
        apply (Hnew d Hd). rewrite map_app. apply in_or_app. right.
        simpl. left. now symmetry.
      * intros d [<-|Hd]; [|now apply Hseen].
        intros Hin. apply in_map_iff in Hin. destruct Hin as (s & Hkey & Hs).
        assert (existsb (same_chunk r) seen = true); [|congruence].
        apply existsb_same_chunk. now exists s.
Qed.

Lemma distinct_by_fixed (rows : list search_row) :
  forall seen,
    NoDup (map chunk_key rows) ->
    (forall d, In d rows -> ~ In (chunk_key d) (map chunk_key seen)) ->
    distinct_by same_chunk seen rows = rows.
Proof.
  induction rows as [|r rows IH]; intros seen Hnodup Hnew; [reflexivity|].
  simpl. inversion Hnodup as [|? ? Hr Hrows]; subst.
  assert (Hfresh : existsb (same_chunk r) seen = false).
  { destruct (existsb (same_chunk r) seen) eqn:E; [|reflexivity].
    apply existsb_same_chunk in E. destruct E as (s & Hs & Hkey).
    elim (Hnew r (or_introl eq_refl)). apply in_map_iff. now exists s. }
  rewrite Hfresh. f_equal. apply IH; [exact Hrows|].
  intros d Hd Hin. rewrite map_app in Hin. apply in_app_or in Hin.
  destruct Hin as [Hin|[Hin|[]]].
  - exact (Hnew d (or_intror Hd) Hin).
  - apply Hr. rewrite Hin. now apply in_map.
Qed.

(** X23: the filter that removes the duplicates leaves no two rows with
    the same (document id, content), keeps the rows in the order they
    were pushed, each kept row being the first with its pair, and changes
    nothing when it is run again. *)
Theorem remove_duplicates_idempotent (rows : list search_row) :
  NoDup (map chunk_key (remove_duplicates rows)) /\
  (forall d, In d rows ->
     In (chunk_key d) (map chunk_key (remove_duplicates rows))) /\
  (forall d, In d (remove_duplicates rows) -> In d rows) /\
  remove_duplicates (remove_duplicates rows) = remove_duplicates rows.
Proof.
  rewrite !remove_duplicates_distinct_by.
  destruct (distinct_by_keys rows []) as [Hnodup _].
  split; [exact Hnodup|]. split; [|split].
  - intros d Hd.
    destruct (distinct_by_covers same_chunk
                (fun a => proj2 (same_chunk_key a a) eq_refl)
                same_chunk_trans rows [] d Hd)
      as [Hseen|(d' & Hd' & Hsame)]; [discriminate|].
    apply same_chunk_key in Hsame. rewrite <- Hsame. now apply in_map.
  - intros d Hd. exact (distinct_by_In _ _ _ _ Hd).
  - apply distinct_by_fixed; [exact Hnodup|]. intros d _ [].
Qed.

(** ** [decomposeQuery]: an answer in a code fence *)

Lemma strip_prefix_app (prefix s : jsstring) :
  strip_prefix prefix (prefix ++ s) = Some s.
Proof.
  induction prefix as [|c prefix IH]; simpl; [now destruct s|].
  now rewrite N.eqb_refl.
Qed.

Lemma strip_code_fence_fenced (body : jsstring) :
  strip_code_fence
    (backtick ++ backtick ++ backtick ++ lit "json" ++ newline
     ++ body ++ newline ++ backtick ++ backtick ++ backtick)
  = body.
Proof.
  assert (Hopen : backtick ++ backtick ++ backtick ++ lit "json" ++ newline
                  ++ body ++ newline ++ backtick ++ backtick ++ backtick
                  = (backtick ++ backtick ++ backtick ++ lit "json"
                     ++ newline)
                    ++ body ++ (newline ++ backtick ++ backtick ++ backtick))
    by reflexivity.
  rewrite Hopen. unfold strip_code_fence.
  rewrite strip_prefix_app.
  rewrite (rev_app_distr body), strip_prefix_app. apply rev_involutive.
Qed.

(** X24: when the model wraps its answer in a code fence, what
    [JSON.parse] is given is the trimmed text between the fences, so a
    fenced array of queries is returned like a bare one. *)
Theorem decomposeQuery_fenced_answer
  (generateContent : jsstring -> nat -> result (result jsstring))
  (random : nat -> Q) (JSON_parse : jsstring -> result json)
  (query text body : jsstring) (item : json) (items : list json) :
  fst (Gemini.retryWithBackoff (generateContent (decompose_prompt query))
         random Gemini.default_maxRetries Gemini.default_baseDelay)
  = Ok (Ok text) ->
  trim text
  = backtick ++ backtick ++ backtick ++ lit "json" ++ newline
    ++ body ++ newline ++ backtick ++ backtick ++ backtick ->
  JSON_parse (trim body) = Ok (JArray (item :: items)) ->
  decomposeQuery generateContent random JSON_parse query
  = Ok (item :: items).
Proof.
  intros Hrun Htext Hparse. unfold decomposeQuery. rewrite Hrun.
  cbn [bind try_catch]. rewrite Htext, strip_code_fence_fenced.
  unfold parse_queries. now rewrite Hparse.
Qed.

Lemma decomposeQuery_fenced_answer_witness :
  decomposeQuery Examples.model_fenced (fun _ => 0%Q) Examples.parse_one
    (lit "what is new")
  = Ok [JString (lit "a")].
Proof.
  apply (decomposeQuery_fenced_answer Examples.model_fenced (fun _ => 0%Q)
           Examples.parse_one (lit "what is new") Examples.fenced_answer
           (lit "[" ++ dquote ++ lit "a" ++ dquote ++ lit "]")
           (JString (lit "a")) []);
    reflexivity.
Defined.

(** ** [chunkText]: an overlap that is not below the window *)

(** X25: with [0 < maxLength <= overlap] the loop of [chunkText] makes no
    progress on a text longer than one window: however many turns it is
    given, it has not left, so the call never returns. *)
Theorem chunkText_never_returns (text : jsstring) (maxLength overlap : Z) :
  0 < maxLength <= overlap -> maxLength < Z.of_nat (length text) ->
  forall fuel, chunkText_fuel fuel text maxLength overlap = None.
Proof.
  intros Hoverlap Hlong fuel.
  now apply chunkText_no_progress.
Qed.

Lemma chunkText_never_returns_witness :
  chunkText_fuel 1000 (lit "abc") 2 2 = None.
Proof.
  apply (chunkText_never_returns (lit "abc") 2 2); simpl; lia.
Defined.
